(** * MIT Schedule Advisor: the scheduling core, embedded and verified

    A shallow embedding of [backend/app/models/schemas.py],
    [backend/app/core/config.py],
    [backend/app/services/solver/schedule_solver.py] and the parsing
    helpers of [backend/app/services/mit_api.py].

    Conventions of the embedding:
    - Python [int] is [Z]; Python [float] is idealised as an exact rational
      [Q] (only scores and ratings are floats): the code rounds at every
      float operation and raises on NaN, infinities and overflow, so no
      statement below reads a float result except on runs whose numbers
      are all integers;
    - a Python [str] is a [string] whose characters are code points below
      256;
    - cp_model takes 64-bit integers and raises on any other number; the
      constraint model below is the one the code builds when every number
      fits, and the statements about [solve] speak of the runs in which it
      returns;
    - a [Dict[str, _]] that is only looked up is a [gmap string _]; the
      course catalogue [available_courses], which the code iterates in
      insertion order, is the list of its [items()];
    - a Python exception is [None] in an [option] result;
    - the CP-SAT engine is a parameter: a function from the built model to
      an optional assignment, assumed to return only satisfying
      assignments. *)

From stdpp Require Import gmap strings list pretty sorting.
From Stdlib Require Import Ascii QArith Qpower.

Open Scope Z_scope.

(** ** Python primitives used by the code *)

Module Py.

(** [s[:n]] and [s[n:]] on strings. *)
Fixpoint str_take (n : nat) (s : string) : string :=
  match n, s with
  | S n', String c s' => String c (str_take n' s')
  | _, _ => EmptyString
  end.

Fixpoint str_drop (n : nat) (s : string) : string :=
  match n, s with
  | S n', String _ s' => str_drop n' s'
  | _, _ => s
  end.

(** [s.split(sep)] for a one-character separator: always at least one
    part. *)
Fixpoint split (sep : ascii) (s : string) : list string :=
  match s with
  | EmptyString => [EmptyString]
  | String c s' =>
      if Ascii.eqb c sep then EmptyString :: split sep s'
      else match split sep s' with
           | h :: t => String c h :: t
           | [] => [String c EmptyString]
           end
  end.

(** Whitespace that [int()] strips.  A character is a code point below
    256: tab to carriage return (0x09-0x0D) and the space, which the
    integer parser skips itself, and U+0085 and U+00A0, which [int()] turns
    into spaces first.  The separators 0x1C-0x1F are whitespace for
    [str.strip()] but not for [int()], which rejects them. *)
Definition is_space (c : ascii) : bool :=
  let n := nat_of_ascii c in
  ((9 <=? n)%nat && (n <=? 13)%nat) || (n =? 32)%nat || (n =? 133)%nat || (n =? 160)%nat.

Definition digit_val (c : ascii) : option Z :=
  let n := nat_of_ascii c in
  if ((48 <=? n)%nat && (n <=? 57)%nat) then Some (Z.of_nat (n - 48)) else None.

Fixpoint lstrip (s : string) : string :=
  match s with
  | String c s' => if is_space c then lstrip s' else s
  | EmptyString => EmptyString
  end.

Definition strip (s : string) : string :=
  String.rev (lstrip (String.rev (lstrip s))).

(** Decimal digits, single underscores allowed between digits.
    [prev] tells whether the previous character was a digit. *)
Fixpoint digits (acc : Z) (prev : bool) (s : string) : option Z :=
  match s with
  | EmptyString => if prev then Some acc else None
  | String c s' =>
      match digit_val c with
      | Some d => digits (10 * acc + d) true s'
      | None =>
          if Ascii.eqb c "_"%char && prev then digits acc false s' else None
      end
  end.

(** [int(s)] in base ten on a string of code points below 256; [None]
    stands for [ValueError].  Among those code points the decimal digits
    are the ASCII ones.  (Digits and spaces of code points from 256 on,
    which [int()] also accepts, are outside the strings of the
    embedding.) *)
Definition int (s : string) : option Z :=
  match strip s with
  | String "+"%char r => digits 0 false r
  | String "-"%char r => Z.opp <$> digits 0 false r
  | t => digits 0 false t
  end.

(** [str(z)] / [f"{z}"] for an [int]. *)
Definition str (z : Z) : string := pretty z.

End Py.

(** ** Data model ([schemas.py]) *)

Inductive Term := FALL | IAP | SPRING | SUMMER.

Inductive DayOfWeek := MONDAY | TUESDAY | WEDNESDAY | THURSDAY | FRIDAY.

Inductive RequirementType := SPECIFIC_COURSE | CATEGORY | UNITS | ELECTIVE.

#[global] Instance Term_eq_dec : EqDecision Term.
Proof. solve_decision. Defined.

#[global] Instance DayOfWeek_eq_dec : EqDecision DayOfWeek.
Proof. solve_decision. Defined.

#[global] Instance RequirementType_eq_dec : EqDecision RequirementType.
Proof. solve_decision. Defined.

Record MeetingTime := {
  days : list DayOfWeek;
  start_time : string;
  end_time : string;
  location : option string
}.

(** [MeetingTime._parse_time]: any failure (wrong number of parts, a part
    that is not an integer) is caught and gives 0. *)
Definition _parse_time (time_str : string) : Z :=
  match Py.split ":"%char time_str with
  | [h; m] =>
      match Py.int h, Py.int m with
      | Some hour, Some minute => hour * 60 + minute
      | _, _ => 0
      end
  | _ => 0
  end.

(** [MeetingTime.conflicts_with]. *)
Definition conflicts_with (self other : MeetingTime) : bool :=
  if negb (existsb (fun day => bool_decide (day ∈ days other)) (days self))
  then false
  else
    let start1 := _parse_time (start_time self) in
    let end1 := _parse_time (end_time self) in
    let start2 := _parse_time (start_time other) in
    let end2 := _parse_time (end_time other) in
    (start1 <? end2) && (start2 <? end1).

(** Of [Course], [Requirement] and [StudentProfile] only the fields the
    scheduling core reads are kept. *)
Record Course := {
  id : string;
  units : Z;
  prerequisites : list string;
  meets_requirements : list string;
  student_rating : option Q
}.

Record ScheduledCourse := {
  course : Course;
  term : string;
  sc_year : Z;
  sc_semester : Term;
  meeting_times : list MeetingTime
}.

(** [ScheduledCourse.has_time_conflict]. *)
Definition has_time_conflict (self other : ScheduledCourse) : bool :=
  if negb (bool_decide (term self = term other)) then false
  else
    existsb (fun mt1 => existsb (fun mt2 => conflicts_with mt1 mt2)
                          (meeting_times other))
            (meeting_times self).

Record ScheduledTerm := {
  year : Z;
  semester : Term;
  courses : list ScheduledCourse
}.

(** [ScheduledTerm.total_units]. *)
Definition total_units (t : ScheduledTerm) : Z :=
  foldr Z.add 0 ((fun c => units (course c)) <$> courses t).

Definition semester_codes (s : Term) : string :=
  match s with
  | FALL => "FA" | IAP => "IA" | SPRING => "SP" | SUMMER => "SU"
  end.

(** [ScheduledTerm.term_id]. *)
Definition term_id (t : ScheduledTerm) : string :=
  Py.str (year t) +:+ semester_codes (semester t).

(** [ScheduledTerm.has_conflicts]: pairs (i, j), i < j, in list order. *)
Fixpoint has_conflicts_list (cs : list ScheduledCourse) : list (string * string) :=
  match cs with
  | [] => []
  | course1 :: rest =>
      ((fun course2 => (id (course course1), id (course course2)))
         <$> filter (fun course2 => has_time_conflict course1 course2 = true) rest)
      ++ has_conflicts_list rest
  end.

Definition has_conflicts (t : ScheduledTerm) : list (string * string) :=
  has_conflicts_list (courses t).

Record Requirement := {
  req_id : string;
  description : string;
  rule_type : RequirementType;
  courses_allowed : option (list string);
  category : option string;
  units_required : option Z
}.

Record StudentProfile := {
  sp_id : string;
  sp_year : Z;
  sp_semester : Term;
  completed_courses : list string;
  preferences : gmap string Z;
  optimization_weights : gmap string Q
}.

Record Schedule := {
  student_id : string;
  terms : list ScheduledTerm
}.

(** [Schedule.all_courses]. *)
Definition all_courses (s : Schedule) : list string :=
  mjoin ((fun t => (fun c => id (course c)) <$> courses t) <$> terms s).

(** ** Settings ([config.py]) *)

Record Settings := {
  SOLVER_MAX_TERMS : Z;
  DEFAULT_MAX_UNITS_PER_TERM : Z;
  DEFAULT_MIN_UNITS_PER_TERM : Z
}.

Definition default_settings : Settings :=
  {| SOLVER_MAX_TERMS := 8;
     DEFAULT_MAX_UNITS_PER_TERM := 60;
     DEFAULT_MIN_UNITS_PER_TERM := 36 |}.

(** ** Term planner ([ScheduleSolver._generate_terms]) *)

(** The dictionary [semester_order]; [SUMMER] is not a key ([KeyError]). *)
Definition semester_order (s : Term) : option nat :=
  match s with
  | FALL => Some 0%nat
  | IAP => Some 1%nat
  | SPRING => Some 2%nat
  | SUMMER => None
  end.

Definition semesters : list Term := [FALL; IAP; SPRING].

Definition codes : list string := ["FA"; "IA"; "SP"]%string.

(** The loop state: the list built so far, [year], [semester_idx]. *)
Record planner_state := {
  ps_terms : list string;
  ps_year : Z;
  ps_idx : nat
}.

(** One iteration of the [for _ in range(SOLVER_MAX_TERMS)] loop. *)
Definition planner_step (st : planner_state) : planner_state :=
  let semester := nth (ps_idx st) semesters FALL in
  let terms' :=
    if bool_decide (semester ≠ IAP)
    then ps_terms st ++ [Py.str (2024 + ps_year st) +:+ nth (ps_idx st) codes EmptyString]
    else ps_terms st in
  let idx' := ((ps_idx st + 1) mod 3)%nat in
  let year' := if bool_decide (idx' = 0%nat) then ps_year st + 1 else ps_year st in
  {| ps_terms := terms'; ps_year := year'; ps_idx := idx' |}.

Definition _generate_terms (settings : Settings) (student_profile : StudentProfile)
  : option (list string) :=
  semester_idx ← semester_order (sp_semester student_profile);
  Some (ps_terms
          (Nat.iter (Z.to_nat (SOLVER_MAX_TERMS settings)) planner_step
             {| ps_terms := []; ps_year := sp_year student_profile;
                ps_idx := semester_idx |})).

(** ** The constraint model handed to the solving engine *)

(** Decision variables.  [CourseVar c t] is [course_vars[c][t]]; the
    dictionary [course_vars] has exactly the keys of [available_courses],
    each mapped to one variable per planned term (the planned terms are
    pairwise distinct, [generated_terms_NoDup]), so the code's
    [course_vars] parameter is represented by its list of keys and
    [course_vars[c].values()] by the variables of [c] along [terms].
    [TakenVar n] is the n-th auxiliary variable [req_<id>_<course>]. *)
Inductive Var :=
  | CourseVar (course_id term_id : string)
  | TakenVar (n : nat).

#[global] Instance Var_eq_dec : EqDecision Var.
Proof. solve_decision. Defined.

Inductive Rel := Ge | Le | Eq.

(** A linear expression [sum(coef * var)]. *)
Abbreviation LinExpr := (list (Z * Var)).

(** [model.Add(lhs REL rhs)], possibly followed by [.OnlyEnforceIf(lit)].
    Coefficients and bounds are unbounded integers here; cp_model raises
    on one that does not fit in 64 bits instead of adding the
    constraint. *)
Record Constraint := {
  c_lhs : LinExpr;
  c_rel : Rel;
  c_rhs : Z;
  c_only_enforce_if : option Var
}.

Record CpModel := {
  constraints : list Constraint;
  num_taken : nat;
  objective : option LinExpr
}.

Definition new_model : CpModel :=
  {| constraints := []; num_taken := 0; objective := None |}.

Definition Add (c : Constraint) (m : CpModel) : CpModel :=
  {| constraints := constraints m ++ [c];
     num_taken := num_taken m;
     objective := objective m |}.

Definition NewTakenVar (m : CpModel) : Var * CpModel :=
  (TakenVar (num_taken m),
   {| constraints := constraints m;
      num_taken := S (num_taken m);
      objective := objective m |}).

Definition Maximize (e : LinExpr) (m : CpModel) : CpModel :=
  {| constraints := constraints m;
     num_taken := num_taken m;
     objective := Some e |}.

(** Semantics: an assignment gives every Boolean variable 0 or 1. *)
Definition value (a : Var -> bool) (v : Var) : Z := if a v then 1 else 0.

Definition eval (a : Var -> bool) (e : LinExpr) : Z :=
  foldr (fun kv acc => kv.1 * value a kv.2 + acc) 0 e.

Definition rel_holds (r : Rel) (x y : Z) : bool :=
  match r with
  | Ge => y <=? x
  | Le => x <=? y
  | Eq => x =? y
  end.

Definition holds (a : Var -> bool) (c : Constraint) : bool :=
  let body := rel_holds (c_rel c) (eval a (c_lhs c)) (c_rhs c) in
  match c_only_enforce_if c with
  | Some lit => implb (a lit) body
  | None => body
  end.

Definition satisfies (a : Var -> bool) (m : CpModel) : bool :=
  forallb (holds a) (constraints m).

(** ** Constraint model builder *)

(** [sum(course_vars[course_id].values())]. *)
Definition sum_over_terms (course_id : string) (terms : list string) : LinExpr :=
  (fun t => (1, CourseVar course_id t)) <$> terms.

(** Python truthiness of an [Optional[List]], [Optional[str]] and
    [Optional[int]]. *)
Definition truthy_list {A} (l : option (list A)) : bool :=
  match l with Some (_ :: _) => true | _ => false end.

Definition truthy_str (s : option string) : bool :=
  match s with Some (String _ _) => true | _ => false end.

Definition truthy_int (z : option Z) : bool :=
  match z with Some z => negb (z =? 0) | None => false end.

(** The body of [for course_id in req.courses_allowed]; the accumulator is
    [course_taken_vars] together with the model. *)
Definition taken_step (course_vars terms : list string)
    (st : list Var * CpModel) (course_id : string) : list Var * CpModel :=
  if bool_decide (course_id ∈ course_vars) then
    let '(taken, m) := NewTakenVar st.2 in
    (st.1 ++ [taken],
     Add {| c_lhs := sum_over_terms course_id terms; c_rel := Ge; c_rhs := 1;
            c_only_enforce_if := Some taken |} m)
  else st.

(** [category_units] of the [UNITS] branch. *)
Definition category_units (cat : string) (course_vars terms : list string)
    (available_courses : list (string * Course)) : LinExpr :=
  available_courses ≫= (fun kc =>
    if bool_decide (cat ∈ meets_requirements kc.2) then
      if bool_decide (kc.1 ∈ course_vars) then
        (fun t => (units kc.2, CourseVar kc.1 t)) <$> terms
      else []
    else []).

(** The body of [for req in requirements]. *)
Definition requirement_step (course_vars terms : list string)
    (available_courses : list (string * Course))
    (m : CpModel) (req : Requirement) : CpModel :=
  match rule_type req with
  | SPECIFIC_COURSE =>
      if truthy_list (courses_allowed req) then
        let '(course_taken_vars, m1) :=
          foldl (taken_step course_vars terms) ([], m)
                (default [] (courses_allowed req)) in
        match course_taken_vars with
        | [] => m1
        | _ => Add {| c_lhs := (fun v => (1, v)) <$> course_taken_vars;
                      c_rel := Ge; c_rhs := 1; c_only_enforce_if := None |} m1
        end
      else m
  | UNITS =>
      if truthy_str (category req) && truthy_int (units_required req) then
        match category_units (default EmptyString (category req))
                course_vars terms available_courses with
        | [] => m
        | e => Add {| c_lhs := e; c_rel := Ge;
                      c_rhs := default 0 (units_required req);
                      c_only_enforce_if := None |} m
        end
      else m
  | _ => m
  end.

Definition _add_requirement_constraints (course_vars : list string)
    (requirements : list Requirement)
    (available_courses : list (string * Course)) (terms : list string)
    (m : CpModel) : CpModel :=
  foldl (requirement_step course_vars terms available_courses) m requirements.

(** [for i, term_id in enumerate(terms)] of the prerequisite builder:
    [earlier] is [terms[:i]]. *)
Fixpoint prereq_precedence (course_id prereq : string)
    (earlier rest : list string) (m : CpModel) : CpModel :=
  match rest with
  | [] => m
  | term_id :: rest' =>
      let prereq_taken_before := sum_over_terms prereq earlier in
      let m' :=
        match prereq_taken_before with
        | [] => m
        | _ => Add {| c_lhs := prereq_taken_before; c_rel := Ge; c_rhs := 1;
                      c_only_enforce_if := Some (CourseVar course_id term_id) |} m
        end in
      prereq_precedence course_id prereq (earlier ++ [term_id]) rest' m'
  end.

(** [model.Add(course_vars[course_id][term_id] == 0)]. *)
Definition forbid (course_id term_id : string) : Constraint :=
  {| c_lhs := [(1, CourseVar course_id term_id)]; c_rel := Eq; c_rhs := 0;
     c_only_enforce_if := None |}.

(** The body of [for prereq in course.prerequisites]. *)
Definition prereq_step (course_vars terms completed_courses : list string)
    (course_id : string) (m : CpModel) (prereq : string) : CpModel :=
  if bool_decide (prereq ∈ completed_courses) then m
  else if bool_decide (prereq ∉ course_vars) then
    foldl (fun m term_id => Add (forbid course_id term_id) m) m terms
  else prereq_precedence course_id prereq [] terms m.

Definition _add_prerequisite_constraints (course_vars : list string)
    (available_courses : list (string * Course))
    (terms completed_courses : list string) (m : CpModel) : CpModel :=
  foldl (fun m kc =>
           if bool_decide (kc.1 ∉ course_vars) then m
           else foldl (prereq_step course_vars terms completed_courses kc.1)
                      m (prerequisites kc.2))
        m available_courses.

Definition _add_offering_constraints (course_vars : list string)
    (course_offerings : gmap string (list string)) (terms : list string)
    (m : CpModel) : CpModel :=
  foldl (fun m course_id =>
           foldl (fun m term_id =>
                    match course_offerings !! term_id with
                    | Some offered =>
                        if bool_decide (course_id ∉ offered)
                        then Add (forbid course_id term_id) m
                        else m
                    | None => m
                    end)
                 m terms)
        m course_vars.

(** [term_units] of the unit-load loop. *)
Definition term_units (course_vars : list string)
    (available_courses : list (string * Course)) (term_id : string) : LinExpr :=
  available_courses ≫= (fun kc =>
    if bool_decide (kc.1 ∈ course_vars)
    then [(units kc.2, CourseVar kc.1 term_id)] else []).

Definition max_units_of (settings : Settings) (student_profile : StudentProfile) : Z :=
  default (DEFAULT_MAX_UNITS_PER_TERM settings)
          (preferences student_profile !! "max_units_per_term"%string).

Definition _add_unit_constraints (settings : Settings) (course_vars : list string)
    (available_courses : list (string * Course)) (terms : list string)
    (student_profile : StudentProfile) (m : CpModel) : CpModel :=
  let max_units := max_units_of settings student_profile in
  foldl (fun m term_id =>
           match term_units course_vars available_courses term_id with
           | [] => m
           | e =>
               Add {| c_lhs := e; c_rel := Ge; c_rhs := 12;
                      c_only_enforce_if := None |}
                 (Add {| c_lhs := e; c_rel := Le; c_rhs := max_units;
                         c_only_enforce_if := None |} m)
           end)
        m terms.

(** [int(x)] of a float: truncation towards zero.  It is taken on the
    exact value: the code truncates the rounded float product, which can
    land on the other side of an integer ([4.35 * 100]), and raises on NaN
    and infinities.  No statement below reads an objective coefficient. *)
Definition Qtrunc (q : Q) : Z := Z.quot (Qnum q) (Zpos (Qden q)).

(** [bool(x)] of an optional float: [None] and [0.0] are false. *)
Definition truthy_float (q : option Q) : bool :=
  match q with Some q => negb (Qeq_bool q 0) | None => false end.

Definition _add_objective (course_vars : list string)
    (available_courses : list (string * Course)) (terms : list string)
    (preferences : gmap string Q) (m : CpModel) : CpModel :=
  let rating_weight := default (1 # 2)%Q (preferences !! "maximize_ratings"%string) in
  let objective_terms :=
    available_courses ≫= (fun kc =>
      if truthy_float (student_rating kc.2) && bool_decide (kc.1 ∈ course_vars) then
        let rating := Qtrunc (default 0%Q (student_rating kc.2) * 100)%Q in
        (fun t => (rating * Qtrunc (rating_weight * 100)%Q, CourseVar kc.1 t)) <$> terms
      else []) in
  match objective_terms with
  | [] => m
  | e => Maximize e m
  end.

(** The model [solve] submits: the four constraint groups in the order the
    code adds them, then the objective. *)
Definition build_model (settings : Settings) (student_profile : StudentProfile)
    (requirements : list Requirement)
    (available_courses : list (string * Course))
    (course_offerings : gmap string (list string))
    (preferences : gmap string Q) (terms : list string) : CpModel :=
  let course_vars := available_courses.*1 in
  let m := _add_requirement_constraints course_vars requirements
             available_courses terms new_model in
  let m := _add_prerequisite_constraints course_vars available_courses terms
             (completed_courses student_profile) m in
  let m := _add_offering_constraints course_vars course_offerings terms m in
  let m := _add_unit_constraints settings course_vars available_courses terms
             student_profile m in
  _add_objective course_vars available_courses terms preferences m.

(** ** Schedule extractor ([ScheduleSolver._extract_schedule]) *)

(** The dictionary [{"FA": FALL, "SP": SPRING, "IA": IAP}]. *)
Definition semester_of_code (code : string) : option Term :=
  if bool_decide (code = "FA"%string) then Some FALL
  else if bool_decide (code = "SP"%string) then Some SPRING
  else if bool_decide (code = "IA"%string) then Some IAP
  else None.

(** "Parse term (e.g., 2024FA -> year=2024, semester=FALL)": [None] is the
    [ValueError] of [int] or the [KeyError] of the code table. *)
Definition parse_term_id (term_id : string) : option (Z * Term) :=
  year ← Py.int (Py.str_take 4 term_id);
  semester ← semester_of_code (Py.str_drop 4 term_id);
  Some (year, semester).

(** [courses_in_term] for one term. *)
Definition courses_in_term (solver_value : Var -> bool) (course_vars : list string)
    (available_courses : list (string * Course))
    (term_id : string) (year : Z) (semester : Term) : list ScheduledCourse :=
  available_courses ≫= (fun kc =>
    if bool_decide (kc.1 ∈ course_vars) && solver_value (CourseVar kc.1 term_id)
    then [{| course := kc.2; term := term_id; sc_year := year;
             sc_semester := semester; meeting_times := [] |}]
    else []).

(** The loop [for term_id in terms]; an exception of the parse aborts it. *)
Fixpoint extract_terms (solver_value : Var -> bool) (course_vars : list string)
    (available_courses : list (string * Course)) (terms : list string)
  : option (list ScheduledTerm) :=
  match terms with
  | [] => Some []
  | term_id :: rest =>
      ys ← parse_term_id term_id;
      scheduled_terms ← extract_terms solver_value course_vars available_courses rest;
      match courses_in_term solver_value course_vars available_courses
              term_id ys.1 ys.2 with
      | [] => Some scheduled_terms
      | cs => Some ({| year := ys.1; semester := ys.2; courses := cs |}
                      :: scheduled_terms)
      end
  end.

Definition _extract_schedule (solver_value : Var -> bool) (course_vars : list string)
    (available_courses : list (string * Course)) (terms : list string)
    (student_profile : StudentProfile) : option Schedule :=
  scheduled_terms ← extract_terms solver_value course_vars available_courses terms;
  Some {| student_id := sp_id student_profile; terms := scheduled_terms |}.

(** ** Scoring ([ScheduleSolver._calculate_score])

    In exact arithmetic: the code computes in floats, rounding at each
    operation and raising [OverflowError] on unit totals beyond the float
    range.  The score is only evaluated below on a run whose numbers are
    all integers, where both agree. *)

Definition Qsum (l : list Q) : Q := foldr Qplus 0%Q l.

(** Python's [min(a, b)]: [b] when [b < a], else [a]. *)
Definition py_min (a b : Q) : Q := if Qlt_le_dec b a then b else a.

Definition _calculate_score (schedule : Schedule) (preferences : gmap string Q) : Q :=
  let score := 0%Q in
  let term_units := (fun t => inject_Z (total_units t)) <$> terms schedule in
  let score :=
    match term_units with
    | [] => score
    | _ =>
        let n := inject_Z (Z.of_nat (length term_units)) in
        let avg_units := (Qsum term_units / n)%Q in
        let variance :=
          (Qsum ((fun u => (u - avg_units) ^ 2) <$> term_units) / n)%Q in
        let balance_score := (1 / (1 + variance / 100))%Q in
        (score + balance_score
                 * default (1 # 2) (preferences !! "balance_workload"%string))%Q
    end in
  py_min 1%Q score.

(** ** Validator *)

(** [available_courses[cid]] on the catalogue's items. *)
Fixpoint dict_get {A} (d : list (string * A)) (k : string) : option A :=
  match d with
  | [] => None
  | (k', v) :: d' => if bool_decide (k' = k) then Some v else dict_get d' k
  end.

(** [ScheduleSolver._check_requirement]. *)
Definition _check_requirement (requirement : Requirement)
    (scheduled_courses : list string)
    (available_courses : list (string * Course)) : bool :=
  match rule_type requirement with
  | SPECIFIC_COURSE =>
      if truthy_list (courses_allowed requirement) then
        existsb (fun c => bool_decide (c ∈ scheduled_courses))
                (default [] (courses_allowed requirement))
      else false
  | UNITS =>
      if truthy_str (category requirement) then
        let cat := default EmptyString (category requirement) in
        let total_units :=
          foldr Z.add 0
            (scheduled_courses ≫= (fun cid =>
               match dict_get available_courses cid with
               | Some c =>
                   if bool_decide (cat ∈ meets_requirements c) then [units c] else []
               | None => []
               end)) in
        default 0 (units_required requirement) <=? total_units
      else false
  | _ => false
  end.

(** Python's tuple comparison [(y1, o1) < (y2, o2)]. *)
Definition tuple_lt (a b : Z * nat) : bool :=
  (a.1 <? b.1) || ((a.1 =? b.1) && (a.2 <? b.2)%nat).

(** The loop of [_get_prior_courses] once [target_order] is known. *)
Fixpoint prior_loop (target_order : Z * nat) (ts : list ScheduledTerm)
  : option (list string) :=
  match ts with
  | [] => Some []
  | t :: rest =>
      o ← semester_order (semester t);
      prior ← prior_loop target_order rest;
      Some (if tuple_lt (year t, o) target_order
            then ((fun c => id (course c)) <$> courses t) ++ prior
            else prior)
  end.

(** [ScheduleSolver._get_prior_courses]; [None] is the [KeyError] of
    [semester_order] on [SUMMER]. *)
Definition _get_prior_courses (schedule : Schedule) (target_year : Z)
    (target_semester : Term) : option (list string) :=
  o ← semester_order target_semester;
  prior_loop (target_year, o) (terms schedule).

(** The entries of [errors] and [warnings], kept structured; [error_text]
    and [warning_text] give the strings the code appends. *)
Inductive ErrorMessage :=
  | RequirementNotSatisfied (description : string)
  | PrerequisiteNotSatisfied (prereq course_id term_id : string)
  | TimeConflictsIn (term_id : string)
  | ValidationError.

Inductive WarningMessage :=
  | ExceedsUnitLimit (term_id : string) (total limit : Z)
  | BelowUnitLoad (term_id : string) (total limit : Z).

#[global] Instance ErrorMessage_eq_dec : EqDecision ErrorMessage.
Proof. solve_decision. Defined.

Definition error_text (e : ErrorMessage) : string :=
  match e with
  | RequirementNotSatisfied d => "Requirement not satisfied: " +:+ d
  | PrerequisiteNotSatisfied p c t =>
      "Prerequisite " +:+ p +:+ " not satisfied for " +:+ c +:+ " in " +:+ t
  | TimeConflictsIn t => "Time conflicts in " +:+ t
  | ValidationError => "Validation error: <Term.SUMMER: 'summer'>"
  end.

Definition warning_text (w : WarningMessage) : string :=
  match w with
  | ExceedsUnitLimit t total limit =>
      "Term " +:+ t +:+ " exceeds recommended unit limit (" +:+ Py.str total
      +:+ " > " +:+ Py.str limit +:+ ")"
  | BelowUnitLoad t total limit =>
      "Term " +:+ t +:+ " below typical unit load (" +:+ Py.str total
      +:+ " < " +:+ Py.str limit +:+ ")"
  end.

Record Conflict := {
  conflict_term : string;
  conflict_courses : list string
}.

Record ScheduleValidation := {
  is_valid : bool;
  requirements_satisfied : gmap string bool;
  missing_requirements : list string;
  warnings : list WarningMessage;
  errors : list ErrorMessage;
  conflicts : list Conflict
}.

(** First loop of [validate_schedule]: the requirements. *)
Definition unsatisfied (scheduled_courses : list string)
    (available_courses : list (string * Course)) (requirements : list Requirement)
  : list Requirement :=
  filter (fun req => _check_requirement req scheduled_courses available_courses = false)
         requirements.

Definition requirement_results (scheduled_courses : list string)
    (available_courses : list (string * Course)) (requirements : list Requirement)
  : gmap string bool :=
  foldl (fun rs req =>
           <[req_id req := _check_requirement req scheduled_courses available_courses]> rs)
        ∅ requirements.

(** Second loop: prerequisites of one scheduled course, of one term, of the
    schedule.  [None] propagates the [KeyError]. *)
Definition prereq_errors_course (schedule : Schedule) (t : ScheduledTerm)
    (scheduled_course : ScheduledCourse) : option (list ErrorMessage) :=
  prior_courses ← _get_prior_courses schedule (year t) (semester t);
  Some ((fun prereq =>
           PrerequisiteNotSatisfied prereq (id (course scheduled_course)) (term_id t))
          <$> filter (fun prereq => prereq ∉ prior_courses)
                     (prerequisites (course scheduled_course))).

Definition prereq_errors_term (schedule : Schedule) (t : ScheduledTerm)
  : option (list ErrorMessage) :=
  mjoin <$> mapM (prereq_errors_course schedule t) (courses t).

Definition prereq_errors (schedule : Schedule) : option (list ErrorMessage) :=
  mjoin <$> mapM (prereq_errors_term schedule) (terms schedule).

(** Third loop: time conflicts. *)
Definition conflict_entries (t : ScheduledTerm) : list Conflict :=
  (fun p => {| conflict_term := term_id t; conflict_courses := [p.1; p.2] |})
    <$> has_conflicts t.

Definition conflict_errors (t : ScheduledTerm) : list ErrorMessage :=
  match has_conflicts t with
  | [] => []
  | _ => [TimeConflictsIn (term_id t)]
  end.

(** Fourth loop: unit limits, as warnings. *)
Definition unit_warnings (settings : Settings) (t : ScheduledTerm) : list WarningMessage :=
  if DEFAULT_MAX_UNITS_PER_TERM settings <? total_units t then
    [ExceedsUnitLimit (term_id t) (total_units t) (DEFAULT_MAX_UNITS_PER_TERM settings)]
  else if total_units t <? DEFAULT_MIN_UNITS_PER_TERM settings then
    [BelowUnitLoad (term_id t) (total_units t) (DEFAULT_MIN_UNITS_PER_TERM settings)]
  else [].

(** [ScheduleSolver.validate_schedule]. *)
Definition validate_schedule (settings : Settings) (schedule : Schedule)
    (requirements : list Requirement)
    (available_courses : list (string * Course)) : ScheduleValidation :=
  let scheduled_courses := all_courses schedule in
  let unsat := unsatisfied scheduled_courses available_courses requirements in
  match prereq_errors schedule with
  | Some prereq_errs =>
      let errors :=
        (RequirementNotSatisfied ∘ description <$> unsat)
        ++ prereq_errs
        ++ (terms schedule ≫= conflict_errors) in
      {| is_valid := bool_decide (errors = []);
         requirements_satisfied :=
           requirement_results scheduled_courses available_courses requirements;
         missing_requirements := req_id <$> unsat;
         warnings := terms schedule ≫= unit_warnings settings;
         errors := errors;
         conflicts := terms schedule ≫= conflict_entries |}
  | None =>
      {| is_valid := false;
         requirements_satisfied := ∅;
         missing_requirements := [];
         warnings := [];
         errors := [ValidationError];
         conflicts := [] |}
  end.

(** ** [ScheduleSolver.solve] *)

Inductive LogLevel := INFO | WARNING | ERROR.

(** The messages [solve] logs (times and status codes left out). *)
Inductive LogMessage :=
  | StartingGeneration (student : string)
  | SolvingCSP
  | SolutionFound
  | NoSolutionFound
  | ErrorInSolver.

Definition log_level (msg : LogMessage) : LogLevel :=
  match msg with
  | NoSolutionFound => WARNING
  | ErrorInSolver => ERROR
  | _ => INFO
  end.

(** [preferences or student_profile.optimization_weights]. *)
Definition preferences_or (preferences : option (gmap string Q))
    (student_profile : StudentProfile) : gmap string Q :=
  match preferences with
  | Some p => if bool_decide (p = ∅) then optimization_weights student_profile else p
  | None => optimization_weights student_profile
  end.

Section Solve.

(** The solving engine: [Some a] for status OPTIMAL or FEASIBLE with its
    solution [a], [None] for any other status. *)
Variable Solve : CpModel -> option (Var -> bool).

(** Result: the log, and [Some (schedule, score)] for a return or [None]
    for a raised exception. *)
Definition solve (settings : Settings) (student_profile : StudentProfile)
    (requirements : list Requirement)
    (available_courses : list (string * Course))
    (course_offerings : gmap string (list string))
    (preferences : option (gmap string Q))
  : list LogMessage * option (option Schedule * Q) :=
  let log := [StartingGeneration (sp_id student_profile)] in
  let preferences := preferences_or preferences student_profile in
  match _generate_terms settings student_profile with
  | None => (log ++ [ErrorInSolver], None)
  | Some terms =>
      let course_vars := available_courses.*1 in
      let model := build_model settings student_profile requirements
                     available_courses course_offerings preferences terms in
      let log := log ++ [SolvingCSP] in
      match Solve model with
      | Some solution =>
          let log := log ++ [SolutionFound] in
          match _extract_schedule solution course_vars available_courses
                  terms student_profile with
          | Some schedule =>
              (log, Some (Some schedule, _calculate_score schedule preferences))
          | None => (log ++ [ErrorInSolver], None)
          end
      | None => (log ++ [NoSolutionFound], Some (None, 0%Q))
      end
  end.

End Solve.

(** A concrete engine used to exhibit runs: it proposes one fixed
    assignment and reports it only if it satisfies the model. *)
Definition candidate_engine (a : Var -> bool) : CpModel -> option (Var -> bool) :=
  fun m => if satisfies a m then Some a else None.

(** The engine's contract: a reported solution satisfies every constraint. *)
Definition engine_sound (Solve : CpModel -> option (Var -> bool)) : Prop :=
  forall m a, Solve m = Some a -> satisfies a m = true.

(** * Specification-side definitions

    The quantities the specification names, written from its words, to be
    compared with what the code computes. *)

(** ** The planner's walk *)

(** Slot [k] of a walk that starts at semester index [i0] in year [y0]:
    its semester, its year (one more at each wrap to Fall) and the term id
    it would emit. *)
Definition slot_semester (i0 k : nat) : Term :=
  nth ((i0 + k) mod 3) semesters FALL.

Definition slot_year (y0 : Z) (i0 k : nat) : Z :=
  y0 + Z.of_nat ((i0 + k) / 3).

Definition slot_term_id (y0 : Z) (i0 k : nat) : string :=
  Py.str (2024 + slot_year y0 i0 k) +:+ semester_codes (slot_semester i0 k).

(** The slots of a horizon of [n] slots that are not IAP, and their ids. *)
Definition planned_slots (i0 n : nat) : list nat :=
  filter (fun k => slot_semester i0 k ≠ IAP) (seq 0 n).

Definition walk_terms (y0 : Z) (i0 n : nat) : list string :=
  slot_term_id y0 i0 <$> planned_slots i0 n.

(** Fall -> IAP -> Spring -> Fall. *)
Definition next_semester (s : Term) : Term :=
  match s with
  | FALL => IAP
  | IAP => SPRING
  | _ => FALL
  end.

(** [z] prints as four characters that [int] reads back. *)
Definition four_digits (z : Z) : bool :=
  bool_decide (String.length (Py.str z) = 4%nat) && bool_decide (Py.int (Py.str z) = Some z).

(** Every planned year is written with four digits, so that
    [term_id[:4]] is the year (true for years 1 to 5 and the default
    horizon). *)
Definition four_digit_horizon (settings : Settings) (p : StudentProfile) : Prop :=
  1000 <= 2024 + sp_year p
  /\ 2024 + sp_year p + Z.max 0 (SOLVER_MAX_TERMS settings) <= 9999.

(** ** Inputs and generated schedules *)

(** The course map is keyed by course id. *)
Definition keys_are_ids (available_courses : list (string * Course)) : Prop :=
  forall k c, (k, c) ∈ available_courses -> id c = k.

#[global] Instance keys_are_ids_dec avail : Decision (keys_are_ids avail).
Proof.
  refine (cast_if (decide (Forall (fun kc => id kc.2 = kc.1) avail)));
    unfold keys_are_ids; rewrite Forall_forall in *.
  - intros k c Hin. by apply (f (k, c)).
  - intros H. apply n. intros [k c] Hin. by apply H.
Defined.

(** The sum the unit-load constraint bounds, written out:
    sum over the catalogue of assigned[c][t] * units(c). *)
Definition unit_load (a : Var -> bool) (available_courses : list (string * Course))
    (t : string) : Z :=
  foldr Z.add 0 ((fun kc => value a (CourseVar kc.1 t) * units kc.2) <$> available_courses).

(** Is course [cid] scheduled in the term [tid] of a schedule? *)
Definition scheduled_in (sched : Schedule) (cid tid : string) : bool :=
  existsb (fun st => existsb (fun sc => bool_decide (id (course sc) = cid)
                                        && bool_decide (term sc = tid))
                             (courses st))
          (terms sched).

(** [requirement] with the course ids outside [known] removed from
    [courses_allowed]. *)
Definition drop_unknown (known : list string) (requirement : Requirement) : Requirement :=
  {| req_id := req_id requirement;
     description := description requirement;
     rule_type := rule_type requirement;
     courses_allowed := filter (fun c => c ∈ known) <$> courses_allowed requirement;
     category := category requirement;
     units_required := units_required requirement |}.

(** ** Clock times *)

(** The ways the time [h]:[m] of a day is written: hours and minutes each
    with or without a leading zero ("09:05", "9:05", "09:5", "9:5").
    [clock] is the form with two digits each. *)
Definition two_digits (z : Z) : string :=
  if z <? 10 then "0" +:+ Py.str z else Py.str z.

Definition clock (h m : Z) : string := two_digits h +:+ ":" +:+ two_digits m.

Definition clock_strings (h m : Z) : list string :=
  [clock h m; Py.str h +:+ ":" +:+ two_digits m;
   two_digits h +:+ ":" +:+ Py.str m; Py.str h +:+ ":" +:+ Py.str m].

(** [s] is a way of writing the time of day that lies [t] minutes after
    midnight. *)
Definition clock_time (s : string) (t : Z) : Prop :=
  exists h m, 0 <= h < 24 /\ 0 <= m < 60 /\ s ∈ clock_strings h m /\ t = 60 * h + m.

(** All the writings of the minute [hm] of the day are read as [hm]. *)
Definition clock_strings_ok (hm : Z) : bool :=
  forallb (fun s => _parse_time s =? hm) (clock_strings (hm / 60) (hm mod 60)).

(** ** The validator's term order *)

Definition no_summer (sched : Schedule) : Prop :=
  Forall (fun st => semester st ≠ SUMMER) (terms sched).

(** Validation runs to completion (no [KeyError] in [_get_prior_courses])
    exactly on these schedules: no Summer term, or no course at all. *)
Definition validation_completes (sched : Schedule) : Prop :=
  no_summer sched \/ all_courses sched = [].

(** The order of terms in the words of the specification: by year, then
    Fall < IAP < Spring. *)
Definition semester_rank (s : Term) : Z :=
  match s with
  | FALL => 0
  | IAP => 1
  | SPRING => 2
  | SUMMER => 3
  end.

Definition strictly_earlier (st' st : ScheduledTerm) : Prop :=
  year st' < year st
  \/ (year st' = year st /\ semester_rank (semester st') < semester_rank (semester st)).

(** [q] is among the course ids of the terms strictly earlier than [st]. *)
Definition taken_earlier (sched : Schedule) (st : ScheduledTerm) (q : string) : Prop :=
  exists st' sc', st' ∈ terms sched /\ strictly_earlier st' st
                  /\ sc' ∈ courses st' /\ id (course sc') = q.

(** * Concrete inputs

    Small catalogues, profiles, schedules and assignments on which the
    code is run below.  All students are first-year students in Fall, so
    with the default horizon the planned terms are [default_terms]. *)

Definition freshman_fall : StudentProfile :=
  {| sp_id := "s1"; sp_year := 1; sp_semester := FALL; completed_courses := [];
     preferences := ∅; optimization_weights := ∅ |}.

(** The same student, having completed P. *)
Definition freshman_completed_P : StudentProfile :=
  {| sp_id := "s2"; sp_year := 1; sp_semester := FALL;
     completed_courses := ["P"%string];
     preferences := ∅; optimization_weights := ∅ |}.

(** A first-year student in the semester [s]. *)
Definition student_in (s : Term) : StudentProfile :=
  {| sp_id := "s1"; sp_year := 1; sp_semester := s; completed_courses := [];
     preferences := ∅; optimization_weights := ∅ |}.

(** A first-year student in Fall whose own limit is 9 units per term. *)
Definition low_limit_student : StudentProfile :=
  {| sp_id := "s3"; sp_year := 1; sp_semester := FALL; completed_courses := [];
     preferences := {[ "max_units_per_term"%string := 9 ]};
     optimization_weights := ∅ |}.

Definition default_terms : list string :=
  ["2025FA"; "2025SP"; "2026FA"; "2026SP"; "2027FA"]%string.

(** A course with no requirement tags and no rating. *)
Definition plain_course (cid : string) (u : Z) (prereqs : list string) : Course :=
  {| id := cid; units := u; prerequisites := prereqs; meets_requirements := [];
     student_rating := None |}.

Definition catalogue_A : list (string * Course) := [("A", plain_course "A" 12 [])]%string.

Definition catalogue_A48 : list (string * Course) :=
  [("A", plain_course "A" 48 [])]%string.

Definition catalogue_AB : list (string * Course) :=
  [("A", plain_course "A" 12 []); ("B", plain_course "B" 12 [])]%string.

(** P has no prerequisite, C requires P. *)
Definition catalogue_PC : list (string * Course) :=
  [("P", plain_course "P" 12 []); ("C", plain_course "C" 12 ["P"])]%string.

(** Only C is in the catalogue. *)
Definition catalogue_C : list (string * Course) :=
  [("C", plain_course "C" 12 ["P"])]%string.

(** Every term offers A; only the first offers B. *)
Definition offerings_AB : gmap string (list string) :=
  list_to_map [("2025FA", ["A"; "B"]); ("2025SP", ["A"]); ("2026FA", ["A"]);
               ("2026SP", ["A"]); ("2027FA", ["A"])]%string.

(** Only the first term has an offerings entry. *)
Definition offerings_first_only : gmap string (list string) :=
  {[ "2025FA"%string := ["A"%string] ]}.

Definition elective_requirement : Requirement :=
  {| req_id := "free-electives"; description := "Free electives";
     rule_type := ELECTIVE; courses_allowed := None; category := None;
     units_required := None |}.

(** A requirement that allows X, an id that is in none of the catalogues. *)
Definition requirement_A_or_X : Requirement :=
  {| req_id := "core"; description := "A or X";
     rule_type := SPECIFIC_COURSE; courses_allowed := Some ["X"; "A"]%string;
     category := None; units_required := None |}.

(** Assignments. *)
Definition all_taken : Var -> bool := fun _ => true.

Definition none_taken : Var -> bool := fun _ => false.

(** A every term, B in the first term only. *)
Definition A_always_B_first : Var -> bool :=
  fun v => match v with
           | CourseVar c t =>
               bool_decide (c = "A"%string)
               || (bool_decide (c = "B"%string) && bool_decide (t = "2025FA"%string))
           | TakenVar _ => true
           end.

(** P every term, C in the second planned term only. *)
Definition P_always_C_second : Var -> bool :=
  fun v => match v with
           | CourseVar c t =>
               bool_decide (c = "P"%string)
               || (bool_decide (c = "C"%string) && bool_decide (t = "2025SP"%string))
           | TakenVar _ => true
           end.

(** Schedules supplied to the validator directly. *)
Definition one_term_schedule : Schedule :=
  {| student_id := "s1";
     terms := [ {| year := 2025; semester := FALL;
                   courses := [ {| course := plain_course "A" 12 [];
                                   term := "2025FA"; sc_year := 2025;
                                   sc_semester := FALL; meeting_times := [] |} ] |} ] |}.

Definition two_term_schedule : Schedule :=
  {| student_id := "s1";
     terms :=
       [ {| year := 2025; semester := FALL;
            courses := [ {| course := plain_course "P" 12 []; term := "2025FA";
                            sc_year := 2025; sc_semester := FALL;
                            meeting_times := [] |} ] |};
         {| year := 2025; semester := SPRING;
            courses := [ {| course := plain_course "C" 12 ["P"; "Q"];
                            term := "2025SP"; sc_year := 2025;
                            sc_semester := SPRING; meeting_times := [] |} ] |} ] |}.

(** One Summer term holding C, which requires P. *)
Definition summer_schedule : Schedule :=
  {| student_id := "s1";
     terms := [ {| year := 2025; semester := SUMMER;
                   courses := [ {| course := plain_course "C" 12 ["P"];
                                   term := "2025SU"; sc_year := 2025;
                                   sc_semester := SUMMER; meeting_times := [] |} ] |} ] |}.

Definition negative_balance_weight : gmap string Q :=
  {[ "balance_workload"%string := (-1)%Q ]}.

Definition large_balance_weight : gmap string Q :=
  {[ "balance_workload"%string := 3%Q ]}.

(** * Further embedded code

    The remaining accessors of [schemas.py] and the parsing helpers of
    [backend/app/services/mit_api.py], with the auxiliary definitions
    their properties are stated with. *)

(** [Schedule.total_units]. *)
Definition schedule_total_units (s : Schedule) : Z :=
  foldr Z.add 0 (total_units <$> terms s).

(** [Schedule.get_term]: the first term with that year and semester. *)
Fixpoint get_term_loop (ts : list ScheduledTerm) (y : Z) (sem : Term)
  : option ScheduledTerm :=
  match ts with
  | [] => None
  | t :: rest =>
      if bool_decide (year t = y) && bool_decide (semester t = sem) then Some t
      else get_term_loop rest y sem
  end.

Definition get_term (s : Schedule) (y : Z) (sem : Term) : option ScheduledTerm :=
  get_term_loop (terms s) y sem.

(** [ScheduleValidation.has_errors] and [has_warnings]. *)
Definition has_errors (v : ScheduleValidation) : bool :=
  (0 <? length (errors v))%nat.

Definition has_warnings (v : ScheduleValidation) : bool :=
  (0 <? length (warnings v))%nat.

(** [z] prints as fewer than four characters or is not read back: the
    years 0 to 999. *)
Definition short_year (z : Z) : bool :=
  bool_decide (Py.int (Py.str_take 4 (Py.str z +:+ "FA")) = None)
  && bool_decide (Py.int (Py.str_take 4 (Py.str z +:+ "SP")) = None)
  && bool_decide (Py.int (Py.str_take 4 (Py.str z +:+ "IA")) = None).

(** What the extractor emits for slot [k] of the walk under the
    assignment [a]: the scheduled term of that slot when it holds a
    course, nothing otherwise. *)
Definition slot_scheduled_term (a : Var -> bool) (avail : list (string * Course))
    (y0 : Z) (i0 k : nat) : option ScheduledTerm :=
  match courses_in_term a avail.*1 avail (slot_term_id y0 i0 k)
          (2024 + slot_year y0 i0 k) (slot_semester i0 k) with
  | [] => None
  | cs => Some {| year := 2024 + slot_year y0 i0 k; semester := slot_semester i0 k;
                  courses := cs |}
  end.

(** The sum [total_units] of the [UNITS] branch of [_check_requirement]:
    the units of the scheduled ids that are in the course map and carry
    the category, each occurrence counted. *)
Definition earned_units (cat : string) (scheduled_courses : list string)
    (available_courses : list (string * Course)) : Z :=
  foldr Z.add 0
    (scheduled_courses ≫= (fun cid =>
       match dict_get available_courses cid with
       | Some c => if bool_decide (cat ∈ meets_requirements c) then [units c] else []
       | None => []
       end)).

(** Sum of [f] over a list. *)
Definition sumZ {A} (f : A -> Z) (l : list A) : Z := foldr (fun x acc => f x + acc) 0 l.

(** One course carrying the category REST, and a requirement of 24 units
    in that category. *)
Definition catalogue_R : list (string * Course) :=
  [("R", {| id := "R"; units := 12; prerequisites := []; meets_requirements := ["REST"];
            student_rating := None |})]%string.

Definition rest_units_requirement : Requirement :=
  {| req_id := "rest"; description := "24 units of REST";
     rule_type := UNITS; courses_allowed := None; category := Some "REST"%string;
     units_required := Some 24 |}.

(** The number of colons of a string. *)
Fixpoint count_colons (s : string) : nat :=
  match s with
  | EmptyString => 0
  | String c s' => if Ascii.eqb c ":"%char then S (count_colons s') else count_colons s'
  end.

(** ** Day codes ([MITCourseCatalogClient._parse_days], [mit_api.py]) *)

(** [str.upper()], character by character.  Characters are code points
    below 256; among those only the ASCII letters a-z upper-case to an
    ASCII letter, so every other character is left as it is (the
    characters [upper()] rewrites differently are no day codes before or
    after). *)
Definition upper_char (c : ascii) : ascii :=
  let n := nat_of_ascii c in
  if ((97 <=? n)%nat && (n <=? 122)%nat) then ascii_of_nat (n - 32) else c.

Fixpoint upper (s : string) : string :=
  match s with
  | EmptyString => EmptyString
  | String c s' => String (upper_char c) (upper s')
  end.

(** The dictionary [day_map]. *)
Definition day_map (char : ascii) : option DayOfWeek :=
  if Ascii.eqb char "M"%char then Some MONDAY
  else if Ascii.eqb char "T"%char then Some TUESDAY
  else if Ascii.eqb char "W"%char then Some WEDNESDAY
  else if Ascii.eqb char "R"%char then Some THURSDAY
  else if Ascii.eqb char "F"%char then Some FRIDAY
  else None.

(** The loop [for char in ...: if char in day_map: days.append(...)]. *)
Fixpoint parse_days_loop (s : string) : list DayOfWeek :=
  match s with
  | EmptyString => []
  | String char rest =>
      match day_map char with
      | Some day => day :: parse_days_loop rest
      | None => parse_days_loop rest
      end
  end.

Definition _parse_days (days_str : string) : list DayOfWeek :=
  parse_days_loop (upper days_str).

(** The characters of a string, and the code letter of a day. *)
Fixpoint chars (s : string) : list ascii :=
  match s with
  | EmptyString => []
  | String c s' => c :: chars s'
  end.

Definition day_code (d : DayOfWeek) : ascii :=
  match d with
  | MONDAY => "M" | TUESDAY => "T" | WEDNESDAY => "W" | THURSDAY => "R" | FRIDAY => "F"
  end%char.

(** ** Subject data ([MITCourseCatalogClient.parse_meeting_times], [mit_api.py]) *)

(** The values [response.json()] returns; a number is an [int] or a
    [float], an object is given by its items. *)
#[local] Unset Elimination Schemes.

Inductive Json :=
  | JNull
  | JBool (b : bool)
  | JNumber (q : Q)
  | JString (s : string)
  | JArray (items : list Json)
  | JObject (fields : list (string * Json)).

#[local] Set Elimination Schemes.

(** Python truthiness, as [or] tests it. *)
Definition truthy (v : Json) : bool :=
  match v with
  | JNull => false
  | JBool b => b
  | JNumber q => negb (Qeq_bool q 0)
  | JString s => negb (bool_decide (s = EmptyString))
  | JArray items => negb (bool_decide (items = []))
  | JObject fields => negb (bool_decide (fields = []))
  end.

(** [subject_data.get("meetings", []) or []]. *)
Definition meetings_of (subject_data : list (string * Json)) : Json :=
  match dict_get subject_data "meetings" with
  | Some v => if truthy v then v else JArray []
  | None => JArray []
  end.

(** What [for meeting in meetings] iterates over: the items of a list,
    the characters of a string, the keys of a dict; [None] is the
    [TypeError] of a value that is not iterable. *)
Definition iterate (v : Json) : option (list Json) :=
  match v with
  | JArray items => Some items
  | JString s => Some ((fun c => JString (String c EmptyString)) <$> chars s)
  | JObject fields => Some (JString <$> fields.*1)
  | _ => None
  end.

(** Validation of a [str] and of an [Optional[str]] field by the
    [MeetingTime] constructor; [None] is its [ValidationError]. *)
Definition str_field (v : Json) : option string :=
  match v with
  | JString s => Some s
  | _ => None
  end.

Definition optional_str_field (v : Json) : option (option string) :=
  match v with
  | JNull => Some None
  | JString s => Some (Some s)
  | _ => None
  end.

(** The body of the loop for one meeting: [None] is an exception
    ([AttributeError] of [.get] or [.upper], [ValidationError]),
    [Some None] a meeting skipped for having no day, [Some (Some mt)] a
    meeting appended. *)
Definition meeting_step (meeting : Json) : option (option MeetingTime) :=
  match meeting with
  | JObject fields =>
      match default (JString EmptyString) (dict_get fields "days") with
      | JString days_str =>
          match _parse_days days_str with
          | [] => Some None
          | days =>
              start ← str_field (default (JString EmptyString)
                                   (dict_get fields "start_time"));
              end_ ← str_field (default (JString EmptyString)
                                  (dict_get fields "end_time"));
              loc ← optional_str_field (default JNull (dict_get fields "location"));
              Some (Some {| days := days; start_time := start; end_time := end_;
                            location := loc |})
          end
      | _ => None
      end
  | _ => None
  end.

(** The loop; an exception ends it and what was appended so far is
    returned. *)
Fixpoint meetings_loop (meetings : list Json) : list MeetingTime :=
  match meetings with
  | [] => []
  | meeting :: rest =>
      match meeting_step meeting with
      | Some (Some mt) => mt :: meetings_loop rest
      | Some None => meetings_loop rest
      | None => []
      end
  end.

Definition parse_meeting_times (subject_data : list (string * Json)) : list MeetingTime :=
  match iterate (meetings_of subject_data) with
  | Some meetings => meetings_loop meetings
  | None => []
  end.

(** A meeting as the API documents it: an object whose days, start_time
    and end_time are strings, when present, and whose location is a string
    or null, when present. *)
Definition well_formed_meeting (meeting : Json) : Prop :=
  exists fields,
    meeting = JObject fields
    /\ (exists s, default (JString EmptyString) (dict_get fields "days") = JString s)
    /\ (exists s, default (JString EmptyString) (dict_get fields "start_time") = JString s)
    /\ (exists s, default (JString EmptyString) (dict_get fields "end_time") = JString s)
    /\ is_Some (optional_str_field (default JNull (dict_get fields "location"))).

(** * Proofs *)

(** ** Meeting-time conflicts *)

Section Conflicts.

Lemma shares_day_spec (l1 l2 : list DayOfWeek) :
  existsb (fun day => bool_decide (day ∈ l2)) l1 = true
  <-> exists d, d ∈ l1 /\ d ∈ l2.
Proof.
  rewrite existsb_exists. split.
  - intros (d & Hd & Hb). exists d. split.
    + by apply list_elem_of_In.
    + by apply bool_decide_eq_true in Hb.
  - intros (d & H1 & H2). exists d. split.
    + by apply list_elem_of_In.
    + by apply bool_decide_eq_true.
Qed.

Lemma shares_day_sym (l1 l2 : list DayOfWeek) :
  existsb (fun day => bool_decide (day ∈ l2)) l1
  = existsb (fun day => bool_decide (day ∈ l1)) l2.
Proof.
  apply eq_true_iff_eq. rewrite !shares_day_spec.
  split; intros (d & H1 & H2); exists d; done.
Qed.

Lemma conflicts_with_sym (m1 m2 : MeetingTime) :
  conflicts_with m1 m2 = conflicts_with m2 m1.
Proof.
  unfold conflicts_with. rewrite (shares_day_sym (days m1) (days m2)).
  destruct (existsb _ (days m2)); simpl; [apply andb_comm | done].
Qed.

Lemma conflicts_with_disjoint (m1 m2 : MeetingTime) :
  (forall d, d ∈ days m1 -> d ∉ days m2) -> conflicts_with m1 m2 = false.
Proof.
  intros Hdis. unfold conflicts_with.
  destruct (existsb _ (days m1)) eqn:E; [|done].
  apply shares_day_spec in E as (d & H1 & H2). by destruct (Hdis d H1).
Qed.

Lemma conflicts_with_shared (m1 m2 : MeetingTime) (d : DayOfWeek) :
  d ∈ days m1 -> d ∈ days m2 ->
  conflicts_with m1 m2 = true
  <-> _parse_time (start_time m1) < _parse_time (end_time m2)
      /\ _parse_time (start_time m2) < _parse_time (end_time m1).
Proof.
  intros H1 H2. unfold conflicts_with.
  assert (existsb (fun day => bool_decide (day ∈ days m2)) (days m1) = true) as ->
    by (apply shares_day_spec; eauto).
  simpl. rewrite andb_true_iff, !Z.ltb_lt. done.
Qed.

(** Every clock time of the day, in each of its writings, is read as its
    number of minutes since midnight (checked on all 1440 of them). *)
Lemma clock_strings_all : forallb clock_strings_ok (seqZ 0 1440) = true.
Proof. vm_compute. reflexivity. Qed.

Lemma clock_strings_parse (h m : Z) (s : string) :
  0 <= h < 24 -> 0 <= m < 60 -> s ∈ clock_strings h m -> _parse_time s = 60 * h + m.
Proof.
  intros Hh Hm Hs. pose proof clock_strings_all as Hall.
  rewrite forallb_forall in Hall.
  assert (clock_strings_ok (60 * h + m) = true) as Hok.
  { apply Hall, list_elem_of_In, elem_of_seqZ. lia. }
  unfold clock_strings_ok in Hok.
  replace ((60 * h + m) / 60) with h in Hok
    by (apply (Z.div_unique_pos _ 60 h m); lia).
  replace ((60 * h + m) mod 60) with m in Hok
    by (apply (Z.mod_unique_pos _ 60 h m); lia).
  rewrite forallb_forall in Hok. apply Z.eqb_eq, Hok. by apply list_elem_of_In.
Qed.

Lemma clock_time_parse (s : string) (t : Z) : clock_time s t -> _parse_time s = t.
Proof. intros (h & m & Hh & Hm & Hs & ->). by apply clock_strings_parse. Qed.

End Conflicts.

(** C6. [MeetingTime.conflicts_with] is symmetric; it is false when the two
    day lists have no day in common; when they share a day it is true
    exactly when start1 < end2 and start2 < end1, the four times being
    read as minutes since midnight: for meetings whose times are clock
    times of a day (hours and minutes, each with or without a leading
    zero), that is exactly when the half-open intervals of minutes
    overlap; meetings 9:00-10:00 and 9:30-10:30 on a common day conflict,
    9:00-10:00 and 10:00-11:00 do not, and no two meetings where one ends
    when the other starts conflict. *)
Theorem conflicts_with_half_open :
  (forall m1 m2, conflicts_with m1 m2 = conflicts_with m2 m1)
  /\ (forall m1 m2, (forall d, d ∈ days m1 -> d ∉ days m2) ->
        conflicts_with m1 m2 = false)
  /\ (forall m1 m2 d start1 end1 start2 end2,
        d ∈ days m1 -> d ∈ days m2 ->
        clock_time (start_time m1) start1 -> clock_time (end_time m1) end1 ->
        clock_time (start_time m2) start2 -> clock_time (end_time m2) end2 ->
        (conflicts_with m1 m2 = true <-> start1 < end2 /\ start2 < end1)
        /\ (end1 = start2 -> conflicts_with m1 m2 = false))
  /\ (forall m1 m2 d, d ∈ days m1 -> d ∈ days m2 ->
        (conflicts_with m1 m2 = true
         <-> _parse_time (start_time m1) < _parse_time (end_time m2)
             /\ _parse_time (start_time m2) < _parse_time (end_time m1)))
  /\ (forall ds1 ds2 loc1 loc2 d, d ∈ ds1 -> d ∈ ds2 ->
        conflicts_with
          {| days := ds1; start_time := "9:00"; end_time := "10:00"; location := loc1 |}
          {| days := ds2; start_time := "9:30"; end_time := "10:30"; location := loc2 |}
        = true
        /\ conflicts_with
          {| days := ds1; start_time := "9:00"; end_time := "10:00"; location := loc1 |}
          {| days := ds2; start_time := "10:00"; end_time := "11:00"; location := loc2 |}
        = false)
  /\ (forall m1 m2, _parse_time (end_time m1) = _parse_time (start_time m2) ->
        conflicts_with m1 m2 = false /\ conflicts_with m2 m1 = false).
Proof.
  split; [exact conflicts_with_sym|].
  split; [exact conflicts_with_disjoint|].
  split.
  { intros m1 m2 d start1 end1 start2 end2 H1 H2 Hs1 He1 Hs2 He2.
    apply clock_time_parse in Hs1, He1, Hs2, He2.
    pose proof (conflicts_with_shared m1 m2 d H1 H2) as Hiff.
    rewrite Hs1, He1, Hs2, He2 in Hiff. split; [exact Hiff|].
    intros ->. apply not_true_is_false. rewrite Hiff. lia. }
  split; [exact conflicts_with_shared|].
  split.
  - intros ds1 ds2 loc1 loc2 d H1 H2. split.
    + eapply conflicts_with_shared; simpl; eauto. by vm_compute.
    + apply not_true_is_false. intros Hc.
      eapply conflicts_with_shared in Hc; simpl; eauto.
      vm_compute in Hc. by destruct Hc as [_ Hc].
  - intros m1 m2 Heq.
    assert (conflicts_with m1 m2 = false) as H.
    { unfold conflicts_with. destruct (negb _); [done|]. simpl.
      rewrite Heq, Z.ltb_irrefl. apply andb_false_r. }
    split; [done|]. by rewrite conflicts_with_sym.
Qed.

(** ** Term planner *)

Section Planner.

Lemma mod3_cases (n : nat) : (n mod 3 = 0 \/ n mod 3 = 1 \/ n mod 3 = 2)%nat.
Proof. pose proof (Nat.mod_upper_bound n 3). lia. Qed.

Lemma semester_order_lt (s : Term) (i : nat) :
  semester_order s = Some i -> (i < 3)%nat /\ nth i semesters FALL = s.
Proof. destruct s; intros [= <-]; simpl; split; (lia || done). Qed.

Lemma slot_semester_next (i0 k : nat) :
  slot_semester i0 (S k) = next_semester (slot_semester i0 k).
Proof.
  unfold slot_semester.
  replace (i0 + S k)%nat with (S (i0 + k)) by lia.
  assert ((S (i0 + k)) mod 3 = (((i0 + k) mod 3) + 1) mod 3)%nat as ->.
  { replace (S (i0 + k)) with ((i0 + k) + 1)%nat by lia.
    by rewrite Nat.Div0.add_mod_idemp_l. }
  destruct (mod3_cases (i0 + k)) as [-> | [-> | ->]]; done.
Qed.

Lemma slot_year_next (y0 : Z) (i0 k : nat) :
  slot_year y0 i0 (S k)
  = if bool_decide (slot_semester i0 (S k) = FALL)
    then slot_year y0 i0 k + 1 else slot_year y0 i0 k.
Proof.
  unfold slot_year, slot_semester.
  replace (i0 + S k)%nat with (S (i0 + k)) by lia.
  set (n := (i0 + k)%nat).
  pose proof (Nat.div_mod_eq n 3). pose proof (Nat.div_mod_eq (S n) 3).
  pose proof (Nat.mod_upper_bound n 3). pose proof (Nat.mod_upper_bound (S n) 3).
  destruct (mod3_cases (S n)) as [E | [E | E]]; rewrite E;
    case_bool_decide as Hb; try (by vm_compute in Hb);
    try (exfalso; apply Hb; reflexivity); lia.
Qed.

(** The loop invariant of [_generate_terms] after [k] iterations. *)
Lemma planner_iter (y0 : Z) (i0 k : nat) :
  (i0 < 3)%nat ->
  Nat.iter k planner_step {| ps_terms := []; ps_year := y0; ps_idx := i0 |}
  = {| ps_terms := walk_terms y0 i0 k;
       ps_year := slot_year y0 i0 k;
       ps_idx := (i0 + k) mod 3 |}.
Proof.
  intros Hi. induction k as [|k IH].
  - unfold walk_terms, planned_slots, slot_year.
    rewrite Nat.add_0_r, Nat.div_small, Nat.mod_small by lia.
    cbn. f_equal. lia.
  - rewrite Nat.iter_succ, IH. unfold planner_step. cbn [ps_idx ps_year ps_terms].
    f_equal.
    + unfold walk_terms, planned_slots. rewrite seq_S, filter_app, fmap_app.
      rewrite Nat.add_0_l. fold (slot_semester i0 k). 
      rewrite filter_cons, filter_nil.
      destruct (decide (slot_semester i0 k ≠ IAP)) as [Hne | He].
      * rewrite bool_decide_eq_true_2 by done. rewrite fmap_cons, fmap_nil. unfold slot_term_id.
        do 3 f_equal. unfold slot_semester.
        destruct (mod3_cases (i0 + k)) as [-> | [-> | ->]]; done.
      * rewrite bool_decide_eq_false_2 by done. by rewrite fmap_nil, app_nil_r.
    + rewrite slot_year_next. unfold slot_semester.
      replace (i0 + S k)%nat with (i0 + k + 1)%nat by lia.
      rewrite <- (Nat.Div0.add_mod_idemp_l (i0 + k) 1 3).
      destruct (mod3_cases (i0 + k)) as [-> | [-> | ->]]; done.
    + replace (i0 + S k)%nat with (i0 + k + 1)%nat by lia.
      by rewrite Nat.Div0.add_mod_idemp_l.
Qed.

Lemma generate_terms_eq (settings : Settings) (p : StudentProfile) (i0 : nat) :
  semester_order (sp_semester p) = Some i0 ->
  _generate_terms settings p
  = Some (walk_terms (sp_year p) i0 (Z.to_nat (SOLVER_MAX_TERMS settings))).
Proof.
  intros Ho. unfold _generate_terms. rewrite Ho. simpl.
  rewrite planner_iter; [done|]. by apply semester_order_lt in Ho as [? _].
Qed.

Lemma planned_slots_length (i0 n : nat) :
  (length (planned_slots i0 n)
   + length (filter (fun k => slot_semester i0 k = IAP) (seq 0 n)) = n)%nat.
Proof.
  unfold planned_slots. induction n as [|n IH]; [done|].
  rewrite seq_S, !filter_app, !length_app. simpl.
  rewrite !filter_cons, !filter_nil.
  destruct (decide (slot_semester i0 n = IAP)) as [E|E].
  - rewrite decide_False by naive_solver. simpl. lia.
  - rewrite decide_True by done. simpl. lia.
Qed.

Lemma generate_terms_summer (settings : Settings) (p : StudentProfile) :
  sp_semester p = SUMMER -> _generate_terms settings p = None.
Proof. intros E. unfold _generate_terms. by rewrite E. Qed.

End Planner.

(** X25. For a student whose semester is Fall, IAP or Spring,
    [_generate_terms] walks the cycle Fall, IAP, Spring from the student's
    semester (slot 0 is the current one, each slot is followed by the next
    semester of the cycle, and the year grows by one exactly when the walk
    wraps to Fall); it consumes exactly SOLVER_MAX_TERMS slots and returns
    the term ids of the Fall and Spring slots only.  So the list is
    shorter than the horizon as soon as one slot is IAP, and with a
    horizon of 8 it has 5 or 6 terms. *)
Theorem generate_terms_walk (settings : Settings) (p : StudentProfile) (i0 : nat) :
  semester_order (sp_semester p) = Some i0 ->
  let n := Z.to_nat (SOLVER_MAX_TERMS settings) in
  let out := walk_terms (sp_year p) i0 n in
  _generate_terms settings p = Some out
  /\ slot_semester i0 0 = sp_semester p
  /\ slot_year (sp_year p) i0 0 = sp_year p
  /\ (forall k, slot_semester i0 (S k) = next_semester (slot_semester i0 k))
  /\ (forall k, slot_year (sp_year p) i0 (S k)
                = if bool_decide (slot_semester i0 (S k) = FALL)
                  then slot_year (sp_year p) i0 k + 1
                  else slot_year (sp_year p) i0 k)
  /\ (forall k, k ∈ planned_slots i0 n
                <-> (k < n)%nat /\ (slot_semester i0 k = FALL \/ slot_semester i0 k = SPRING))
  /\ (length out
      + length (filter (fun k => slot_semester i0 k = IAP) (seq 0 n)) = n)%nat
  /\ ((exists k, (k < n)%nat /\ slot_semester i0 k = IAP) -> (length out < n)%nat)
  /\ (SOLVER_MAX_TERMS settings = 8 -> length out = 5%nat \/ length out = 6%nat).
Proof.
  intros Ho n out. pose proof (semester_order_lt _ _ Ho) as [Hi Hs].
  split; [by apply generate_terms_eq|].
  split. { unfold slot_semester. by rewrite Nat.add_0_r, Nat.mod_small. }
  split. { unfold slot_year. rewrite Nat.add_0_r, Nat.div_small by done. lia. }
  split; [apply slot_semester_next|].
  split; [apply slot_year_next|].
  assert (length out = length (planned_slots i0 n)) as Hlen
    by (unfold out, walk_terms; apply length_fmap).
  split.
  { intros k. unfold planned_slots. rewrite list_elem_of_filter, elem_of_seq.
    unfold slot_semester.
    destruct (mod3_cases (i0 + k)) as [-> | [-> | ->]]; simpl;
      intuition (lia || congruence || auto). }
  split; [rewrite Hlen; apply planned_slots_length|].
  split.
  { intros (k & Hk & Hiap). rewrite Hlen.
    pose proof (planned_slots_length i0 n) as Hsum.
    assert (k ∈ filter (fun k => slot_semester i0 k = IAP) (seq 0 n)) as Hin.
    { apply list_elem_of_filter. split; [done|]. apply elem_of_seq. lia. }
    apply list_elem_of_lookup in Hin as [j Hj]. apply lookup_lt_Some in Hj. lia. }
  intros H8. rewrite Hlen. unfold n. rewrite H8.
  assert (i0 = 0 \/ i0 = 1 \/ i0 = 2)%nat as [-> | [-> | ->]] by lia;
    vm_compute; auto.
Qed.

(** A first-year student in Fall with the default horizon: five planned
    terms out of eight slots. *)
Lemma generate_terms_walk_witness :
  _generate_terms default_settings freshman_fall
  = Some ["2025FA"; "2025SP"; "2026FA"; "2026SP"; "2027FA"]%string
  /\ (length (walk_terms 1 0 8) < 8)%nat.
Proof.
  pose proof (generate_terms_walk default_settings freshman_fall 0 eq_refl)
    as (H1 & _ & _ & _ & _ & _ & _ & H2 & _).
  split; [exact H1|].
  apply H2. exists 1%nat. split; [simpl; lia | reflexivity].
Defined.

(** C7. The first-year student in each of the four semesters, default
    horizon of 8 slots.  From Fall, IAP and Spring [_generate_terms] walks
    the cycle and returns 5, 5 and 6 term ids; from Summer it returns
    nothing: the dictionary [semester_order] has no SUMMER key and the
    lookup raises [KeyError]. *)
Theorem generate_terms_summer_student :
  _generate_terms default_settings (student_in SUMMER) = None
  /\ _generate_terms default_settings (student_in FALL)
     = Some ["2025FA"; "2025SP"; "2026FA"; "2026SP"; "2027FA"]%string
  /\ _generate_terms default_settings (student_in IAP)
     = Some ["2025SP"; "2026FA"; "2026SP"; "2027FA"; "2027SP"]%string
  /\ _generate_terms default_settings (student_in SPRING)
     = Some ["2025SP"; "2026FA"; "2026SP"; "2027FA"; "2027SP"; "2028FA"]%string.
Proof. repeat split; vm_compute; reflexivity. Qed.

(** ** The constraint model: what the builder adds *)

Section Model.

Lemma satisfies_elem (a : Var -> bool) (m : CpModel) (c : Constraint) :
  satisfies a m = true -> c ∈ constraints m -> holds a c = true.
Proof.
  unfold satisfies. rewrite forallb_forall. intros H Hc.
  apply H. by apply list_elem_of_In.
Qed.

Lemma Add_extends (c : Constraint) (m : CpModel) :
  constraints m ⊆ constraints (Add c m).
Proof. intros x Hx. simpl. apply elem_of_app. by left. Qed.

Lemma Add_elem (c : Constraint) (m : CpModel) : c ∈ constraints (Add c m).
Proof. simpl. apply elem_of_app. right. by apply list_elem_of_singleton. Qed.

Lemma foldl_extends {A} (f : CpModel -> A -> CpModel) (l : list A) (m : CpModel) :
  (forall m x, constraints m ⊆ constraints (f m x)) ->
  constraints m ⊆ constraints (foldl f m l).
Proof.
  intros Hf. revert m. induction l as [|x l IH]; intros m; simpl; [done|].
  etrans; [apply (Hf m x) | apply IH].
Qed.

Lemma foldl_adds {A} (f : CpModel -> A -> CpModel) (l : list A) (m : CpModel)
    (x : A) (c : Constraint) :
  (forall m x, constraints m ⊆ constraints (f m x)) ->
  x ∈ l -> (forall m, c ∈ constraints (f m x)) ->
  c ∈ constraints (foldl f m l).
Proof.
  intros Hf Hx Hc. revert m. induction l as [|y l IH]; intros m.
  - by apply elem_of_nil in Hx.
  - simpl. apply elem_of_cons in Hx as [<- | Hx].
    + by apply (foldl_extends f l _ Hf).
    + by apply IH.
Qed.

(** Semantics of the three shapes of constraint the builder emits. *)
Lemma holds_forbid (a : Var -> bool) (c t : string) :
  holds a (forbid c t) = true -> a (CourseVar c t) = false.
Proof.
  unfold holds, forbid, eval, value. simpl.
  destruct (a (CourseVar c t)); [|done]. intros H. by apply Z.eqb_eq in H.
Qed.

Lemma eval_sum_over_terms_pos (a : Var -> bool) (c : string) (ts : list string) :
  1 <= eval a (sum_over_terms c ts) -> exists t, t ∈ ts /\ a (CourseVar c t) = true.
Proof.
  induction ts as [|t ts IH]; unfold eval; simpl; [lia|].
  unfold value at 1. destruct (a (CourseVar c t)) eqn:E.
  - intros _. exists t. split; [left | done].
  - intros H. destruct IH as (t' & Hin & Ht'); [unfold eval; lia|].
    exists t'. split; [by right | done].
Qed.

Lemma holds_precedence (a : Var -> bool) (c p t : string) (earlier : list string) :
  holds a {| c_lhs := sum_over_terms p earlier; c_rel := Ge; c_rhs := 1;
             c_only_enforce_if := Some (CourseVar c t) |} = true ->
  a (CourseVar c t) = true ->
  exists t', t' ∈ earlier /\ a (CourseVar p t') = true.
Proof.
  unfold holds. simpl. intros H Ha. rewrite Ha in H. simpl in H.
  apply eval_sum_over_terms_pos. by apply Z.leb_le.
Qed.

(** Every builder step only adds constraints. *)
Lemma taken_loop_extends (cv terms allowed : list string)
    (st : list Var * CpModel) :
  constraints st.2 ⊆ constraints (foldl (taken_step cv terms) st allowed).2.
Proof.
  revert st. induction allowed as [|x l IH]; intros st; simpl; [done|].
  etrans; [|apply IH]. unfold taken_step. case_bool_decide; [|done].
  simpl. apply Add_extends.
Qed.

Lemma requirement_step_extends (cv terms : list string)
    (avail : list (string * Course)) (m : CpModel) (req : Requirement) :
  constraints m ⊆ constraints (requirement_step cv terms avail m req).
Proof.
  unfold requirement_step. destruct (rule_type req); try done.
  - destruct (truthy_list _); [|done].
    pose proof (taken_loop_extends cv terms (default [] (courses_allowed req)) ([], m)) as H.
    destruct (foldl _ _ _) as [vars m1]. simpl in H.
    destruct vars; [done|]. etrans; [exact H | apply Add_extends].
  - destruct (_ && _); [|done].
    destruct (category_units _ _ _ _); [done | apply Add_extends].
Qed.

Lemma prereq_precedence_extends (c p : string) (earlier rest : list string)
    (m : CpModel) :
  constraints m ⊆ constraints (prereq_precedence c p earlier rest m).
Proof.
  revert earlier m. induction rest as [|t rest IH]; intros earlier m; simpl; [done|].
  etrans; [|apply IH]. destruct (sum_over_terms p earlier); [done | apply Add_extends].
Qed.

Lemma prereq_step_extends (cv terms completed : list string) (c : string)
    (m : CpModel) (p : string) :
  constraints m ⊆ constraints (prereq_step cv terms completed c m p).
Proof.
  unfold prereq_step. case_bool_decide; [done|]. case_bool_decide.
  - apply foldl_extends. intros. apply Add_extends.
  - apply prereq_precedence_extends.
Qed.

Lemma add_prerequisite_extends (cv : list string) (avail : list (string * Course))
    (terms completed : list string) (m : CpModel) :
  constraints m ⊆ constraints (_add_prerequisite_constraints cv avail terms completed m).
Proof.
  apply foldl_extends. intros m' kc. case_bool_decide; [done|].
  apply foldl_extends. apply prereq_step_extends.
Qed.

Lemma offering_inner_extends (off : gmap string (list string)) (c : string)
    (m : CpModel) (t : string) :
  constraints m
  ⊆ constraints (match off !! t with
                 | Some offered =>
                     if bool_decide (c ∉ offered) then Add (forbid c t) m else m
                 | None => m
                 end).
Proof.
  destruct (off !! t); [|done]. case_bool_decide; [apply Add_extends | done].
Qed.

Lemma add_offering_extends (cv : list string) (off : gmap string (list string))
    (terms : list string) (m : CpModel) :
  constraints m ⊆ constraints (_add_offering_constraints cv off terms m).
Proof.
  apply foldl_extends. intros m' c. apply foldl_extends. intros m'' t.
  apply offering_inner_extends.
Qed.

Lemma unit_step_extends (settings : Settings) (cv : list string)
    (avail : list (string * Course)) (p : StudentProfile) (m : CpModel) (t : string) :
  constraints m
  ⊆ constraints (match term_units cv avail t with
                 | [] => m
                 | e => Add {| c_lhs := e; c_rel := Ge; c_rhs := 12;
                               c_only_enforce_if := None |}
                          (Add {| c_lhs := e; c_rel := Le;
                                  c_rhs := max_units_of settings p;
                                  c_only_enforce_if := None |} m)
                 end).
Proof.
  destruct (term_units cv avail t); [done|].
  etrans; [apply Add_extends | apply Add_extends].
Qed.

Lemma add_objective_constraints (cv : list string) (avail : list (string * Course))
    (terms : list string) (prefs : gmap string Q) (m : CpModel) :
  constraints (_add_objective cv avail terms prefs m) = constraints m.
Proof. unfold _add_objective. by destruct (_ ≫= _). Qed.

(** What each group contributes. *)
Lemma add_offering_elem (cv : list string) (off : gmap string (list string))
    (terms : list string) (m : CpModel) (c t : string) (offered : list string) :
  c ∈ cv -> t ∈ terms -> off !! t = Some offered -> c ∉ offered ->
  forbid c t ∈ constraints (_add_offering_constraints cv off terms m).
Proof.
  intros Hc Ht Hoff Hno. unfold _add_offering_constraints.
  eapply foldl_adds; [| exact Hc |].
  - intros m' c'. apply foldl_extends. intros. apply offering_inner_extends.
  - intros m'. eapply foldl_adds; [| exact Ht |].
    + intros. apply offering_inner_extends.
    + intros m''. rewrite Hoff, bool_decide_eq_true_2 by done. apply Add_elem.
Qed.

Lemma add_unit_elem (settings : Settings) (cv : list string)
    (avail : list (string * Course)) (terms : list string) (p : StudentProfile)
    (m : CpModel) (t : string) :
  t ∈ terms -> term_units cv avail t ≠ [] ->
  let m' := _add_unit_constraints settings cv avail terms p m in
  {| c_lhs := term_units cv avail t; c_rel := Le; c_rhs := max_units_of settings p;
     c_only_enforce_if := None |} ∈ constraints m'
  /\ {| c_lhs := term_units cv avail t; c_rel := Ge; c_rhs := 12;
        c_only_enforce_if := None |} ∈ constraints m'.
Proof.
  intros Ht Hne. simpl. unfold _add_unit_constraints.
  split; (eapply foldl_adds; [| exact Ht |];
          [intros; apply unit_step_extends |]); intros m';
    destruct (term_units cv avail t) eqn:E; try done.
  - apply Add_extends, Add_elem.
  - apply Add_elem.
Qed.

Lemma prereq_precedence_elem (c p : string) (earlier pre post : list string)
    (t : string) (m : CpModel) :
  earlier ++ pre ≠ [] ->
  {| c_lhs := sum_over_terms p (earlier ++ pre); c_rel := Ge; c_rhs := 1;
     c_only_enforce_if := Some (CourseVar c t) |}
  ∈ constraints (prereq_precedence c p earlier (pre ++ t :: post) m).
Proof.
  revert earlier m. induction pre as [|x pre IH]; intros earlier m Hne.
  - rewrite app_nil_r in *. simpl.
    apply prereq_precedence_extends.
    destruct (sum_over_terms p earlier) eqn:E.
    + destruct earlier; [done | discriminate E].
    + rewrite <- E. apply Add_elem.
  - simpl. replace (earlier ++ x :: pre) with ((earlier ++ [x]) ++ pre)
      by (by rewrite <- app_assoc).
    apply IH. rewrite <- app_assoc. simpl. by destruct earlier.
Qed.

Lemma add_prerequisite_elem_precedence (avail : list (string * Course))
    (pre post completed : list string) (t : string) (m : CpModel)
    (k : string) (crs : Course) (p : string) :
  (k, crs) ∈ avail -> p ∈ prerequisites crs -> p ∉ completed ->
  p ∈ avail.*1 -> pre ≠ [] ->
  {| c_lhs := sum_over_terms p pre; c_rel := Ge; c_rhs := 1;
     c_only_enforce_if := Some (CourseVar k t) |}
  ∈ constraints (_add_prerequisite_constraints avail.*1 avail
                   (pre ++ t :: post) completed m).
Proof.
  intros Hk Hp Hnc Hpv Hpre. unfold _add_prerequisite_constraints.
  eapply foldl_adds; [| exact Hk |].
  - intros m' kc. case_bool_decide; [done|].
    apply foldl_extends. apply prereq_step_extends.
  - intros m'. simpl. rewrite bool_decide_eq_false_2.
    2: { intros Hn. apply Hn. apply list_elem_of_fmap. by exists (k, crs). }
    eapply foldl_adds; [apply prereq_step_extends | exact Hp |].
    intros m''. unfold prereq_step.
    rewrite (bool_decide_eq_false_2 (p ∈ completed)) by done.
    rewrite bool_decide_eq_false_2 by (intros Hn; by apply Hn).
    by apply (prereq_precedence_elem k p [] pre post t m'').
Qed.

Lemma add_prerequisite_elem_forbid (avail : list (string * Course))
    (terms completed : list string) (t : string) (m : CpModel)
    (k : string) (crs : Course) (p : string) :
  (k, crs) ∈ avail -> p ∈ prerequisites crs -> p ∉ completed ->
  p ∉ avail.*1 -> t ∈ terms ->
  forbid k t
  ∈ constraints (_add_prerequisite_constraints avail.*1 avail terms completed m).
Proof.
  intros Hk Hp Hnc Hpv Ht. unfold _add_prerequisite_constraints.
  eapply foldl_adds; [| exact Hk |].
  - intros m' kc. case_bool_decide; [done|].
    apply foldl_extends. apply prereq_step_extends.
  - intros m'. simpl. rewrite bool_decide_eq_false_2.
    2: { intros Hn. apply Hn. apply list_elem_of_fmap. by exists (k, crs). }
    eapply foldl_adds; [apply prereq_step_extends | exact Hp |].
    intros m''. unfold prereq_step.
    rewrite (bool_decide_eq_false_2 (p ∈ completed)) by done.
    rewrite bool_decide_eq_true_2 by done.
    eapply foldl_adds; [intros; apply Add_extends | exact Ht |].
    intros. apply Add_elem.
Qed.

End Model.

(** ** Term identifiers of the planned terms *)

Section TermIds.

Lemma str_take_app (s c : string) : Py.str_take (String.length s) (s +:+ c) = s.
Proof. induction s as [|x s IH]; simpl; [by destruct c | by rewrite IH]. Qed.

Lemma str_drop_app (s c : string) : Py.str_drop (String.length s) (s +:+ c) = c.
Proof. induction s as [|x s IH]; simpl; [by destruct c | done]. Qed.

Lemma four_digits_range : forallb four_digits (seqZ 1000 9000) = true.
Proof. vm_compute. reflexivity. Qed.

Lemma four_digits_ok (z : Z) :
  1000 <= z <= 9999 ->
  String.length (Py.str z) = 4%nat /\ Py.int (Py.str z) = Some z.
Proof.
  intros Hz. pose proof four_digits_range as H.
  rewrite forallb_forall in H. specialize (H z).
  unfold four_digits in H. rewrite andb_true_iff, !bool_decide_eq_true in H.
  apply H. apply list_elem_of_In, elem_of_seqZ. lia.
Qed.

Lemma semester_of_code_codes (s : Term) :
  s ≠ SUMMER -> semester_of_code (semester_codes s) = Some s.
Proof. by destruct s. Qed.

Lemma parse_term_id_str (y : Z) (s : Term) :
  1000 <= y <= 9999 -> s ≠ SUMMER ->
  parse_term_id (Py.str y +:+ semester_codes s) = Some (y, s).
Proof.
  intros Hy Hs. destruct (four_digits_ok y Hy) as [Hlen Hint].
  unfold parse_term_id.
  replace (Py.str_take 4 (Py.str y +:+ semester_codes s)) with (Py.str y)
    by (by rewrite <- Hlen, str_take_app).
  replace (Py.str_drop 4 (Py.str y +:+ semester_codes s)) with (semester_codes s)
    by (by rewrite <- Hlen, str_drop_app).
  rewrite Hint, semester_of_code_codes by done. done.
Qed.

Lemma parse_term_id_not_summer (t : string) (y : Z) (s : Term) :
  parse_term_id t = Some (y, s) -> s ≠ SUMMER.
Proof.
  unfold parse_term_id. destruct (Py.int _); [simpl|done].
  unfold semester_of_code. repeat case_bool_decide; simpl; congruence.
Qed.

Lemma seq_strongly_sorted (s n : nat) : StronglySorted lt (seq s n).
Proof.
  revert s. induction n as [|n IH]; intros s; simpl; constructor; [apply IH|].
  apply Forall_forall. intros x Hx. apply elem_of_seq in Hx. lia.
Qed.

Lemma filter_strongly_sorted {A} (R : relation A) (P : A -> Prop)
    `{forall x, Decision (P x)} (l : list A) :
  StronglySorted R l -> StronglySorted R (filter P l).
Proof.
  induction 1 as [|x l Hl IH Hx]; [constructor|].
  rewrite filter_cons. case_decide; [|done].
  constructor; [done|]. apply Forall_forall. intros y Hy.
  apply list_elem_of_filter in Hy as [_ Hy].
  rewrite Forall_forall in Hx. by apply Hx.
Qed.

Lemma planned_slots_split (i0 n : nat) (pre post : list nat) (k : nat) :
  planned_slots i0 n = pre ++ k :: post ->
  (k < n)%nat /\ slot_semester i0 k ≠ IAP
  /\ forall k', k' ∈ pre -> (k' < k)%nat /\ slot_semester i0 k' ≠ IAP.
Proof.
  intros E.
  assert (forall x, x ∈ pre ++ k :: post -> (x < n)%nat /\ slot_semester i0 x ≠ IAP) as Hall.
  { intros x Hx. rewrite <- E in Hx. unfold planned_slots in Hx.
    apply list_elem_of_filter in Hx as [? Hx]. apply elem_of_seq in Hx. split; [lia|done]. }
  assert (StronglySorted lt (pre ++ k :: post)) as Hs.
  { rewrite <- E. apply filter_strongly_sorted, seq_strongly_sorted. }
  destruct (Hall k) as [? ?]; [apply elem_of_app; right; left|].
  repeat split; try done.
  - eapply (StronglySorted_app_1_elem_of _ pre (k :: post)); [done | done | left].
  - apply Hall, elem_of_app. by left.
Qed.

Lemma slot_semester_order (i0 k : nat) :
  semester_order (slot_semester i0 k) = Some ((i0 + k) mod 3)%nat.
Proof.
  unfold slot_semester.
  destruct (mod3_cases (i0 + k)) as [-> | [-> | ->]]; done.
Qed.

Lemma slot_key_lt (y0 : Z) (i0 k' k : nat) :
  (k' < k)%nat ->
  tuple_lt (2024 + slot_year y0 i0 k', ((i0 + k') mod 3)%nat)
           (2024 + slot_year y0 i0 k, ((i0 + k) mod 3)%nat) = true.
Proof.
  intros Hlt. unfold tuple_lt, slot_year. cbn [fst snd].
  pose proof (Nat.div_mod_eq (i0 + k') 3). pose proof (Nat.div_mod_eq (i0 + k) 3).
  pose proof (Nat.mod_upper_bound (i0 + k') 3). pose proof (Nat.mod_upper_bound (i0 + k) 3).
  apply orb_true_iff.
  destruct (decide ((i0 + k') / 3 = (i0 + k) / 3)%nat) as [E|E].
  - right. rewrite E. apply andb_true_iff. split; [lia|]. apply Nat.ltb_lt. lia.
  - left. apply Z.ltb_lt.
    assert (((i0 + k') / 3 <= (i0 + k) / 3)%nat) by (apply Nat.Div0.div_le_mono; lia).
    lia.
Qed.

Lemma str_length_app (s c : string) :
  String.length (s +:+ c) = (String.length s + String.length c)%nat.
Proof.
  induction s as [|x s IH]; [done|].
  change (S (String.length (s +:+ c)) = S (String.length s + String.length c)).
  by rewrite IH.
Qed.

Lemma str_app_inj (s1 s2 c1 c2 : string) :
  String.length c1 = String.length c2 -> s1 +:+ c1 = s2 +:+ c2 -> s1 = s2 /\ c1 = c2.
Proof.
  intros Hlen. revert s2. induction s1 as [|x s1 IH]; intros [|y s2] H.
  - done.
  - exfalso. apply (f_equal String.length) in H.
    rewrite !str_length_app in H. simpl in H. lia.
  - exfalso. apply (f_equal String.length) in H.
    rewrite !str_length_app in H. simpl in H. lia.
  - change (String x (s1 +:+ c1) = String y (s2 +:+ c2)) in H.
    injection H as -> H. destruct (IH _ H) as [-> ->]. done.
Qed.

Lemma slot_term_id_inj (y0 : Z) (i0 k k' : nat) :
  slot_term_id y0 i0 k = slot_term_id y0 i0 k' -> k = k'.
Proof.
  unfold slot_term_id. intros H.
  apply str_app_inj in H as [Hy Hs].
  2: { by destruct (slot_semester i0 k), (slot_semester i0 k'). }
  unfold Py.str in Hy. apply (inj pretty) in Hy.
  assert (slot_semester i0 k = slot_semester i0 k') as Hsem
    by (by destruct (slot_semester i0 k), (slot_semester i0 k')).
  pose proof (slot_semester_order i0 k) as Ho. rewrite Hsem, slot_semester_order in Ho.
  assert ((i0 + k') mod 3 = (i0 + k) mod 3)%nat as Hmod by congruence.
  clear Ho. unfold slot_year in Hy.
  pose proof (Nat.div_mod_eq (i0 + k) 3). pose proof (Nat.div_mod_eq (i0 + k') 3).
  lia.
Qed.

(** The planned terms are pairwise distinct, so [course_vars[c]] has one
    entry per element of the list. *)
Lemma generated_terms_NoDup (settings : Settings) (p : StudentProfile)
    (planned : list string) :
  _generate_terms settings p = Some planned -> NoDup planned.
Proof.
  intros Hgen.
  destruct (semester_order (sp_semester p)) as [i0|] eqn:Eo;
    [|by unfold _generate_terms in Hgen; rewrite Eo in Hgen].
  rewrite (generate_terms_eq settings p i0 Eo) in Hgen. injection Hgen as <-.
  unfold walk_terms. apply NoDup_fmap_2_strong.
  - intros k k' _ _. apply slot_term_id_inj.
  - unfold planned_slots. apply NoDup_filter, NoDup_seq.
Qed.

End TermIds.

(** ** Generated schedules: offerings and unit loads *)

Section Extraction.

Context (a : Var -> bool) (avail : list (string * Course)).

Lemma key_in_course_vars (k : string) (c : Course) :
  (k, c) ∈ avail -> k ∈ avail.*1.
Proof. intros H. apply list_elem_of_fmap. by exists (k, c). Qed.

Lemma courses_in_term_elem (cv : list string) (tid : string) (y : Z) (s : Term)
    (sc : ScheduledCourse) :
  sc ∈ courses_in_term a cv avail tid y s
  <-> exists k c, (k, c) ∈ avail /\ k ∈ cv /\ a (CourseVar k tid) = true
                  /\ sc = {| course := c; term := tid; sc_year := y;
                             sc_semester := s; meeting_times := [] |}.
Proof.
  unfold courses_in_term. rewrite list_elem_of_bind. split.
  - intros ([k c] & Hsc & Hin). simpl in Hsc.
    destruct (bool_decide (k ∈ cv)) eqn:E1; simpl in Hsc; [|by apply elem_of_nil in Hsc].
    destruct (a (CourseVar k tid)) eqn:E2; [|by apply elem_of_nil in Hsc].
    apply list_elem_of_singleton in Hsc. exists k, c.
    by apply bool_decide_eq_true in E1.
  - intros (k & c & Hin & Hk & Ha & ->). exists (k, c). split; [|done]. simpl.
    rewrite bool_decide_eq_true_2, Ha by done. by apply list_elem_of_singleton.
Qed.

Lemma eval_term_units_gen (cv : list string) (l : list (string * Course)) (t : string) :
  (forall kc, kc ∈ l -> kc.1 ∈ cv) ->
  eval a (term_units cv l t) = unit_load a l t.
Proof.
  unfold term_units, unit_load.
  induction l as [|kc l IH]; intros Hl; [done|].
  rewrite bind_cons, fmap_cons. simpl foldr.
  rewrite bool_decide_eq_true_2 by (apply Hl; left).
  rewrite <- IH by (intros; apply Hl; by right).
  unfold eval. simpl. lia.
Qed.

Lemma eval_term_units (t : string) :
  eval a (term_units avail.*1 avail t) = unit_load a avail t.
Proof.
  apply eval_term_units_gen. intros [k c] Hin. by apply key_in_course_vars in Hin.
Qed.

Lemma total_units_extracted_gen (cv : list string) (l : list (string * Course))
    (tid : string) (y : Z) (s : Term) :
  (forall kc, kc ∈ l -> kc.1 ∈ cv) ->
  total_units {| year := y; semester := s;
                 courses := courses_in_term a cv l tid y s |}
  = unit_load a l tid.
Proof.
  unfold total_units, unit_load, courses_in_term. simpl.
  induction l as [|kc l IH]; intros Hl; [done|].
  rewrite bind_cons, fmap_app, foldr_app, fmap_cons. simpl foldr at 3.
  rewrite <- IH by (intros; apply Hl; by right).
  rewrite bool_decide_eq_true_2 by (apply Hl; left).
  unfold value. simpl. destruct (a (CourseVar kc.1 tid)); simpl; [lia|done].
Qed.

Lemma total_units_extracted (tid : string) (y : Z) (s : Term) :
  total_units {| year := y; semester := s;
                 courses := courses_in_term a avail.*1 avail tid y s |}
  = unit_load a avail tid.
Proof.
  apply total_units_extracted_gen. intros [k c] Hin. by apply key_in_course_vars in Hin.
Qed.

Lemma term_units_nonempty (t : string) : avail ≠ [] -> term_units avail.*1 avail t ≠ [].
Proof.
  destruct avail as [|[k c] l] eqn:E; [done|]. intros _. unfold term_units.
  rewrite bind_cons. simpl. rewrite bool_decide_eq_true_2 by left. done.
Qed.

Lemma extract_terms_elem (cv terms : list string) (sts : list ScheduledTerm)
    (st : ScheduledTerm) :
  extract_terms a cv avail terms = Some sts ->
  st ∈ sts
  <-> exists tid y s, tid ∈ terms /\ parse_term_id tid = Some (y, s)
        /\ courses_in_term a cv avail tid y s ≠ []
        /\ st = {| year := y; semester := s;
                   courses := courses_in_term a cv avail tid y s |}.
Proof.
  revert sts. induction terms as [|t terms IH]; intros sts; simpl.
  - intros [= <-]. split; [by intros ?%elem_of_nil|].
    by intros (? & ? & ? & ?%elem_of_nil & _).
  - destruct (parse_term_id t) as [[y s]|] eqn:Ep; [simpl|done].
    destruct (extract_terms a cv avail terms) as [rest|] eqn:Er; [simpl|done].
    specialize (IH rest eq_refl).
    destruct (courses_in_term a cv avail t y s) as [|c0 cs] eqn:Ec; intros [= <-].
    + rewrite IH. split.
      * intros (tid & y' & s' & Hin & Hp & Hne & ->).
        exists tid, y', s'. split; [by right|done].
      * intros (tid & y' & s' & Hin & Hp & Hne & ->).
        apply elem_of_cons in Hin as [-> | Hin].
        -- rewrite Ep in Hp. injection Hp as <- <-. by rewrite Ec in Hne.
        -- by exists tid, y', s'.
    + rewrite elem_of_cons, IH. split.
      * intros [-> | (tid & y' & s' & Hin & Hp & Hne & ->)].
        -- exists t, y, s. rewrite Ec. repeat split; [left | done | done].
        -- exists tid, y', s'. split; [by right|done].
      * intros (tid & y' & s' & Hin & Hp & Hne & ->).
        apply elem_of_cons in Hin as [-> | Hin].
        -- left. rewrite Ep in Hp. injection Hp as <- <-. by rewrite Ec.
        -- right. by exists tid, y', s'.
Qed.

End Extraction.

Section Generated.

Context (Solve : CpModel -> option (Var -> bool)) (Solve_sound : engine_sound Solve).
Context (settings : Settings) (p : StudentProfile) (reqs : list Requirement)
        (avail : list (string * Course)) (off : gmap string (list string))
        (prefs : option (gmap string Q)).

(** A successful [solve] went through every stage. *)
Lemma solve_inv (log : list LogMessage) (sched : Schedule) (score : Q) :
  solve Solve settings p reqs avail off prefs = (log, Some (Some sched, score)) ->
  exists terms a,
    _generate_terms settings p = Some terms
    /\ satisfies a (build_model settings p reqs avail off (preferences_or prefs p) terms)
       = true
    /\ _extract_schedule a avail.*1 avail terms p = Some sched
    /\ log = [StartingGeneration (sp_id p); SolvingCSP; SolutionFound].
Proof.
  unfold solve. destruct (_generate_terms settings p) as [terms|]; [|done].
  destruct (Solve _) as [a|] eqn:Es; [|done].
  destruct (_extract_schedule _ _ _ _ _) as [s|] eqn:Ex; [|done].
  intros [= <- <- <-]. exists terms, a. repeat split; try done.
  by apply Solve_sound.
Qed.

Lemma solve_no_solution (terms : list string) :
  _generate_terms settings p = Some terms ->
  (forall a, satisfies a (build_model settings p reqs avail off
                            (preferences_or prefs p) terms) = false) ->
  solve Solve settings p reqs avail off prefs
  = ([StartingGeneration (sp_id p); SolvingCSP; NoSolutionFound], Some (None, 0%Q)).
Proof.
  intros Ht Hno. unfold solve. rewrite Ht.
  destruct (Solve _) as [a|] eqn:Es; [|done].
  apply Solve_sound in Es. by rewrite Hno in Es.
Qed.

Lemma schedule_terms_inv (a : Var -> bool) (planned : list string) (sched : Schedule)
    (st : ScheduledTerm) :
  _extract_schedule a avail.*1 avail planned p = Some sched ->
  st ∈ terms sched ->
  exists tid y s, tid ∈ planned /\ parse_term_id tid = Some (y, s)
    /\ courses_in_term a avail.*1 avail tid y s ≠ []
    /\ st = {| year := y; semester := s;
               courses := courses_in_term a avail.*1 avail tid y s |}.
Proof.
  unfold _extract_schedule.
  destruct (extract_terms a avail.*1 avail planned) as [sts|] eqn:E; [|done].
  intros [= <-]. simpl. by apply extract_terms_elem.
Qed.

End Generated.

Section BuiltModel.

Context (settings : Settings) (p : StudentProfile) (reqs : list Requirement)
        (avail : list (string * Course)) (off : gmap string (list string))
        (prefs : gmap string Q) (terms : list string).

Let m := build_model settings p reqs avail off prefs terms.

Lemma build_model_forbids_unoffered (a : Var -> bool) (c t : string)
    (offered : list string) :
  c ∈ avail.*1 -> t ∈ terms -> off !! t = Some offered -> c ∉ offered ->
  satisfies a m = true -> a (CourseVar c t) = false.
Proof.
  intros Hc Ht Hoff Hno Hsat. apply holds_forbid.
  apply (satisfies_elem a m); [done|].
  unfold m, build_model. rewrite add_objective_constraints.
  apply foldl_extends; [intros; apply unit_step_extends|].
  by eapply add_offering_elem.
Qed.

Lemma build_model_unit_bounds (a : Var -> bool) (t : string) :
  avail ≠ [] -> t ∈ terms -> satisfies a m = true ->
  12 <= unit_load a avail t <= max_units_of settings p.
Proof.
  intros Hne Ht Hsat.
  pose proof (term_units_nonempty avail t Hne) as Hu.
  destruct (add_unit_elem settings avail.*1 avail terms p
              (_add_offering_constraints avail.*1 off terms
                 (_add_prerequisite_constraints avail.*1 avail terms
                    (completed_courses p)
                    (_add_requirement_constraints avail.*1 reqs avail terms new_model)))
              t Ht Hu) as [Hle Hge].
  assert (forall c, c ∈ constraints (_add_unit_constraints settings avail.*1 avail terms p
              (_add_offering_constraints avail.*1 off terms
                 (_add_prerequisite_constraints avail.*1 avail terms
                    (completed_courses p)
                    (_add_requirement_constraints avail.*1 reqs avail terms new_model))))
            -> holds a c = true) as Hall.
  { intros c Hc. apply (satisfies_elem a m); [done|].
    unfold m, build_model. by rewrite add_objective_constraints. }
  apply Hall in Hle, Hge. unfold holds in Hle, Hge. simpl in Hle, Hge.
  rewrite eval_term_units in Hle, Hge. lia.
Qed.

Lemma build_model_precedence (a : Var -> bool) (pre post : list string) (t : string)
    (k : string) (crs : Course) (q : string) :
  terms = pre ++ t :: post -> pre ≠ [] ->
  (k, crs) ∈ avail -> q ∈ prerequisites crs -> q ∉ completed_courses p ->
  satisfies a m = true -> a (CourseVar k t) = true ->
  q ∈ avail.*1 /\ exists t', t' ∈ pre /\ a (CourseVar q t') = true.
Proof.
  intros Hsplit Hpre Hk Hq Hnc Hsat Ha.
  assert (forall c, c ∈ constraints (_add_prerequisite_constraints avail.*1 avail terms
                    (completed_courses p)
                    (_add_requirement_constraints avail.*1 reqs avail terms new_model))
            -> holds a c = true) as Hall.
  { intros c Hc. apply (satisfies_elem a m); [done|].
    unfold m, build_model. rewrite add_objective_constraints.
    apply foldl_extends; [intros; apply unit_step_extends|].
    by apply add_offering_extends. }
  destruct (decide (q ∈ avail.*1)) as [Hin | Hnin].
  - split; [done|]. eapply holds_precedence; [|exact Ha].
    apply Hall. rewrite Hsplit. by eapply add_prerequisite_elem_precedence.
  - exfalso. assert (a (CourseVar k t) = false) as Hf; [|congruence].
    apply holds_forbid, Hall.
    eapply add_prerequisite_elem_forbid; try done.
    rewrite Hsplit. apply elem_of_app. right. left.
Qed.

End BuiltModel.

(** The concrete engine honours the contract. *)
Lemma candidate_engine_sound (a : Var -> bool) : engine_sound (candidate_engine a).
Proof.
  intros m a'. unfold candidate_engine. destruct (satisfies a m) eqn:E; [|done].
  by intros [= <-].
Qed.

(** C2 (amended). For a planned term that has an entry in the offerings
    map, the built model forces assigned[c][t] = 0 for every course c the
    entry does not list; consequently every course of a generated schedule
    is listed in the offerings entry of the term it is scheduled in,
    whenever that term has an entry. *)
Theorem offering_availability (Solve : CpModel -> option (Var -> bool))
    (settings : Settings) (p : StudentProfile) (reqs : list Requirement)
    (avail : list (string * Course)) (off : gmap string (list string))
    (prefs : option (gmap string Q)) :
  engine_sound Solve -> keys_are_ids avail ->
  (forall planned c t offered a,
      _generate_terms settings p = Some planned ->
      c ∈ avail.*1 -> t ∈ planned -> off !! t = Some offered -> c ∉ offered ->
      satisfies a (build_model settings p reqs avail off (preferences_or prefs p) planned)
      = true ->
      a (CourseVar c t) = false)
  /\ (forall log sched score st sc offered,
        solve Solve settings p reqs avail off prefs = (log, Some (Some sched, score)) ->
        st ∈ terms sched -> sc ∈ courses st -> off !! term sc = Some offered ->
        id (course sc) ∈ offered).
Proof.
  intros Hsound Hids. split.
  - intros planned c t offered a _ Hc Ht Hoff Hno Hsat.
    by eapply build_model_forbids_unoffered.
  - intros log sched score st sc offered Hsolve Hst Hsc Hoff.
    apply (solve_inv Solve Hsound) in Hsolve as (planned & a & Hgen & Hsat & Hex & _).
    destruct (schedule_terms_inv _ _ _ _ _ _ Hex Hst) as (tid & y & s & Htid & Hp & _ & ->).
    simpl in Hsc. apply courses_in_term_elem in Hsc as (k & c & Hk & Hkv & Ha & ->).
    simpl in *. rewrite (Hids k c Hk).
    destruct (decide (k ∈ offered)) as [|Hno]; [done|].
    rewrite (build_model_forbids_unoffered settings p reqs avail off
               (preferences_or prefs p) planned a k tid offered) in Ha; done.
Qed.

(** B is offered in the first term only: an assignment that satisfies the
    model does not take B in 2025SP. *)
Lemma offering_availability_witness :
  satisfies A_always_B_first
    (build_model default_settings freshman_fall [] catalogue_AB offerings_AB
       (preferences_or None freshman_fall) default_terms) = true
  /\ A_always_B_first (CourseVar "B" "2025SP") = false.
Proof.
  assert (satisfies A_always_B_first
    (build_model default_settings freshman_fall [] catalogue_AB offerings_AB
       (preferences_or None freshman_fall) default_terms) = true) as Hsat
    by (vm_compute; reflexivity).
  split; [exact Hsat|].
  refine (proj1 (offering_availability (candidate_engine A_always_B_first)
            default_settings freshman_fall [] catalogue_AB offerings_AB None
            (candidate_engine_sound _) _)
          default_terms "B"%string "2025SP"%string ["A"%string] A_always_B_first
          _ _ _ _ _ Hsat).
  - by apply (bool_decide_unpack _).
  - reflexivity.
  - by apply (bool_decide_unpack _).
  - by apply (bool_decide_unpack _).
  - reflexivity.
  - by apply (bool_decide_unpack _).
Defined.

(** The offerings map has an entry for 2025FA only.  A is not listed for
    2025SP, yet every satisfying assignment takes A in 2025SP, and the
    generated schedule holds A there. *)
Lemma counterexample_offering_without_entry :
  let m := build_model default_settings freshman_fall [] catalogue_A
             offerings_first_only (preferences_or None freshman_fall) default_terms in
  _generate_terms default_settings freshman_fall = Some default_terms
  /\ "A"%string ∈ catalogue_A.*1
  /\ "2025SP"%string ∈ default_terms
  /\ ~ (exists offered, offerings_first_only !! "2025SP"%string = Some offered
                        /\ "A"%string ∈ offered)
  /\ satisfies all_taken m = true
  /\ (forall a, satisfies a m = true -> a (CourseVar "A" "2025SP") = true)
  /\ exists log sched score,
       solve (candidate_engine all_taken) default_settings freshman_fall []
         catalogue_A offerings_first_only None = (log, Some (Some sched, score))
       /\ scheduled_in sched "A" "2025SP" = true.
Proof.
  cbv zeta. split; [reflexivity|].
  split; [by apply (bool_decide_unpack _)|].
  split; [by apply (bool_decide_unpack _)|].
  split; [by intros (offered & [=] & _)|].
  split; [vm_compute; reflexivity|].
  split.
  - intros a Hsat.
    pose proof (build_model_unit_bounds default_settings freshman_fall [] catalogue_A
                  offerings_first_only (preferences_or None freshman_fall)
                  default_terms a "2025SP"%string) as Hb.
    unfold unit_load, value in Hb. simpl in Hb.
    destruct (a (CourseVar "A" "2025SP")); [done|].
    exfalso. assert (12 <= 0 <= 60); [|lia].
    apply Hb; [done | by apply (bool_decide_unpack _) | done].
  - eexists _, _, _. split; [vm_compute; reflexivity | vm_compute; reflexivity].
Qed.

(** C3 (amended). With a non-empty course map, every satisfying assignment
    of the built model has, for every planned term,
    12 <= sum of assigned[c][t] * units(c) <= max_units, where max_units is
    the student's max_units_per_term preference if present and the
    configured default otherwise.  Every term of a generated schedule
    satisfies these bounds (whatever the course map), and when no
    assignment satisfies the model [solve] returns no schedule: whenever
    it returns, it returns no-solution with score 0. *)
Theorem unit_load_bounds (Solve : CpModel -> option (Var -> bool))
    (settings : Settings) (p : StudentProfile) (reqs : list Requirement)
    (avail : list (string * Course)) (off : gmap string (list string))
    (prefs : option (gmap string Q)) (planned : list string) :
  engine_sound Solve ->
  _generate_terms settings p = Some planned ->
  let m := build_model settings p reqs avail off (preferences_or prefs p) planned in
  let max_units :=
    match preferences p !! "max_units_per_term"%string with
    | Some v => v
    | None => DEFAULT_MAX_UNITS_PER_TERM settings
    end in
  (forall a t, avail ≠ [] -> t ∈ planned -> satisfies a m = true ->
               12 <= unit_load a avail t <= max_units)
  /\ (forall log sched score st,
        solve Solve settings p reqs avail off prefs = (log, Some (Some sched, score)) ->
        st ∈ terms sched -> 12 <= total_units st <= max_units)
  /\ ((forall a, satisfies a m = false) ->
      forall log result,
        solve Solve settings p reqs avail off prefs = (log, Some result) ->
        result = (None, 0%Q)
        /\ log = [StartingGeneration (sp_id p); SolvingCSP; NoSolutionFound]).
Proof.
  intros Hsound Hgen m max_units.
  assert (max_units = max_units_of settings p) as -> by done.
  split; [|split].
  - intros a t Hne Ht Hsat. by eapply build_model_unit_bounds.
  - intros log sched score st Hsolve Hst.
    apply (solve_inv Solve Hsound) in Hsolve as (terms' & a & Hgen' & Hsat & Hex & _).
    rewrite Hgen in Hgen'. injection Hgen' as <-.
    destruct (schedule_terms_inv _ _ _ _ _ _ Hex Hst) as (tid & y & s & Htid & Hp & Hne & ->).
    rewrite total_units_extracted.
    eapply build_model_unit_bounds; [|exact Htid|exact Hsat].
    intros ->. by apply Hne.
  - intros Hno log result Hsolve.
    rewrite (solve_no_solution Solve Hsound _ _ _ _ _ _ planned Hgen Hno) in Hsolve.
    by injection Hsolve as <- <-.
Qed.

(** A and B in the first term: 24 units, within the bounds. *)
Lemma unit_load_bounds_witness :
  12 <= unit_load A_always_B_first catalogue_AB "2025FA" <= 60.
Proof.
  refine (proj1 (unit_load_bounds (candidate_engine A_always_B_first)
            default_settings freshman_fall [] catalogue_AB offerings_AB None
            default_terms (candidate_engine_sound _) eq_refl)
          A_always_B_first "2025FA"%string _ _ _).
  - done.
  - by apply (bool_decide_unpack _).
  - vm_compute; reflexivity.
Defined.

(** With an empty course map the built model is satisfied by the
    assignment that takes nothing, whose unit load is 0 in 2025FA. *)
Lemma counterexample_empty_catalogue :
  let m := build_model default_settings freshman_fall [] [] ∅
             (preferences_or None freshman_fall) default_terms in
  _generate_terms default_settings freshman_fall = Some default_terms
  /\ "2025FA"%string ∈ default_terms
  /\ satisfies none_taken m = true
  /\ unit_load none_taken [] "2025FA" = 0
  /\ ~ (12 <= unit_load none_taken [] "2025FA" <= 60).
Proof.
  cbv zeta. split; [reflexivity|].
  split; [by apply (bool_decide_unpack _)|].
  split; [vm_compute; reflexivity|].
  split; [reflexivity|]. unfold unit_load. simpl. lia.
Qed.

(** ** The validator's prerequisite check *)

Section Validator.

Lemma mapM_join_elem {A B} (f : A -> option (list B)) (l : list A)
    (k : list (list B)) (y : B) :
  mapM f l = Some k ->
  y ∈ mjoin k <-> exists x ys, x ∈ l /\ f x = Some ys /\ y ∈ ys.
Proof.
  intros Hm. apply mapM_Some in Hm. rewrite list_elem_of_join. split.
  - intros (ys & Hy & Hys). apply list_elem_of_lookup in Hys as [i Hi].
    destruct (Forall2_lookup_r _ _ _ _ _ Hm Hi) as (x & Hx & Hfx).
    exists x, ys. split; [|done]. apply list_elem_of_lookup. by exists i.
  - intros (x & ys & Hx & Hfx & Hy). apply list_elem_of_lookup in Hx as [i Hi].
    destruct (Forall2_lookup_l _ _ _ _ _ Hm Hi) as (ys' & Hys' & Hfx').
    rewrite Hfx in Hfx'. injection Hfx' as <-.
    exists ys. split; [done|]. apply list_elem_of_lookup. by exists i.
Qed.

Lemma semester_order_is_Some (s : Term) : s ≠ SUMMER -> is_Some (semester_order s).
Proof. destruct s; intros H; by eauto. Qed.

Lemma prior_loop_is_Some (target : Z * nat) (ts : list ScheduledTerm) :
  Forall (fun st => semester st ≠ SUMMER) ts -> is_Some (prior_loop target ts).
Proof.
  induction 1 as [|st ts Hs _ IH]; simpl; [by eauto|].
  destruct (semester_order_is_Some _ Hs) as [o ->]. destruct IH as [pr ->].
  simpl. by eauto.
Qed.

Lemma prior_loop_elem (target : Z * nat) (ts : list ScheduledTerm)
    (prior : list string) (x : string) :
  prior_loop target ts = Some prior ->
  x ∈ prior
  <-> exists st o sc, st ∈ ts /\ semester_order (semester st) = Some o
        /\ tuple_lt (year st, o) target = true
        /\ sc ∈ courses st /\ id (course sc) = x.
Proof.
  revert prior. induction ts as [|st ts IH]; intros prior; simpl.
  - intros [= <-]. split; [by intros ?%elem_of_nil|].
    by intros (? & ? & ? & ?%elem_of_nil & _).
  - destruct (semester_order (semester st)) as [o|] eqn:Eo; [simpl|done].
    destruct (prior_loop target ts) as [pr|]; [simpl|done].
    specialize (IH pr eq_refl). intros [= <-].
    destruct (tuple_lt (year st, o) target) eqn:Elt.
    + rewrite elem_of_app, IH, list_elem_of_fmap. split.
      * intros [(sc & -> & Hsc) | (st' & o' & sc & Hin & ?)].
        -- exists st, o, sc. repeat split; try done. left.
        -- exists st', o', sc. split; [by right|done].
      * intros (st' & o' & sc & Hin & Ho' & Hlt & Hsc & <-).
        apply elem_of_cons in Hin as [-> | Hin].
        -- left. by exists sc.
        -- right. by exists st', o', sc.
    + rewrite IH. split.
      * intros (st' & o' & sc & Hin & ?). exists st', o', sc. split; [by right|done].
      * intros (st' & o' & sc & Hin & Ho' & Hlt & Hsc & <-).
        apply elem_of_cons in Hin as [-> | Hin].
        -- rewrite Eo in Ho'. injection Ho' as <-. congruence.
        -- by exists st', o', sc.
Qed.

Lemma get_prior_courses_is_Some (sched : Schedule) (st : ScheduledTerm) :
  no_summer sched -> st ∈ terms sched ->
  is_Some (_get_prior_courses sched (year st) (semester st)).
Proof.
  intros Hns Hst. unfold _get_prior_courses.
  unfold no_summer in Hns. pose proof Hns as Hall. rewrite Forall_forall in Hall.
  destruct (semester_order_is_Some _ (Hall st Hst)) as [o ->]. simpl.
  by apply prior_loop_is_Some.
Qed.

Lemma prereq_errors_is_Some (sched : Schedule) :
  no_summer sched -> is_Some (prereq_errors sched).
Proof.
  intros Hns. unfold prereq_errors. apply fmap_is_Some, mapM_is_Some, Forall_forall.
  intros st Hst. simpl. unfold prereq_errors_term.
  apply fmap_is_Some, mapM_is_Some, Forall_forall. intros sc Hsc. simpl.
  unfold prereq_errors_course.
  destruct (get_prior_courses_is_Some sched st Hns Hst) as [pr ->]. simpl. by eauto.
Qed.

Lemma prereq_errors_elem (sched : Schedule) (errs : list ErrorMessage)
    (e : ErrorMessage) :
  prereq_errors sched = Some errs ->
  e ∈ errs
  <-> exists st sc prior q,
        st ∈ terms sched /\ sc ∈ courses st
        /\ _get_prior_courses sched (year st) (semester st) = Some prior
        /\ q ∈ prerequisites (course sc) /\ (q ∉ prior)
        /\ e = PrerequisiteNotSatisfied q (id (course sc)) (term_id st).
Proof.
  unfold prereq_errors. intros H. apply fmap_Some in H as (k & Hk & ->).
  rewrite (mapM_join_elem _ _ _ _ Hk). split.
  - intros (st & es & Hst & Hes & He). unfold prereq_errors_term in Hes.
    apply fmap_Some in Hes as (k' & Hk' & ->).
    apply (mapM_join_elem _ _ _ _ Hk') in He as (sc & es' & Hsc & Hes' & He).
    unfold prereq_errors_course in Hes'.
    destruct (_get_prior_courses sched (year st) (semester st)) as [prior|] eqn:Ep;
      [simpl in Hes'|done].
    injection Hes' as <-. apply list_elem_of_fmap in He as (q & -> & Hq).
    apply list_elem_of_filter in Hq as [Hnq Hq].
    by exists st, sc, prior, q.
  - intros (st & sc & prior & q & Hst & Hsc & Hp & Hq & Hnq & ->).
    apply list_elem_of_lookup in Hst as [i Hi].
    apply mapM_Some in Hk.
    destruct (Forall2_lookup_l _ _ _ _ _ Hk Hi) as (es & Hes & Hf).
    exists st, es. split; [apply list_elem_of_lookup; by exists i|]. split; [done|].
    unfold prereq_errors_term in Hf. apply fmap_Some in Hf as (k' & Hk' & ->).
    apply (mapM_join_elem _ _ _ _ Hk'). exists sc. eexists. split; [done|].
    unfold prereq_errors_course. rewrite Hp. simpl. split; [done|].
    apply list_elem_of_fmap. exists q. split; [done|].
    by apply list_elem_of_filter.
Qed.

(** Courses without meeting times never conflict. *)
Lemma has_conflicts_list_no_meetings (cs : list ScheduledCourse) :
  Forall (fun sc => meeting_times sc = []) cs -> has_conflicts_list cs = [].
Proof.
  induction 1 as [|sc cs Hsc _ IH]; [done|]. simpl. rewrite IH, app_nil_r.
  assert (filter (fun course2 => has_time_conflict sc course2 = true) cs = []) as ->; [|done].
  clear IH. induction cs as [|sc2 cs IH]; [done|].
  rewrite filter_cons, IH. rewrite decide_False; [done|].
  unfold has_time_conflict. rewrite Hsc. simpl. by destruct (negb _).
Qed.

End Validator.

Section Completion.

Lemma all_courses_nil (sched : Schedule) :
  all_courses sched = [] <-> forall st, st ∈ terms sched -> courses st = [].
Proof.
  unfold all_courses. induction (terms sched) as [|st ts IH]; simpl.
  - split; [by intros _ ? ?%elem_of_nil | done].
  - split.
    + intros H. apply app_eq_nil in H as [H1 H2]. apply fmap_nil_inv in H1.
      intros st' [-> | Hin]%elem_of_cons; [done|]. by apply IH.
    + intros H. rewrite (H st) by left. simpl. apply IH. intros. apply H. by right.
Qed.

Lemma prereq_errors_term_no_courses (sched : Schedule) (st : ScheduledTerm) :
  courses st = [] -> prereq_errors_term sched st = Some [].
Proof. intros H. unfold prereq_errors_term. by rewrite H. Qed.

Lemma prereq_errors_no_courses (sched : Schedule) :
  all_courses sched = [] -> prereq_errors sched = Some [].
Proof.
  rewrite all_courses_nil. unfold prereq_errors. intros H.
  assert (mapM (prereq_errors_term sched) (terms sched)
          = Some ((fun _ => []) <$> terms sched)) as ->.
  { induction (terms sched) as [|st ts IH]; [done|].
    change (mapM (prereq_errors_term sched) (st :: ts))
      with (y ← prereq_errors_term sched st;
            k ← mapM (prereq_errors_term sched) ts; mret (y :: k)).
    rewrite prereq_errors_term_no_courses by (apply H; left).
    rewrite IH by (intros; apply H; by right). done. }
  simpl. f_equal. clear H. induction (terms sched) as [|st ts IH]; [done|]. simpl. exact IH.
Qed.

Lemma prior_loop_summer (target : Z * nat) (ts : list ScheduledTerm) (st : ScheduledTerm) :
  st ∈ ts -> semester st = SUMMER -> prior_loop target ts = None.
Proof.
  intros Hin Hs. induction ts as [|x ts IH]; [by apply elem_of_nil in Hin|].
  simpl. apply elem_of_cons in Hin as [<- | Hin].
  - by rewrite Hs.
  - rewrite (IH Hin). by destruct (semester_order (semester x)).
Qed.

Lemma mapM_None_elem {A B} (f : A -> option B) (l : list A) (x : A) :
  x ∈ l -> f x = None -> mapM f l = None.
Proof.
  intros Hin Hf. destruct (mapM f l) as [k|] eqn:E; [|done].
  apply mapM_Some in E. apply list_elem_of_lookup in Hin as [i Hi].
  destruct (Forall2_lookup_l _ _ _ _ _ E Hi) as (y & _ & Hy). congruence.
Qed.

Lemma validation_completes_iff (sched : Schedule) :
  is_Some (prereq_errors sched) <-> validation_completes sched.
Proof.
  split.
  - intros Hsome.
    destruct (decide (Forall (fun st => semester st ≠ SUMMER) (terms sched))) as [|Hex];
      [by left|].
    right. apply all_courses_nil. intros st Hst.
    destruct (courses st) as [|sc cs] eqn:Ec; [done|]. exfalso.
    apply not_Forall_Exists in Hex; [|apply _].
    apply Exists_exists in Hex as (ss & Hss & Hsum).
    assert (semester ss = SUMMER) as Hsummer by (by destruct (decide (semester ss = SUMMER))).
    assert (prereq_errors sched = None) as Hn; [|rewrite Hn in Hsome; by destruct Hsome].
    unfold prereq_errors.
    rewrite (mapM_None_elem (prereq_errors_term sched) (terms sched) st); [done|done|].
    unfold prereq_errors_term.
    rewrite (mapM_None_elem (prereq_errors_course sched st) (courses st) sc);
      [done | rewrite Ec; left |].
    unfold prereq_errors_course, _get_prior_courses.
    destruct (semester_order (semester st)); [simpl|done].
    by rewrite (prior_loop_summer _ _ ss Hss Hsummer).
  - intros [Hns | Hnil].
    + by apply prereq_errors_is_Some.
    + rewrite (prereq_errors_no_courses sched Hnil). by eauto.
Qed.

End Completion.


Section PrerequisiteCheck.

Lemma tuple_lt_strictly_earlier (st' st : ScheduledTerm) (o' o : nat) :
  semester_order (semester st') = Some o' -> semester_order (semester st) = Some o ->
  tuple_lt (year st', o') (year st, o) = true <-> strictly_earlier st' st.
Proof.
  intros Ho' Ho. unfold tuple_lt, strictly_earlier. cbn [fst snd].
  rewrite orb_true_iff, andb_true_iff, Z.ltb_lt, Z.eqb_eq, Nat.ltb_lt.
  assert (semester_rank (semester st') = Z.of_nat o') as ->
    by (destruct (semester st'); simpl in Ho'; try discriminate; by injection Ho' as <-).
  assert (semester_rank (semester st) = Z.of_nat o) as ->
    by (destruct (semester st); simpl in Ho; try discriminate; by injection Ho as <-).
  lia.
Qed.


Lemma validate_errors (settings : Settings) (sched : Schedule)
    (reqs : list Requirement) (avail : list (string * Course))
    (errs : list ErrorMessage) :
  prereq_errors sched = Some errs ->
  errors (validate_schedule settings sched reqs avail)
  = (RequirementNotSatisfied ∘ description
       <$> unsatisfied (all_courses sched) avail reqs)
    ++ errs ++ (terms sched ≫= conflict_errors).
Proof. intros H. unfold validate_schedule. by rewrite H. Qed.

End PrerequisiteCheck.



(** C4. One Summer term holding C, whose prerequisite P is in no earlier
    term: [_get_prior_courses] looks SUMMER up in its [semester_order],
    which has no such key; the [KeyError] is caught by [validate_schedule],
    which returns the validation error alone, without the prerequisite
    error. *)
Theorem summer_term_aborts_validation :
  let v := validate_schedule default_settings summer_schedule [] [] in
  (exists st sc, st ∈ terms summer_schedule /\ sc ∈ courses st
      /\ "P"%string ∈ prerequisites (course sc)
      /\ "C"%string = id (course sc) /\ "2025SU"%string = term_id st
      /\ ~ taken_earlier summer_schedule st "P")
  /\ errors v = [ValidationError]
  /\ PrerequisiteNotSatisfied "P" "C" "2025SU" ∉ errors v.
Proof.
  cbv zeta. split; [|split].
  - eexists _, _. split; [left|]. split; [left|]. simpl.
    split; [left|]. split; [done|]. split; [done|].
    intros (st' & sc' & Hin & Hlt & _).
    apply list_elem_of_singleton in Hin as ->.
    unfold strictly_earlier in Hlt. simpl in Hlt. lia.
  - reflexivity.
  - intros H. apply list_elem_of_singleton in H. discriminate H.
Qed.

(** ** Round trip: validating a generated schedule *)

Section RoundTrip.

Lemma slot_semester_not_summer (i0 k : nat) : slot_semester i0 k ≠ SUMMER.
Proof.
  unfold slot_semester. destruct (mod3_cases (i0 + k)) as [-> | [-> | ->]]; done.
Qed.

Lemma slot_year_bounds (y0 : Z) (i0 n k : nat) :
  (i0 < 3)%nat -> (k < n)%nat ->
  y0 <= slot_year y0 i0 k <= y0 + Z.of_nat n.
Proof.
  intros Hi Hk. unfold slot_year.
  pose proof (Nat.div_mod_eq (i0 + k) 3). pose proof (Nat.mod_upper_bound (i0 + k) 3).
  lia.
Qed.

Lemma slot_term_id_parse (y0 : Z) (i0 n k : nat) :
  (i0 < 3)%nat -> (k < n)%nat ->
  1000 <= 2024 + y0 -> 2024 + y0 + Z.of_nat n <= 9999 ->
  parse_term_id (slot_term_id y0 i0 k)
  = Some (2024 + slot_year y0 i0 k, slot_semester i0 k).
Proof.
  intros Hi Hk Hlo Hhi. unfold slot_term_id.
  pose proof (slot_year_bounds y0 i0 n k Hi Hk).
  apply parse_term_id_str; [lia | apply slot_semester_not_summer].
Qed.

Context (a : Var -> bool) (avail : list (string * Course)).
Context (y0 : Z) (i0 n : nat).
Hypothesis Hi0 : (i0 < 3)%nat.
Hypothesis Hlo : 1000 <= 2024 + y0.
Hypothesis Hhi : 2024 + y0 + Z.of_nat n <= 9999.

(** The scheduled term the extractor builds for slot [k]. *)
Let slot_term (k : nat) : ScheduledTerm :=
  {| year := 2024 + slot_year y0 i0 k; semester := slot_semester i0 k;
     courses := courses_in_term a avail.*1 avail (slot_term_id y0 i0 k)
                  (2024 + slot_year y0 i0 k) (slot_semester i0 k) |}.

Lemma extracted_terms_slots (sts : list ScheduledTerm) (st : ScheduledTerm) :
  extract_terms a avail.*1 avail (walk_terms y0 i0 n) = Some sts ->
  st ∈ sts
  <-> exists k, k ∈ planned_slots i0 n /\ courses (slot_term k) ≠ [] /\ st = slot_term k.
Proof.
  intros Hex. rewrite (extract_terms_elem _ _ _ _ _ _ Hex). split.
  - intros (tid & y & s & Htid & Hp & Hne & ->).
    unfold walk_terms in Htid. apply list_elem_of_fmap in Htid as (k & -> & Hk).
    pose proof Hk as Hk'. unfold planned_slots in Hk'.
    apply list_elem_of_filter in Hk' as [_ Hk']. apply elem_of_seq in Hk'.
    rewrite (slot_term_id_parse y0 i0 n k) in Hp by (done || lia).
    injection Hp as <- <-. by exists k.
  - intros (k & Hk & Hne & ->).
    pose proof Hk as Hk'. unfold planned_slots in Hk'.
    apply list_elem_of_filter in Hk' as [_ Hk']. apply elem_of_seq in Hk'.
    exists (slot_term_id y0 i0 k), (2024 + slot_year y0 i0 k), (slot_semester i0 k).
    split; [unfold walk_terms; apply list_elem_of_fmap; by exists k|].
    split; [apply (slot_term_id_parse y0 i0 n k); done || lia|]. done.
Qed.

Lemma extracted_no_summer (sts : list ScheduledTerm) :
  extract_terms a avail.*1 avail (walk_terms y0 i0 n) = Some sts ->
  Forall (fun st => semester st ≠ SUMMER) sts.
Proof.
  intros Hex. apply Forall_forall. intros st Hst.
  apply (extracted_terms_slots _ _ Hex) in Hst as (k & _ & _ & ->).
  apply slot_semester_not_summer.
Qed.

Lemma extracted_no_conflicts (sts : list ScheduledTerm) :
  extract_terms a avail.*1 avail (walk_terms y0 i0 n) = Some sts ->
  sts ≫= conflict_errors = [].
Proof.
  intros Hex.
  assert (forall st, st ∈ sts -> conflict_errors st = []) as H.
  { intros st Hst. apply (extracted_terms_slots _ _ Hex) in Hst as (k & _ & _ & ->).
    unfold conflict_errors, has_conflicts. rewrite has_conflicts_list_no_meetings; [done|].
    apply Forall_forall. intros sc Hsc. simpl in Hsc.
    by apply courses_in_term_elem in Hsc as (? & ? & _ & _ & _ & ->). }
  clear Hex. induction sts as [|st sts IH]; [done|].
  rewrite bind_cons, H by left. simpl. apply IH. intros. apply H. by right.
Qed.

End RoundTrip.

(** C1 (amended). When [solve] returns a schedule, [validate_schedule] on it
    (same requirements and course map) runs to completion and reports no
    offering error, no unit-bound error, no time conflict and no validation
    error: every error is a requirement error or a prerequisite error, and
    a prerequisite error for prerequisite q in term t is reported only when
    q is one of the student's completed courses or t is the first planned
    term. *)
Theorem round_trip_validation (Solve : CpModel -> option (Var -> bool))
    (settings : Settings) (p : StudentProfile) (reqs : list Requirement)
    (avail : list (string * Course)) (off : gmap string (list string))
    (prefs : option (gmap string Q))
    (log : list LogMessage) (sched : Schedule) (score : Q) :
  engine_sound Solve -> four_digit_horizon settings p -> keys_are_ids avail ->
  solve Solve settings p reqs avail off prefs = (log, Some (Some sched, score)) ->
  exists planned,
    _generate_terms settings p = Some planned
    /\ forall e, e ∈ errors (validate_schedule settings sched reqs avail) ->
         (exists d, e = RequirementNotSatisfied d)
         \/ (exists q c t, e = PrerequisiteNotSatisfied q c t
                           /\ (q ∈ completed_courses p \/ head planned = Some t)).
Proof.
  intros Hsound [Hlo Hhi] Hids Hsolve.
  apply (solve_inv Solve Hsound) in Hsolve as (planned & a & Hgen & Hsat & Hex & _).
  exists planned. split; [done|].
  destruct (semester_order (sp_semester p)) as [i0|] eqn:Eo;
    [|by unfold _generate_terms in Hgen; rewrite Eo in Hgen].
  pose proof (semester_order_lt _ _ Eo) as [Hi0 _].
  rewrite (generate_terms_eq settings p i0 Eo) in Hgen. injection Hgen as <-.
  set (n := Z.to_nat (SOLVER_MAX_TERMS settings)) in *.
  set (y0 := sp_year p) in *.
  assert (2024 + y0 + Z.of_nat n <= 9999) as Hhi' by (unfold n; lia).
  unfold _extract_schedule in Hex.
  destruct (extract_terms a avail.*1 avail (walk_terms y0 i0 n)) as [sts|] eqn:Ext;
    [simpl in Hex|done].
  injection Hex as <-.
  pose proof (extracted_terms_slots a avail y0 i0 n Hi0 Hlo Hhi' sts) as Hslots.
  pose proof (extracted_no_summer a avail y0 i0 n Hi0 Hlo Hhi' sts Ext) as Hns.
  destruct (prereq_errors_is_Some {| student_id := sp_id p; terms := sts |} Hns)
    as [errs Herrs].
  intros e. rewrite (validate_errors _ _ _ _ _ Herrs). simpl terms.
  rewrite (extracted_no_conflicts a avail y0 i0 n Hi0 Hlo Hhi' sts Ext), app_nil_r.
  rewrite elem_of_app. intros [He | He].
  { left. apply list_elem_of_fmap in He as (r & -> & _). by eexists. }
  right.
  apply (prereq_errors_elem _ _ _ Herrs) in He
    as (st & sc & prior & q & Hst & Hsc & Hprior & Hq & Hnq & ->).
  simpl in Hst. exists q, (id (course sc)), (term_id st). split; [done|].
  destruct (decide (q ∈ completed_courses p)) as [|Hnc]; [by left|]. right.
  apply (Hslots st Ext) in Hst as (k & Hk & _ & ->). simpl in Hsc.
  apply courses_in_term_elem in Hsc as (kc & crs & Hkc & _ & Ha & ->).
  simpl in Hq.
  apply list_elem_of_split in Hk as (pre & post & Hsplit).
  destruct (planned_slots_split i0 n pre post k Hsplit) as (Hkn & _ & Hpre).
  unfold walk_terms. rewrite Hsplit, fmap_app, fmap_cons.
  destruct pre as [|k1 pre]; [done|]. exfalso.
  destruct (build_model_precedence settings p reqs avail off (preferences_or prefs p)
              (walk_terms y0 i0 n) a (slot_term_id y0 i0 <$> (k1 :: pre))
              (slot_term_id y0 i0 <$> post) (slot_term_id y0 i0 k) kc crs q)
    as (Hqv & t' & Ht' & Ha'); try done.
  { unfold walk_terms. by rewrite Hsplit, fmap_app, fmap_cons. }
  apply list_elem_of_fmap in Ht' as (k' & -> & Hk').
  destruct (Hpre k' Hk') as [Hlt _].
  apply list_elem_of_fmap in Hqv as ([q' cq] & Hq' & Hcq). simpl in Hq'. subst q'.
  apply Hnq. unfold _get_prior_courses in Hprior. simpl in Hprior.
  rewrite slot_semester_order in Hprior. simpl in Hprior.
  apply (prior_loop_elem _ _ _ _ Hprior).
  set (sc' := {| course := cq; term := slot_term_id y0 i0 k';
                 sc_year := 2024 + slot_year y0 i0 k';
                 sc_semester := slot_semester i0 k'; meeting_times := [] |}).
  assert (sc' ∈ courses_in_term a avail.*1 avail (slot_term_id y0 i0 k')
                  (2024 + slot_year y0 i0 k') (slot_semester i0 k')) as Hsc'.
  { apply courses_in_term_elem. exists q, cq. repeat split; try done.
    by eapply key_in_course_vars. }
  eexists _, ((i0 + k') mod 3)%nat, sc'. split.
  { apply (Hslots _ Ext). exists k'. split; [|split; [|reflexivity]].
    - rewrite Hsplit. apply elem_of_app. by left.
    - simpl. intros E. rewrite E in Hsc'. by apply elem_of_nil in Hsc'. }
  simpl. split; [apply slot_semester_order|].
  split; [by apply slot_key_lt|]. split; [done|]. by apply Hids.
Qed.

(** Years 1 to 5 with the default horizon are written with four digits. *)
Lemma four_digit_horizon_default (p : StudentProfile) :
  1 <= sp_year p <= 5 -> four_digit_horizon default_settings p.
Proof. unfold four_digit_horizon. simpl. lia. Qed.

(** P every term and C in the second: [solve] succeeds and the validation
    of its schedule reports nothing but what the theorem allows. *)
Lemma round_trip_validation_witness :
  exists log sched score planned,
    solve (candidate_engine P_always_C_second) default_settings freshman_fall []
      catalogue_PC ∅ None = (log, Some (Some sched, score))
    /\ _generate_terms default_settings freshman_fall = Some planned
    /\ forall e, e ∈ errors (validate_schedule default_settings sched [] catalogue_PC) ->
         (exists d, e = RequirementNotSatisfied d)
         \/ (exists q c t, e = PrerequisiteNotSatisfied q c t
                           /\ (q ∈ completed_courses freshman_fall
                               \/ head planned = Some t)).
Proof.
  eexists _, _, _.
  assert (keys_are_ids catalogue_PC) as Hids by (by apply (bool_decide_unpack _)).
  assert (four_digit_horizon default_settings freshman_fall) as Hfour
    by (apply four_digit_horizon_default; simpl; lia).
  match goal with
  | |- exists planned, ?S = ?R /\ _ =>
      assert (S = R) as Hs by (vm_compute; reflexivity)
  end.
  destruct (round_trip_validation (candidate_engine P_always_C_second) default_settings
              freshman_fall [] catalogue_PC ∅ None _ _ _
              (candidate_engine_sound _) Hfour Hids Hs) as (planned & Hg & He).
  exists planned. split; [exact Hs|]. split; [exact Hg | exact He].
Defined.

(** The student has completed P and the catalogue holds only C, which
    requires P.  [solve] succeeds with a suitable engine, and whatever
    sound engine is used, the returned schedule has C in 2025SP and its
    validation reports that P is not satisfied there. *)
Lemma counterexample_completed_prerequisite :
  (exists log sched score,
      solve (candidate_engine all_taken) default_settings freshman_completed_P []
        catalogue_C ∅ None = (log, Some (Some sched, score)))
  /\ forall Solve log sched score,
       engine_sound Solve ->
       solve Solve default_settings freshman_completed_P [] catalogue_C ∅ None
       = (log, Some (Some sched, score)) ->
       PrerequisiteNotSatisfied "P" "C" "2025SP"
         ∈ errors (validate_schedule default_settings sched [] catalogue_C)
       /\ "P"%string ∈ completed_courses freshman_completed_P.
Proof.
  split.
  - eexists _, _, _. vm_compute. reflexivity.
  - intros Solve log sched score Hsound Hsolve.
    split; [|by apply (bool_decide_unpack _)].
    apply (solve_inv Solve Hsound) in Hsolve as (planned & a & Hgen & Hsat & Hex & _).
    assert (_generate_terms default_settings freshman_completed_P = Some default_terms)
      as Hdef by reflexivity.
    rewrite Hdef in Hgen. injection Hgen as <-.
    assert (forall t, t ∈ default_terms -> a (CourseVar "C" t) = true) as Ha.
    { intros t Ht.
      pose proof (build_model_unit_bounds default_settings freshman_completed_P []
                    catalogue_C ∅ (preferences_or None freshman_completed_P)
                    default_terms a t) as Hb.
      unfold unit_load, value in Hb. simpl in Hb.
      destruct (a (CourseVar "C" t)); [done|].
      exfalso. assert (12 <= 0 <= 60); [|lia]. by apply Hb. }
    assert (_extract_schedule a catalogue_C.*1 catalogue_C default_terms
              freshman_completed_P
            = _extract_schedule all_taken catalogue_C.*1 catalogue_C default_terms
                freshman_completed_P) as Heq.
    { unfold _extract_schedule, default_terms. simpl extract_terms.
      unfold courses_in_term. simpl.
      rewrite !Ha by (by apply (bool_decide_unpack _)). reflexivity. }
    rewrite Heq in Hex. vm_compute in Hex. injection Hex as <-.
    by apply (bool_decide_unpack _).
Qed.


(** The first planned term has no precedence constraint ([terms[:0]] is
    empty, so nothing is added for it): with P and C taken in every term
    the model is satisfied although C sits in 2025FA with no earlier P,
    and the validator reports exactly that. *)
Lemma first_term_precedence_gap :
  satisfies all_taken
    (build_model default_settings freshman_fall [] catalogue_PC ∅
       (preferences_or None freshman_fall) default_terms) = true
  /\ exists log sched score,
       solve (candidate_engine all_taken) default_settings freshman_fall []
         catalogue_PC ∅ None = (log, Some (Some sched, score))
       /\ errors (validate_schedule default_settings sched [] catalogue_PC)
          = [PrerequisiteNotSatisfied "P" "C" "2025FA"].
Proof.
  split; [vm_compute; reflexivity|].
  eexists _, _, _. split.
  - vm_compute. reflexivity.
  - vm_compute. reflexivity.
Qed.

(** ** Requirements: single assignment, unknown ids, unchecked rule types *)

(** C5. The built model has no constraint that limits a course to one term:
    there is an input (one 12-unit course A, nothing else) and a satisfying
    assignment that takes A in two distinct planned terms -- indeed every
    satisfying assignment takes A in every planned term -- and [solve]
    with an engine reporting that assignment returns a schedule holding A
    in both terms. *)
Theorem single_assignment_not_enforced :
  exists settings p reqs avail off prefs planned c t1 t2 a,
    let m := build_model settings p reqs avail off (preferences_or prefs p) planned in
    _generate_terms settings p = Some planned
    /\ c ∈ avail.*1 /\ t1 ∈ planned /\ t2 ∈ planned /\ t1 ≠ t2
    /\ satisfies a m = true
    /\ a (CourseVar c t1) = true /\ a (CourseVar c t2) = true
    /\ (forall a', satisfies a' m = true ->
                   forall t, t ∈ planned -> a' (CourseVar c t) = true)
    /\ exists log sched score,
         solve (candidate_engine a) settings p reqs avail off prefs
         = (log, Some (Some sched, score))
         /\ scheduled_in sched c t1 = true /\ scheduled_in sched c t2 = true.
Proof.
  exists default_settings, freshman_fall, [], catalogue_A, ∅, None, default_terms,
    "A"%string, "2025FA"%string, "2025SP"%string, all_taken.
  cbv zeta. split; [reflexivity|].
  split; [by apply (bool_decide_unpack _)|].
  split; [by apply (bool_decide_unpack _)|].
  split; [by apply (bool_decide_unpack _)|].
  split; [done|].
  split; [vm_compute; reflexivity|].
  split; [reflexivity|]. split; [reflexivity|].
  split.
  - intros a' Hsat t Ht.
    pose proof (build_model_unit_bounds default_settings freshman_fall [] catalogue_A
                  ∅ (preferences_or None freshman_fall) default_terms a' t) as Hb.
    unfold unit_load, value in Hb. simpl in Hb.
    destruct (a' (CourseVar "A" t)); [done|].
    exfalso. assert (12 <= 0 <= 60); [|lia]. by apply Hb.
  - eexists _, _, _. split; [vm_compute; reflexivity|].
    split; vm_compute; reflexivity.
Qed.

Section Requirements.

Lemma check_requirement_other (req : Requirement) (scheduled : list string)
    (avail : list (string * Course)) :
  rule_type req = CATEGORY \/ rule_type req = ELECTIVE ->
  _check_requirement req scheduled avail = false.
Proof. unfold _check_requirement. by intros [-> | ->]. Qed.

Lemma requirement_step_other (cv terms : list string) (avail : list (string * Course))
    (m : CpModel) (req : Requirement) :
  rule_type req = CATEGORY \/ rule_type req = ELECTIVE ->
  requirement_step cv terms avail m req = m.
Proof. unfold requirement_step. by intros [-> | ->]. Qed.

Lemma unsatisfied_elem (scheduled : list string) (avail : list (string * Course))
    (reqs : list Requirement) (req : Requirement) :
  req ∈ reqs -> _check_requirement req scheduled avail = false ->
  req ∈ unsatisfied scheduled avail reqs.
Proof. intros. by apply list_elem_of_filter. Qed.

Lemma taken_loop_filter (cv terms allowed : list string) (st : list Var * CpModel) :
  foldl (taken_step cv terms) st (filter (fun c => c ∈ cv) allowed)
  = foldl (taken_step cv terms) st allowed.
Proof.
  revert st. induction allowed as [|c l IH]; intros st; [done|].
  rewrite filter_cons. simpl. destruct (decide (c ∈ cv)) as [Hc | Hc].
  - simpl. apply IH.
  - rewrite IH. replace (taken_step cv terms st c) with st; [done|].
    unfold taken_step. by rewrite bool_decide_eq_false_2.
Qed.

Lemma requirement_step_drop_unknown (cv terms : list string)
    (avail : list (string * Course)) (m : CpModel) (req : Requirement) :
  requirement_step cv terms avail m (drop_unknown cv req)
  = requirement_step cv terms avail m req.
Proof.
  unfold requirement_step. simpl. destruct (rule_type req); try done.
  destruct (courses_allowed req) as [l|]; [simpl|done].
  rewrite taken_loop_filter.
  destruct (filter (fun c => c ∈ cv) l) as [|c' l'] eqn:E.
  - destruct l as [|c l]; [done|].
    by rewrite <- (taken_loop_filter cv terms (c :: l)), E.
  - by destruct l.
Qed.

Lemma add_requirement_drop_unknown (cv terms : list string)
    (avail : list (string * Course)) (reqs : list Requirement) (m : CpModel) :
  _add_requirement_constraints cv (drop_unknown cv <$> reqs) avail terms m
  = _add_requirement_constraints cv reqs avail terms m.
Proof.
  unfold _add_requirement_constraints. revert m.
  induction reqs as [|r reqs IH]; intros m; [done|].
  simpl. by rewrite requirement_step_drop_unknown, IH.
Qed.

Lemma existsb_filter_known (known scheduled l : list string) :
  scheduled ⊆ known ->
  existsb (fun c => bool_decide (c ∈ scheduled)) (filter (fun c => c ∈ known) l)
  = existsb (fun c => bool_decide (c ∈ scheduled)) l.
Proof.
  intros Hsub. induction l as [|c l IH]; [done|].
  rewrite filter_cons. destruct (decide (c ∈ known)) as [Hc | Hc]; simpl.
  - by rewrite IH.
  - rewrite IH. rewrite bool_decide_eq_false_2; [done|]. intros H. by apply Hc, Hsub.
Qed.

Lemma check_requirement_drop_unknown (known scheduled : list string)
    (avail : list (string * Course)) (req : Requirement) :
  scheduled ⊆ known ->
  _check_requirement (drop_unknown known req) scheduled avail
  = _check_requirement req scheduled avail.
Proof.
  intros Hsub. unfold _check_requirement. simpl. destruct (rule_type req); try done.
  destruct (courses_allowed req) as [l|]; [simpl|done].
  rewrite (existsb_filter_known known scheduled l Hsub).
  destruct (filter (fun c => c ∈ known) l) as [|c' l'] eqn:E.
  - destruct l as [|c l]; [done|].
    by rewrite <- (existsb_filter_known known scheduled (c :: l) Hsub), E.
  - by destruct l.
Qed.

Lemma unsatisfied_drop_unknown (known scheduled : list string)
    (avail : list (string * Course)) (reqs : list Requirement) :
  scheduled ⊆ known ->
  unsatisfied scheduled avail (drop_unknown known <$> reqs)
  = drop_unknown known <$> unsatisfied scheduled avail reqs.
Proof.
  intros Hsub. unfold unsatisfied. induction reqs as [|r reqs IH]; [done|].
  rewrite fmap_cons, !filter_cons, IH, check_requirement_drop_unknown by done.
  by destruct (decide _).
Qed.

Lemma requirement_results_drop_unknown (known scheduled : list string)
    (avail : list (string * Course)) (reqs : list Requirement) :
  scheduled ⊆ known ->
  requirement_results scheduled avail (drop_unknown known <$> reqs)
  = requirement_results scheduled avail reqs.
Proof.
  intros Hsub. unfold requirement_results. generalize (∅ : gmap string bool).
  induction reqs as [|r reqs IH]; intros rs; [done|].
  simpl. by rewrite check_requirement_drop_unknown, IH.
Qed.

End Requirements.

(** X27. For a requirement whose rule type is category or
    elective, [_check_requirement] is false whatever the schedule holds, so
    every schedule validated against it comes back [is_valid = false]; when
    validation runs to completion (no Summer term, or no course at all)
    the requirement is in [missing_requirements] and has its error; and
    the constraint model builder adds nothing for it. *)
Theorem unchecked_rule_types_never_satisfied (req : Requirement) :
  rule_type req = CATEGORY \/ rule_type req = ELECTIVE ->
  (forall scheduled avail, _check_requirement req scheduled avail = false)
  /\ (forall settings sched reqs avail,
        req ∈ reqs -> is_valid (validate_schedule settings sched reqs avail) = false)
  /\ (forall settings sched reqs avail,
        req ∈ reqs -> validation_completes sched ->
        let v := validate_schedule settings sched reqs avail in
        req_id req ∈ missing_requirements v
        /\ RequirementNotSatisfied (description req) ∈ errors v)
  /\ (forall cv terms avail m, requirement_step cv terms avail m req = m)
  /\ (forall cv terms avail reqs1 reqs2 m,
        _add_requirement_constraints cv (reqs1 ++ req :: reqs2) avail terms m
        = _add_requirement_constraints cv (reqs1 ++ reqs2) avail terms m).
Proof.
  intros Hty.
  assert (forall settings sched reqs avail errs,
            req ∈ reqs -> prereq_errors sched = Some errs ->
            let v := validate_schedule settings sched reqs avail in
            req_id req ∈ missing_requirements v
            /\ RequirementNotSatisfied (description req) ∈ errors v) as Hdone.
  { intros settings sched reqs avail errs Hin He. unfold validate_schedule. rewrite He.
    simpl. pose proof (unsatisfied_elem (all_courses sched) avail reqs req Hin
                         (check_requirement_other req _ avail Hty)) as Hu.
    split.
    - apply list_elem_of_fmap. by exists req.
    - apply elem_of_app. left. apply list_elem_of_fmap. by exists req. }
  split; [intros; by apply check_requirement_other|].
  split.
  { intros settings sched reqs avail Hin.
    destruct (prereq_errors sched) as [errs|] eqn:He.
    - destruct (Hdone settings sched reqs avail errs Hin He) as [_ Herr].
      revert Herr. unfold validate_schedule. rewrite He. simpl. intros Herr.
      apply bool_decide_eq_false. intros Hnil. rewrite Hnil in Herr.
      by apply elem_of_nil in Herr.
    - unfold validate_schedule. by rewrite He. }
  split.
  { intros settings sched reqs avail Hin Hc.
    apply validation_completes_iff in Hc as [errs He]. by eapply Hdone. }
  split; [intros; by apply requirement_step_other|].
  intros cv terms avail reqs1 reqs2 m. unfold _add_requirement_constraints.
  rewrite !foldl_app. simpl. by rewrite requirement_step_other.
Qed.

(** An elective requirement against a Fall/Spring schedule. *)
Lemma unchecked_rule_types_never_satisfied_witness :
  is_valid (validate_schedule default_settings two_term_schedule
              [elective_requirement] []) = false
  /\ "free-electives"%string
       ∈ missing_requirements (validate_schedule default_settings two_term_schedule
                                 [elective_requirement] []).
Proof.
  destruct (unchecked_rule_types_never_satisfied elective_requirement
              (or_intror eq_refl)) as (_ & Hv & Hm & _).
  split.
  - apply Hv. left.
  - apply (Hm default_settings two_term_schedule [elective_requirement] []); [left|].
    left. unfold no_summer. simpl. repeat constructor; done.
Defined.

(** C10. An elective requirement against the Summer schedule: the
    [KeyError] of [_get_prior_courses] aborts the validation, and the
    result returned from the [except] branch lists no missing requirement
    and no error for the requirement, although the requirement was checked
    and found unsatisfied before the abort. *)
Theorem summer_term_drops_missing_requirement :
  let v := validate_schedule default_settings summer_schedule [elective_requirement] [] in
  rule_type elective_requirement = ELECTIVE
  /\ missing_requirements v = []
  /\ errors v = [ValidationError]
  /\ ("free-electives"%string ∉ missing_requirements v)
  /\ (RequirementNotSatisfied "Free electives" ∉ errors v).
Proof.
  cbv zeta. split; [done|]. split; [reflexivity|]. split; [reflexivity|].
  split.
  - intros H. by apply elem_of_nil in H.
  - intros H. apply list_elem_of_singleton in H. discriminate H.
Qed.

Section Warnings.

Lemma validate_warnings_independent (settings : Settings) (sched : Schedule)
    (reqs : list Requirement) (avail : list (string * Course)) :
  warnings (validate_schedule settings sched reqs avail)
  = warnings (validate_schedule settings sched [] avail).
Proof. unfold validate_schedule. by destruct (prereq_errors sched). Qed.

Lemma validate_drop_unknown (settings : Settings) (sched : Schedule)
    (reqs : list Requirement) (avail : list (string * Course)) (known : list string) :
  all_courses sched ⊆ known ->
  validate_schedule settings sched (drop_unknown known <$> reqs) avail
  = validate_schedule settings sched reqs avail.
Proof.
  intros Hsub. unfold validate_schedule.
  rewrite unsatisfied_drop_unknown, requirement_results_drop_unknown by done.
  by rewrite <- !list_fmap_compose.
Qed.

Lemma solve_log_levels (Solve : CpModel -> option (Var -> bool)) (settings : Settings)
    (p : StudentProfile) (reqs : list Requirement) (avail : list (string * Course))
    (off : gmap string (list string)) (prefs : option (gmap string Q))
    (log : list LogMessage) (sched : Schedule) (score : Q) :
  solve Solve settings p reqs avail off prefs = (log, Some (Some sched, score)) ->
  forall msg, msg ∈ log -> log_level msg = INFO.
Proof.
  unfold solve. destruct (_generate_terms settings p); [|done].
  destruct (Solve _); [|done]. destruct (_extract_schedule _ _ _ _ _); [|done].
  intros [= <- _ _] msg Hmsg. simpl in Hmsg.
  repeat (apply elem_of_cons in Hmsg as [-> | Hmsg]; [done|]).
  by apply elem_of_nil in Hmsg.
Qed.

End Warnings.

(** C9 (amended). A course id that a requirement allows but the course map
    does not contain is skipped silently: the constraint model builder
    emits exactly the constraints it emits with that id removed from
    [courses_allowed], and the validator, on a schedule whose courses all
    come from the course map, returns exactly the result it returns with
    the id removed; both go on with the remaining requirements.  No warning
    is recorded for the skip: the validator's warnings do not depend on the
    requirements at all, and a [solve] that returns a schedule logs
    nothing above INFO level. *)
Theorem unknown_course_ids_skipped (settings : Settings)
    (reqs : list Requirement) (avail : list (string * Course)) :
  let known := avail.*1 in
  (forall planned m,
      _add_requirement_constraints known reqs avail planned m
      = _add_requirement_constraints known (drop_unknown known <$> reqs) avail planned m)
  /\ (forall sched, all_courses sched ⊆ known ->
        validate_schedule settings sched reqs avail
        = validate_schedule settings sched (drop_unknown known <$> reqs) avail)
  /\ (forall sched,
        warnings (validate_schedule settings sched reqs avail)
        = warnings (validate_schedule settings sched [] avail))
  /\ (forall Solve p off prefs log sched score,
        solve Solve settings p reqs avail off prefs = (log, Some (Some sched, score)) ->
        forall msg, msg ∈ log -> log_level msg = INFO).
Proof.
  cbv zeta. split; [|split; [|split]].
  - intros. symmetry. apply add_requirement_drop_unknown.
  - intros. symmetry. by apply validate_drop_unknown.
  - intros. apply validate_warnings_independent.
  - intros. by eapply solve_log_levels.
Qed.

(** The requirement allows X, which the course map lacks: [solve] succeeds
    logging at INFO level only, and validating its schedule gives no
    warning and no error. *)
Lemma counterexample_unknown_id_no_warning :
  "X"%string ∈ default [] (courses_allowed requirement_A_or_X)
  /\ ("X"%string ∉ catalogue_A48.*1)
  /\ exists log sched score,
       solve (candidate_engine all_taken) default_settings freshman_fall
         [requirement_A_or_X] catalogue_A48 ∅ None = (log, Some (Some sched, score))
       /\ (forall msg, msg ∈ log -> log_level msg ≠ WARNING)
       /\ let v := validate_schedule default_settings sched [requirement_A_or_X]
                     catalogue_A48 in
          warnings v = [] /\ errors v = [] /\ is_valid v = true.
Proof.
  split; [by apply (bool_decide_unpack _)|].
  split; [by apply (bool_decide_unpack _)|].
  eexists _, _, _. split; [vm_compute; reflexivity|]. split.
  - intros msg Hmsg.
    repeat (apply elem_of_cons in Hmsg as [-> | Hmsg]; [done|]).
    by apply elem_of_nil in Hmsg.
  - cbv zeta. split; [|split]; vm_compute; reflexivity.
Qed.

(** ** Scoring *)

(** C8. One term of 12 units and a balance_workload weight of -1: the
    variance is 0, the balance score 1, and [_calculate_score] returns
    -1, below the range [0, 1]: the result is clamped from above only
    ([min(1.0, score)]), as the same schedule with weight 3 shows, whose
    score 3 is cut to 1.  Every number of these runs is an integer, so
    the float computation of the code gives the same values. *)
Theorem negative_weight_score :
  (_calculate_score one_term_schedule negative_balance_weight == -1)%Q
  /\ (_calculate_score one_term_schedule negative_balance_weight < 0)%Q
  /\ ~ (0 <= _calculate_score one_term_schedule negative_balance_weight <= 1)%Q
  /\ (_calculate_score one_term_schedule large_balance_weight == 1)%Q.
Proof.
  assert (_calculate_score one_term_schedule negative_balance_weight == -1)%Q as H
    by (vm_compute; reflexivity).
  split; [exact H|]. split; [by rewrite H|]. split.
  - rewrite H. by intros [? _].
  - vm_compute. reflexivity.
Qed.

(** * Further properties of the code *)

(** ** Time conflicts between scheduled courses *)

Section CourseConflicts.

Lemma has_time_conflict_spec (c1 c2 : ScheduledCourse) :
  has_time_conflict c1 c2 = true
  <-> term c1 = term c2
      /\ exists mt1 mt2, mt1 ∈ meeting_times c1 /\ mt2 ∈ meeting_times c2
                         /\ conflicts_with mt1 mt2 = true.
Proof.
  unfold has_time_conflict. case_bool_decide as Ht; simpl.
  - rewrite existsb_exists. split.
    + intros (mt1 & H1 & H). apply existsb_exists in H as (mt2 & H2 & H).
      split; [done|]. exists mt1, mt2. by rewrite <- !list_elem_of_In in *.
    + intros (_ & mt1 & mt2 & H1 & H2 & H). exists mt1.
      split; [by apply list_elem_of_In|]. apply existsb_exists. exists mt2.
      split; [by apply list_elem_of_In | done].
  - split; [done | by intros [? _]].
Qed.

End CourseConflicts.

(** X1. [ScheduledCourse.has_time_conflict] is symmetric; it holds exactly
    when the two courses are in the same term and some meeting of one
    conflicts with some meeting of the other; so it is false across terms
    and false as soon as one of the two has no meeting time. *)
Theorem has_time_conflict_symmetric :
  (forall c1 c2, has_time_conflict c1 c2 = has_time_conflict c2 c1)
  /\ (forall c1 c2,
        has_time_conflict c1 c2 = true
        <-> term c1 = term c2
            /\ exists mt1 mt2, mt1 ∈ meeting_times c1 /\ mt2 ∈ meeting_times c2
                               /\ conflicts_with mt1 mt2 = true)
  /\ (forall c1 c2, term c1 ≠ term c2 -> has_time_conflict c1 c2 = false)
  /\ (forall c1 c2, meeting_times c1 = [] \/ meeting_times c2 = [] ->
                    has_time_conflict c1 c2 = false).
Proof.
  split; [|split; [exact has_time_conflict_spec|split]].
  - intros c1 c2. apply eq_true_iff_eq. rewrite !has_time_conflict_spec. split.
    + intros (Ht & mt1 & mt2 & H1 & H2 & H). split; [done|].
      exists mt2, mt1. by rewrite conflicts_with_sym.
    + intros (Ht & mt1 & mt2 & H1 & H2 & H). split; [done|].
      exists mt2, mt1. by rewrite conflicts_with_sym.
  - intros c1 c2 Hne. apply not_true_is_false.
    rewrite has_time_conflict_spec. by intros [? _].
  - intros c1 c2 Hnil. apply not_true_is_false.
    rewrite has_time_conflict_spec. intros (_ & mt1 & mt2 & H1 & H2 & _).
    destruct Hnil as [E | E]; rewrite E in *; by eapply elem_of_nil.
Qed.

(** ** Conflicts of a term *)

Section TermConflicts.

Lemma has_conflicts_list_elem (cs : list ScheduledCourse) (a b : string) :
  (a, b) ∈ has_conflicts_list cs
  <-> exists i j c1 c2, (i < j)%nat /\ cs !! i = Some c1 /\ cs !! j = Some c2
        /\ has_time_conflict c1 c2 = true
        /\ a = id (course c1) /\ b = id (course c2).
Proof.
  induction cs as [|c cs IH]; simpl.
  - split; [by intros ?%elem_of_nil|]. by intros (i & j & c1 & c2 & _ & ? & _).
  - rewrite elem_of_app, IH, list_elem_of_fmap. split.
    + intros [(c2 & [= -> ->] & Hc2) | (i & j & c1 & c2 & Hij & Hi & Hj & Hc & -> & ->)].
      * apply list_elem_of_filter in Hc2 as [Hc Hin].
        apply list_elem_of_lookup in Hin as [j Hj].
        exists 0%nat, (S j), c, c2. repeat split; try done. lia.
      * exists (S i), (S j), c1, c2. repeat split; try done. lia.
    + intros (i & j & c1 & c2 & Hij & Hi & Hj & Hc & -> & ->).
      destruct j as [|j]; [lia|]. simpl in Hj. destruct i as [|i]; simpl in Hi.
      * injection Hi as ->. left. exists c2. split; [done|].
        apply list_elem_of_filter. split; [done|]. apply list_elem_of_lookup. by exists j.
      * right. exists i, j, c1, c2. repeat split; try done. lia.
Qed.

Lemma has_conflicts_list_length (cs : list ScheduledCourse) :
  (2 * length (has_conflicts_list cs) <= length cs * (length cs - 1))%nat.
Proof.
  induction cs as [|c cs IH]; simpl; [lia|].
  rewrite length_app, length_fmap.
  pose proof (length_filter (fun course2 => has_time_conflict c course2 = true) cs).
  rewrite Nat.sub_0_r. nia.
Qed.

End TermConflicts.

(** X2. [ScheduledTerm.has_conflicts] lists the pair (id of course i, id of
    course j) exactly for the positions i < j of the term's course list
    whose courses have a time conflict: each unordered pair of positions
    at most once, never a course with itself, at most n(n-1)/2 pairs, and
    none when every course lacks meeting times. *)
Theorem has_conflicts_pairs (t : ScheduledTerm) :
  (forall a b,
      (a, b) ∈ has_conflicts t
      <-> exists i j c1 c2, (i < j)%nat /\ courses t !! i = Some c1
            /\ courses t !! j = Some c2
            /\ has_time_conflict c1 c2 = true
            /\ a = id (course c1) /\ b = id (course c2))
  /\ (2 * length (has_conflicts t) <= length (courses t) * (length (courses t) - 1))%nat
  /\ ((length (courses t) <= 1)%nat -> has_conflicts t = [])
  /\ (Forall (fun sc => meeting_times sc = []) (courses t) -> has_conflicts t = []).
Proof.
  unfold has_conflicts. split; [intros; apply has_conflicts_list_elem|].
  split; [apply has_conflicts_list_length|]. split.
  - intros Hlen. pose proof (has_conflicts_list_length (courses t)) as H.
    destruct (has_conflicts_list (courses t)); [done|]. simpl in H.
    destruct (courses t) as [|? [|? ?]]; simpl in *; lia.
  - apply has_conflicts_list_no_meetings.
Qed.

(** ** Term identifiers: encoding and decoding *)

Section TermIdCodec.

Lemma semester_codes_inj (s1 s2 : Term) :
  semester_codes s1 = semester_codes s2 -> s1 = s2.
Proof. by destruct s1, s2. Qed.

Lemma semester_codes_length (s : Term) : String.length (semester_codes s) = 2%nat.
Proof. by destruct s. Qed.

Lemma semester_of_code_Some (code : string) (s : Term) :
  semester_of_code code = Some s -> code = semester_codes s /\ s ≠ SUMMER.
Proof.
  unfold semester_of_code. repeat case_bool_decide; intros [= <-]; subst; done.
Qed.

Lemma summer_suffix_not_decoded (p : string) :
  semester_of_code (Py.str_drop 4 (p +:+ "SU")) = None.
Proof.
  destruct (semester_of_code (Py.str_drop 4 (p +:+ "SU"))) as [s|] eqn:E; [|done].
  exfalso. apply semester_of_code_Some in E as [E Hs].
  destruct p as [|a [|b [|c [|d [|e r]]]]]; simpl in E.
  1-5: by destruct s.
  apply (f_equal String.length) in E. rewrite semester_codes_length in E.
  change (S (String.length (r +:+ "SU")) = 2%nat) in E.
  rewrite str_length_app in E. simpl in E. lia.
Qed.

Lemma parse_term_id_bad_code (tid : string) :
  semester_of_code (Py.str_drop 4 tid) = None -> parse_term_id tid = None.
Proof.
  intros H. unfold parse_term_id. destruct (Py.int _) as [z|]; [|done].
  change (semester_of_code (Py.str_drop 4 tid) ≫= (fun s => Some (z, s)) = None).
  by rewrite H.
Qed.

Lemma short_years_range : forallb short_year (seqZ 0 1000) = true.
Proof. vm_compute. reflexivity. Qed.

Lemma get_term_loop_Some (ts : list ScheduledTerm) (y : Z) (sem : Term)
    (t : ScheduledTerm) :
  get_term_loop ts y sem = Some t
  <-> exists pre post, ts = pre ++ t :: post /\ year t = y /\ semester t = sem
        /\ Forall (fun t' => ~ (year t' = y /\ semester t' = sem)) pre.
Proof.
  induction ts as [|x ts IH]; simpl.
  - split; [done|]. intros (pre & post & E & _). by destruct pre.
  - destruct (decide (year x = y /\ semester x = sem)) as [[Hy Hs] | Hno].
    + rewrite !bool_decide_eq_true_2 by done. simpl. split.
      * intros [= <-]. exists [], ts. by repeat split.
      * intros (pre & post & E & _ & _ & Hpre). destruct pre as [|x' pre].
        -- by injection E as ->.
        -- injection E as <- _. apply Forall_cons in Hpre as [Hx _]. by destruct Hx.
    + assert (bool_decide (year x = y) && bool_decide (semester x = sem) = false) as ->.
      { apply andb_false_iff. rewrite !bool_decide_eq_false.
        destruct (decide (year x = y)) as [Hy|Hy]; [right | by left].
        intros Hs. by apply Hno. }
      rewrite IH. split.
      * intros (pre & post & -> & ? & ? & Hpre). exists (x :: pre), post.
        repeat split; try done. by constructor.
      * intros (pre & post & E & Hy & Hs & Hpre). destruct pre as [|x' pre].
        -- injection E as -> _. by destruct Hno.
        -- injection E as <- ->. apply Forall_cons in Hpre as [_ Hpre].
           by exists pre, post.
Qed.

Lemma get_term_loop_None (ts : list ScheduledTerm) (y : Z) (sem : Term) :
  get_term_loop ts y sem = None
  <-> Forall (fun t' => ~ (year t' = y /\ semester t' = sem)) ts.
Proof.
  induction ts as [|x ts IH]; simpl; [by split|].
  destruct (decide (year x = y /\ semester x = sem)) as [[Hy Hs] | Hno].
  - rewrite !bool_decide_eq_true_2 by done. simpl. split; [done|].
    intros [Hx _]%Forall_cons. by destruct Hx.
  - assert (bool_decide (year x = y) && bool_decide (semester x = sem) = false) as ->.
    { apply andb_false_iff. rewrite !bool_decide_eq_false.
      destruct (decide (year x = y)) as [Hy|Hy]; [right | by left].
      intros Hs. by apply Hno. }
    rewrite IH, Forall_cons. split; [by intros | by intros [_ ?]].
Qed.

Lemma get_term_loop_NoDup (ts : list ScheduledTerm) (t : ScheduledTerm) :
  NoDup ((fun t => (year t, semester t)) <$> ts) -> t ∈ ts ->
  get_term_loop ts (year t) (semester t) = Some t.
Proof.
  intros Hnd Hin. destruct (get_term_loop ts (year t) (semester t)) as [t'|] eqn:E.
  - apply get_term_loop_Some in E as (pre & post & Hsplit & Hy & Hs & _).
    f_equal. apply list_elem_of_lookup in Hin as [i Hi].
    assert (ts !! length pre = Some t') as Hj.
    { rewrite Hsplit. by apply list_lookup_middle. }
    assert (i = length pre) as ->; [|congruence].
    eapply NoDup_lookup; [exact Hnd | |].
    + rewrite list_lookup_fmap, Hi. reflexivity.
    + rewrite list_lookup_fmap, Hj. simpl. by rewrite Hy, Hs.
  - apply get_term_loop_None in E. rewrite Forall_forall in E.
    by destruct (E t Hin).
Qed.

End TermIdCodec.

(** X3. [ScheduledTerm.term_id] is injective in (year, semester): two terms
    with the same id have the same year and the same semester. *)
Theorem term_id_injective (t1 t2 : ScheduledTerm) :
  term_id t1 = term_id t2 -> year t1 = year t2 /\ semester t1 = semester t2.
Proof.
  unfold term_id. intros H. apply str_app_inj in H as [Hy Hs].
  - split; [by apply (inj pretty) in Hy | by apply semester_codes_inj].
  - by rewrite !semester_codes_length.
Qed.

Lemma term_id_injective_witness :
  year {| year := 2025; semester := FALL; courses := [] |}
  = year (default {| year := 0; semester := SUMMER; courses := [] |}
            (head (terms one_term_schedule)))
  /\ semester {| year := 2025; semester := FALL; courses := [] |}
     = semester (default {| year := 0; semester := SUMMER; courses := [] |}
                   (head (terms one_term_schedule))).
Proof.
  apply (term_id_injective
           {| year := 2025; semester := FALL; courses := [] |}
           (default {| year := 0; semester := SUMMER; courses := [] |}
              (head (terms one_term_schedule)))).
  reflexivity.
Defined.

(** X4. The extractor's decoder inverts [term_id] on Fall, IAP and Spring
    terms whose year has four digits, and on nothing else among the usual
    ids: the id of a Summer term is never decoded (the code table has no
    SU entry), and neither is the id of a term of a year from 0 to 999. *)
Theorem parse_term_id_inverts_term_id (t : ScheduledTerm) :
  (1000 <= year t <= 9999 -> semester t ≠ SUMMER ->
   parse_term_id (term_id t) = Some (year t, semester t))
  /\ (semester t = SUMMER -> parse_term_id (term_id t) = None)
  /\ (0 <= year t < 1000 -> parse_term_id (term_id t) = None).
Proof.
  unfold term_id. split; [|split].
  - intros Hy Hs. by apply parse_term_id_str.
  - intros ->. apply parse_term_id_bad_code, summer_suffix_not_decoded.
  - intros Hy. pose proof short_years_range as H. rewrite forallb_forall in H.
    specialize (H (year t)). unfold short_year in H.
    rewrite !andb_true_iff, !bool_decide_eq_true in H.
    destruct H as [[HFA HSP] HIA]; [apply list_elem_of_In, elem_of_seqZ; lia|].
    destruct (semester t) eqn:Es.
    + unfold parse_term_id. simpl semester_codes. by rewrite HFA.
    + unfold parse_term_id. simpl semester_codes. by rewrite HIA.
    + unfold parse_term_id. simpl semester_codes. by rewrite HSP.
    + apply parse_term_id_bad_code, summer_suffix_not_decoded.
Qed.

(** X5. [Schedule.get_term] returns the first term of the schedule with the
    given year and semester, and nothing exactly when no term has them;
    in a schedule whose terms have pairwise distinct (year, semester)
    it finds every term from its own year and semester. *)
Theorem get_term_first_match (s : Schedule) (y : Z) (sem : Term) :
  (forall t, get_term s y sem = Some t
             <-> exists pre post, terms s = pre ++ t :: post
                   /\ year t = y /\ semester t = sem
                   /\ Forall (fun t' => ~ (year t' = y /\ semester t' = sem)) pre)
  /\ (get_term s y sem = None
      <-> forall t, t ∈ terms s -> ~ (year t = y /\ semester t = sem))
  /\ (NoDup ((fun t => (year t, semester t)) <$> terms s) ->
      forall t, t ∈ terms s -> get_term s (year t) (semester t) = Some t).
Proof.
  unfold get_term. split; [intros; apply get_term_loop_Some|]. split.
  - rewrite get_term_loop_None. apply Forall_forall.
  - intros Hnd t Hin. by apply get_term_loop_NoDup.
Qed.

(** ** The shape of generated schedules *)

Section GeneratedShape.

Lemma extract_terms_slots_eq (a : Var -> bool) (avail : list (string * Course))
    (y0 : Z) (i0 : nat) (ks : list nat) :
  (forall k, k ∈ ks ->
     parse_term_id (slot_term_id y0 i0 k)
     = Some (2024 + slot_year y0 i0 k, slot_semester i0 k)) ->
  extract_terms a avail.*1 avail (slot_term_id y0 i0 <$> ks)
  = Some (omap (slot_scheduled_term a avail y0 i0) ks).
Proof.
  induction ks as [|k ks IH]; intros Hp; [done|].
  rewrite fmap_cons. cbn [extract_terms].
  pose proof (Hp k (list_elem_of_here _ _)) as Hk.
  assert (extract_terms a avail.*1 avail (slot_term_id y0 i0 <$> ks)
          = Some (omap (slot_scheduled_term a avail y0 i0) ks)) as Hks.
  { apply IH. intros k' Hk'. by apply Hp, list_elem_of_further. }
  rewrite Hk, Hks. cbn [mbind option_bind option_ret fst snd].
  change (omap (slot_scheduled_term a avail y0 i0) (k :: ks))
    with (match slot_scheduled_term a avail y0 i0 k with
          | Some st => st :: omap (slot_scheduled_term a avail y0 i0) ks
          | None => omap (slot_scheduled_term a avail y0 i0) ks
          end).
  unfold slot_scheduled_term at 3.
  by destruct (courses_in_term a avail.*1 avail (slot_term_id y0 i0 k) _ _).
Qed.

Lemma solve_success_slots (Solve : CpModel -> option (Var -> bool))
    (settings : Settings) (p : StudentProfile) (reqs : list Requirement)
    (avail : list (string * Course)) (off : gmap string (list string))
    (prefs : option (gmap string Q))
    (log : list LogMessage) (sched : Schedule) (score : Q) :
  four_digit_horizon settings p ->
  solve Solve settings p reqs avail off prefs = (log, Some (Some sched, score)) ->
  exists i0 a,
    semester_order (sp_semester p) = Some i0
    /\ Solve (build_model settings p reqs avail off (preferences_or prefs p)
                (walk_terms (sp_year p) i0 (Z.to_nat (SOLVER_MAX_TERMS settings))))
       = Some a
    /\ sched = {| student_id := sp_id p;
                  terms := omap (slot_scheduled_term a avail (sp_year p) i0)
                             (planned_slots i0 (Z.to_nat (SOLVER_MAX_TERMS settings))) |}
    /\ score = _calculate_score sched (preferences_or prefs p).
Proof.
  intros [Hlo Hhi]. unfold solve.
  destruct (semester_order (sp_semester p)) as [i0|] eqn:Eo;
    [|by unfold _generate_terms; rewrite Eo].
  pose proof (semester_order_lt _ _ Eo) as [Hi0 _].
  rewrite (generate_terms_eq settings p i0 Eo).
  destruct (Solve _) as [a|] eqn:Es; [|done].
  unfold _extract_schedule, walk_terms. rewrite extract_terms_slots_eq.
  - simpl. intros [= <- <- <-]. by exists i0, a.
  - intros k Hk. unfold planned_slots in Hk.
    apply list_elem_of_filter in Hk as [_ Hk]. apply elem_of_seq in Hk.
    apply (slot_term_id_parse _ _ (Z.to_nat (SOLVER_MAX_TERMS settings))); lia.
Qed.

Lemma slot_scheduled_term_Some (a : Var -> bool) (avail : list (string * Course))
    (y0 : Z) (i0 k : nat) (st : ScheduledTerm) :
  slot_scheduled_term a avail y0 i0 k = Some st ->
  year st = 2024 + slot_year y0 i0 k /\ semester st = slot_semester i0 k
  /\ courses st ≠ []
  /\ courses st = courses_in_term a avail.*1 avail (slot_term_id y0 i0 k)
                    (2024 + slot_year y0 i0 k) (slot_semester i0 k)
  /\ term_id st = slot_term_id y0 i0 k.
Proof.
  unfold slot_scheduled_term.
  destruct (courses_in_term _ _ _ _ _ _) as [|c cs] eqn:E; [done|].
  intros [= <-]. by repeat split.
Qed.

Lemma StronglySorted_omap {A B} (R : relation A) (R' : relation B)
    (g : A -> option B) (l : list A) :
  (forall x y x' y', R x y -> g x = Some x' -> g y = Some y' -> R' x' y') ->
  StronglySorted R l -> StronglySorted R' (omap g l).
Proof.
  intros Hg. induction 1 as [|x l Hl IH Hx]; [constructor|].
  simpl. destruct (g x) as [x'|] eqn:Ex; [|done].
  constructor; [done|]. apply Forall_forall. intros y' Hy'.
  apply list_elem_of_omap in Hy' as (y & Hy & Hgy).
  rewrite Forall_forall in Hx. eapply Hg; [by apply Hx | done | done].
Qed.

Lemma slot_terms_strictly_earlier (a : Var -> bool) (avail : list (string * Course))
    (y0 : Z) (i0 k k' : nat) (st st' : ScheduledTerm) :
  (k < k')%nat ->
  slot_scheduled_term a avail y0 i0 k = Some st ->
  slot_scheduled_term a avail y0 i0 k' = Some st' ->
  strictly_earlier st st'.
Proof.
  intros Hlt Hs Hs'.
  apply slot_scheduled_term_Some in Hs as (Hy & Hsem & _).
  apply slot_scheduled_term_Some in Hs' as (Hy' & Hsem' & _).
  apply (tuple_lt_strictly_earlier st st' ((i0 + k) mod 3) ((i0 + k') mod 3)).
  - rewrite Hsem. apply slot_semester_order.
  - rewrite Hsem'. apply slot_semester_order.
  - rewrite Hy, Hy'. by apply slot_key_lt.
Qed.

Lemma slot_terms_sublist (a : Var -> bool) (avail : list (string * Course))
    (y0 : Z) (i0 : nat) (ks : list nat) :
  sublist (term_id <$> omap (slot_scheduled_term a avail y0 i0) ks)
          (slot_term_id y0 i0 <$> ks).
Proof.
  induction ks as [|k ks IH]; [constructor|].
  change (omap (slot_scheduled_term a avail y0 i0) (k :: ks))
    with (match slot_scheduled_term a avail y0 i0 k with
          | Some st => st :: omap (slot_scheduled_term a avail y0 i0) ks
          | None => omap (slot_scheduled_term a avail y0 i0) ks
          end).
  rewrite (fmap_cons (slot_term_id y0 i0)).
  destruct (slot_scheduled_term a avail y0 i0 k) as [st|] eqn:Es.
  - apply slot_scheduled_term_Some in Es as (_ & _ & _ & _ & Hid).
    rewrite fmap_cons, Hid. by apply sublist_skip.
  - by apply sublist_cons.
Qed.

Lemma strictly_earlier_keys (st st' : ScheduledTerm) :
  strictly_earlier st st' -> (year st, semester st) ≠ (year st', semester st').
Proof. unfold strictly_earlier. intros H [= Hy Hs]. rewrite Hy, Hs in H. lia. Qed.

Lemma StronglySorted_NoDup_keys {A B} (R : relation A) (key : A -> B) (l : list A) :
  (forall x y, R x y -> key x ≠ key y) ->
  StronglySorted R l -> NoDup (key <$> l).
Proof.
  intros HR. induction 1 as [|x l Hl IH Hx]; simpl; constructor; [|done].
  intros Hin. apply list_elem_of_fmap in Hin as (y & Hk & Hy).
  rewrite Forall_forall in Hx. by apply (HR x y (Hx y Hy)).
Qed.

End GeneratedShape.

(** X6. Shape of a generated schedule.  When [solve] returns a schedule
    (planned years of four digits): no term is empty; every scheduled
    course comes from the course map, carries the id, year and semester of
    its term and no meeting time, is taken by the solution in that term
    and has a planned term; so no term has a time conflict. *)
Theorem generated_schedule_shape (Solve : CpModel -> option (Var -> bool))
    (settings : Settings) (p : StudentProfile) (reqs : list Requirement)
    (avail : list (string * Course)) (off : gmap string (list string))
    (prefs : option (gmap string Q))
    (log : list LogMessage) (sched : Schedule) (score : Q) :
  four_digit_horizon settings p ->
  solve Solve settings p reqs avail off prefs = (log, Some (Some sched, score)) ->
  student_id sched = sp_id p
  /\ exists planned,
      _generate_terms settings p = Some planned
      /\ forall st, st ∈ terms sched ->
           courses st ≠ [] /\ term_id st ∈ planned /\ semester st ≠ IAP
           /\ semester st ≠ SUMMER /\ has_conflicts st = []
           /\ forall sc, sc ∈ courses st ->
                term sc = term_id st /\ sc_year sc = year st
                /\ sc_semester sc = semester st /\ meeting_times sc = []
                /\ exists k, (k, course sc) ∈ avail.
Proof.
  intros Hfour Hsolve.
  destruct (solve_success_slots _ _ _ _ _ _ _ _ _ _ Hfour Hsolve)
    as (i0 & a & Eo & _ & -> & _).
  split; [done|]. eexists. split; [by apply generate_terms_eq|].
  intros st Hst. simpl in Hst. apply list_elem_of_omap in Hst as (k & Hk & Hs).
  apply slot_scheduled_term_Some in Hs as (Hy & Hsem & Hne & Hcs & Hid).
  assert (forall sc, sc ∈ courses st ->
            term sc = term_id st /\ sc_year sc = year st
            /\ sc_semester sc = semester st /\ meeting_times sc = []
            /\ exists k, (k, course sc) ∈ avail) as Hall.
  { intros sc Hsc. rewrite Hcs in Hsc.
    apply courses_in_term_elem in Hsc as (kc & c & Hkc & _ & _ & ->). simpl.
    rewrite Hid, Hy, Hsem. repeat split; try done. by exists kc. }
  split; [done|]. split.
  { rewrite Hid. unfold walk_terms. apply list_elem_of_fmap. by exists k. }
  split.
  { rewrite Hsem. unfold planned_slots in Hk. by apply list_elem_of_filter in Hk as [? _]. }
  split; [rewrite Hsem; apply slot_semester_not_summer|].
  split; [|done]. unfold has_conflicts. apply has_conflicts_list_no_meetings.
  apply Forall_forall. intros sc Hsc. by apply Hall.
Qed.

Lemma generated_schedule_shape_witness :
  exists log sched score,
    solve (candidate_engine P_always_C_second) default_settings freshman_fall []
      catalogue_PC ∅ None = (log, Some (Some sched, score))
    /\ student_id sched = sp_id freshman_fall
    /\ exists planned,
        _generate_terms default_settings freshman_fall = Some planned
        /\ forall st, st ∈ terms sched ->
             courses st ≠ [] /\ term_id st ∈ planned /\ semester st ≠ IAP
             /\ semester st ≠ SUMMER /\ has_conflicts st = []
             /\ forall sc, sc ∈ courses st ->
                  term sc = term_id st /\ sc_year sc = year st
                  /\ sc_semester sc = semester st /\ meeting_times sc = []
                  /\ exists k, (k, course sc) ∈ catalogue_PC.
Proof.
  eexists _, _, _.
  assert (four_digit_horizon default_settings freshman_fall) as Hfour
    by (apply four_digit_horizon_default; simpl; lia).
  match goal with
  | |- ?S = ?R /\ _ => assert (S = R) as Hs by (vm_compute; reflexivity)
  end.
  split; [exact Hs|].
  exact (generated_schedule_shape (candidate_engine P_always_C_second) default_settings
           freshman_fall [] catalogue_PC ∅ None _ _ _ Hfour Hs).
Defined.

(** X7. Order of a generated schedule.  When [solve] returns a schedule
    (planned years of four digits) its terms are in strictly increasing
    chronological order (by year, then Fall < IAP < Spring), their ids
    follow the order of the planned terms, and [get_term] finds every
    term from its own year and semester. *)
Theorem generated_schedule_chronological (Solve : CpModel -> option (Var -> bool))
    (settings : Settings) (p : StudentProfile) (reqs : list Requirement)
    (avail : list (string * Course)) (off : gmap string (list string))
    (prefs : option (gmap string Q))
    (log : list LogMessage) (sched : Schedule) (score : Q) :
  four_digit_horizon settings p ->
  solve Solve settings p reqs avail off prefs = (log, Some (Some sched, score)) ->
  StronglySorted strictly_earlier (terms sched)
  /\ (exists planned, _generate_terms settings p = Some planned
                      /\ sublist (term_id <$> terms sched) planned)
  /\ forall st, st ∈ terms sched -> get_term sched (year st) (semester st) = Some st.
Proof.
  intros Hfour Hsolve.
  destruct (solve_success_slots _ _ _ _ _ _ _ _ _ _ Hfour Hsolve)
    as (i0 & a & Eo & _ & -> & _).
  simpl terms.
  set (n := Z.to_nat (SOLVER_MAX_TERMS settings)).
  assert (StronglySorted strictly_earlier
            (omap (slot_scheduled_term a avail (sp_year p) i0) (planned_slots i0 n)))
    as Hsorted.
  { apply (StronglySorted_omap lt).
    - intros k k' st st' Hlt. by apply slot_terms_strictly_earlier.
    - unfold planned_slots. apply filter_strongly_sorted, seq_strongly_sorted. }
  split; [done|]. split.
  - eexists. split; [by apply generate_terms_eq|].
    apply slot_terms_sublist.
  - intros st Hst. unfold get_term. simpl terms. apply get_term_loop_NoDup; [|done].
    apply (StronglySorted_NoDup_keys strictly_earlier); [|done].
    apply strictly_earlier_keys.
Qed.

Lemma generated_schedule_chronological_witness :
  exists log sched score,
    solve (candidate_engine P_always_C_second) default_settings freshman_fall []
      catalogue_PC ∅ None = (log, Some (Some sched, score))
    /\ StronglySorted strictly_earlier (terms sched)
    /\ (exists planned, _generate_terms default_settings freshman_fall = Some planned
                        /\ sublist (term_id <$> terms sched) planned)
    /\ forall st, st ∈ terms sched -> get_term sched (year st) (semester st) = Some st.
Proof.
  eexists _, _, _.
  assert (four_digit_horizon default_settings freshman_fall) as Hfour
    by (apply four_digit_horizon_default; simpl; lia).
  match goal with
  | |- ?S = ?R /\ _ => assert (S = R) as Hs by (vm_compute; reflexivity)
  end.
  split; [exact Hs|].
  exact (generated_schedule_chronological (candidate_engine P_always_C_second)
           default_settings freshman_fall [] catalogue_PC ∅ None _ _ _ Hfour Hs).
Defined.

(** ** Generated schedules against the constraints of the model *)

Section GeneratedConstraints.

Lemma build_model_forbids_unknown_prerequisite (settings : Settings)
    (p : StudentProfile) (reqs : list Requirement) (avail : list (string * Course))
    (off : gmap string (list string)) (prefs : gmap string Q) (terms : list string)
    (a : Var -> bool) (t k : string) (crs : Course) (q : string) :
  (k, crs) ∈ avail -> q ∈ prerequisites crs -> q ∉ completed_courses p ->
  q ∉ avail.*1 -> t ∈ terms ->
  satisfies a (build_model settings p reqs avail off prefs terms) = true ->
  a (CourseVar k t) = false.
Proof.
  intros Hk Hq Hnc Hnin Ht Hsat. apply holds_forbid.
  apply (satisfies_elem a _ _ Hsat).
  unfold build_model. rewrite add_objective_constraints.
  apply foldl_extends; [intros; apply unit_step_extends|].
  apply add_offering_extends. by eapply add_prerequisite_elem_forbid.
Qed.

(** A course the solution takes in a planned slot is in the schedule, in
    the term of that slot. *)
Lemma slot_scheduled_term_taken (a : Var -> bool) (avail : list (string * Course))
    (y0 : Z) (i0 k : nat) (c : string) (crs : Course) :
  (c, crs) ∈ avail -> a (CourseVar c (slot_term_id y0 i0 k)) = true ->
  exists st sc, slot_scheduled_term a avail y0 i0 k = Some st
                /\ sc ∈ courses st /\ course sc = crs.
Proof.
  intros Hin Ha.
  assert ({| course := crs; term := slot_term_id y0 i0 k;
             sc_year := 2024 + slot_year y0 i0 k; sc_semester := slot_semester i0 k;
             meeting_times := [] |}
          ∈ courses_in_term a avail.*1 avail (slot_term_id y0 i0 k)
              (2024 + slot_year y0 i0 k) (slot_semester i0 k)) as Hsc.
  { apply courses_in_term_elem. exists c, crs. repeat split; try done.
    by apply (key_in_course_vars avail c crs). }
  unfold slot_scheduled_term.
  destruct (courses_in_term _ _ _ _ _ _) as [|sc0 cs] eqn:E;
    [by apply elem_of_nil in Hsc|].
  eexists _, _. split; [done|]. split; [exact Hsc | done].
Qed.

Lemma slot_scheduled_term_course (a : Var -> bool) (avail : list (string * Course))
    (y0 : Z) (i0 k : nat) (st : ScheduledTerm) (sc : ScheduledCourse) :
  slot_scheduled_term a avail y0 i0 k = Some st -> sc ∈ courses st ->
  exists c, (c, course sc) ∈ avail /\ a (CourseVar c (slot_term_id y0 i0 k)) = true.
Proof.
  intros Hs Hsc. apply slot_scheduled_term_Some in Hs as (_ & _ & _ & Hcs & _).
  rewrite Hcs in Hsc. apply courses_in_term_elem in Hsc as (c & crs & Hin & _ & Ha & ->).
  by exists c.
Qed.

Lemma all_courses_elem (sched : Schedule) (q : string) :
  q ∈ all_courses sched
  <-> exists st sc, st ∈ terms sched /\ sc ∈ courses st /\ id (course sc) = q.
Proof.
  unfold all_courses. rewrite list_elem_of_join. split.
  - intros (l & Hq & Hl). apply list_elem_of_fmap in Hl as (st & -> & Hst).
    apply list_elem_of_fmap in Hq as (sc & -> & Hsc). by exists st, sc.
  - intros (st & sc & Hst & Hsc & <-).
    exists ((fun c => id (course c)) <$> courses st). split.
    + apply list_elem_of_fmap. by exists sc.
    + apply list_elem_of_fmap. by exists st.
Qed.

End GeneratedConstraints.

(** X8. Prerequisites in a generated schedule.  When [solve] returns a
    schedule (sound engine, planned years of four digits, course map keyed
    by course id), every prerequisite of a scheduled course that the
    student has not completed is a course of the map, and, unless the
    course sits in the first planned term, the prerequisite is scheduled
    in a strictly earlier term. *)
Theorem generated_prerequisites_precede (Solve : CpModel -> option (Var -> bool))
    (settings : Settings) (p : StudentProfile) (reqs : list Requirement)
    (avail : list (string * Course)) (off : gmap string (list string))
    (prefs : option (gmap string Q))
    (log : list LogMessage) (sched : Schedule) (score : Q) :
  engine_sound Solve -> four_digit_horizon settings p -> keys_are_ids avail ->
  solve Solve settings p reqs avail off prefs = (log, Some (Some sched, score)) ->
  exists planned,
    _generate_terms settings p = Some planned
    /\ forall st sc q,
         st ∈ terms sched -> sc ∈ courses st ->
         q ∈ prerequisites (course sc) -> q ∉ completed_courses p ->
         q ∈ avail.*1
         /\ (head planned ≠ Some (term_id st) -> taken_earlier sched st q).
Proof.
  intros Hsound Hfour Hids Hsolve.
  destruct (solve_success_slots _ _ _ _ _ _ _ _ _ _ Hfour Hsolve)
    as (i0 & a & Eo & Hs & -> & _).
  apply Hsound in Hs.
  set (n := Z.to_nat (SOLVER_MAX_TERMS settings)) in *.
  eexists. split; [by apply generate_terms_eq|].
  intros st sc q Hst Hsc Hq Hnc. simpl in Hst.
  apply list_elem_of_omap in Hst as (k & Hk & Hsome).
  destruct (slot_scheduled_term_course _ _ _ _ _ _ _ Hsome Hsc) as (c & Hin & Ha).
  pose proof (slot_scheduled_term_Some _ _ _ _ _ _ Hsome) as (_ & _ & _ & _ & Hid).
  apply list_elem_of_split in Hk as (pre & post & Hsplit).
  assert (walk_terms (sp_year p) i0 n
          = (slot_term_id (sp_year p) i0 <$> pre)
            ++ slot_term_id (sp_year p) i0 k :: (slot_term_id (sp_year p) i0 <$> post))
    as Hwalk.
  { unfold walk_terms. fold n. by rewrite Hsplit, fmap_app, fmap_cons. }
  assert (q ∈ avail.*1) as Hqin.
  { destruct (decide (q ∈ avail.*1)) as [|Hnin]; [done|]. exfalso.
    assert (a (CourseVar c (slot_term_id (sp_year p) i0 k)) = false) as Hf;
      [|congruence].
    eapply build_model_forbids_unknown_prerequisite; [exact Hin | exact Hq | | | | exact Hs];
      try done.
    rewrite Hwalk. apply elem_of_app. right. left. }
  split; [done|]. intros Hhead.
  assert (pre ≠ []) as Hpre.
  { intros ->. apply Hhead. unfold walk_terms. fold n. rewrite Hsplit. simpl.
    by rewrite Hid. }
  destruct (build_model_precedence settings p reqs avail off (preferences_or prefs p)
              (walk_terms (sp_year p) i0 n) a _ _ _ c (course sc) q Hwalk)
    as (_ & t' & Ht' & Ha'); try done.
  { by destruct pre. }
  apply list_elem_of_fmap in Ht' as (k' & -> & Hk').
  apply list_elem_of_fmap in Hqin as ([q' cq] & Hq' & Hcq). simpl in Hq'. subst q'.
  destruct (slot_scheduled_term_taken a avail (sp_year p) i0 k' q cq Hcq Ha')
    as (st' & sc' & Hsome' & Hsc' & Hcourse).
  exists st', sc'. split; [|split; [|split]].
  - simpl. apply list_elem_of_omap. exists k'. split; [|done].
    fold n. rewrite Hsplit. apply elem_of_app. by left.
  - apply (slot_terms_strictly_earlier a avail (sp_year p) i0 k' k); try done.
    by apply (planned_slots_split i0 n pre post k Hsplit).
  - done.
  - rewrite Hcourse. by apply Hids.
Qed.

Lemma generated_prerequisites_precede_witness :
  exists log sched score planned,
    solve (candidate_engine P_always_C_second) default_settings freshman_fall []
      catalogue_PC ∅ None = (log, Some (Some sched, score))
    /\ _generate_terms default_settings freshman_fall = Some planned
    /\ forall st sc q,
         st ∈ terms sched -> sc ∈ courses st ->
         q ∈ prerequisites (course sc) -> q ∉ completed_courses freshman_fall ->
         q ∈ catalogue_PC.*1
         /\ (head planned ≠ Some (term_id st) -> taken_earlier sched st q).
Proof.
  eexists _, _, _.
  assert (keys_are_ids catalogue_PC) as Hids by (by apply (bool_decide_unpack _)).
  assert (four_digit_horizon default_settings freshman_fall) as Hfour
    by (apply four_digit_horizon_default; simpl; lia).
  match goal with
  | |- exists planned, ?S = ?R /\ _ =>
      assert (S = R) as Hs by (vm_compute; reflexivity)
  end.
  destruct (generated_prerequisites_precede (candidate_engine P_always_C_second)
              default_settings freshman_fall [] catalogue_PC ∅ None _ _ _
              (candidate_engine_sound _) Hfour Hids Hs) as (planned & Hg & He).
  exists planned. split; [exact Hs|]. split; [exact Hg | exact He].
Defined.

(** ** Requirements in the model and in the validator *)

Section RequirementCoverage.

Lemma foldl_step_constraints {A} (f : CpModel -> A -> CpModel) (l : list A)
    (m : CpModel) (x : A) :
  (forall m x, constraints m ⊆ constraints (f m x)) ->
  x ∈ l -> exists m0, constraints (f m0 x) ⊆ constraints (foldl f m l).
Proof.
  intros Hf Hx. revert m. induction l as [|y l IH]; intros m.
  - by apply elem_of_nil in Hx.
  - simpl. apply elem_of_cons in Hx as [<- | Hx].
    + exists m. by apply foldl_extends.
    + by apply IH.
Qed.

Lemma eval_taken_vars_pos (a : Var -> bool) (vars : list Var) :
  1 <= eval a ((fun v => (1, v)) <$> vars) -> exists v, v ∈ vars /\ a v = true.
Proof.
  induction vars as [|v vars IH].
  - unfold eval. simpl. lia.
  - rewrite fmap_cons. unfold eval in *. cbn [foldr fst snd].
    unfold value at 1. destruct (a v) eqn:E.
    + intros _. exists v. split; [left | done].
    + intros H. destruct IH as (v' & Hin & Hv'); [lia|].
      exists v'. split; [by right | done].
Qed.

(** Every [taken] variable of the loop guards the constraint of one
    allowed course of the course map. *)
Lemma taken_loop_guards (cv terms allowed : list string) (st : list Var * CpModel)
    (v : Var) :
  v ∈ (foldl (taken_step cv terms) st allowed).1 ->
  v ∈ st.1
  \/ exists c, c ∈ allowed /\ c ∈ cv
       /\ {| c_lhs := sum_over_terms c terms; c_rel := Ge; c_rhs := 1;
             c_only_enforce_if := Some v |}
          ∈ constraints (foldl (taken_step cv terms) st allowed).2.
Proof.
  revert st. induction allowed as [|c allowed IH]; intros st; simpl; [by left|].
  intros Hv. destruct (IH _ Hv) as [Hst | (c' & Hc' & Hcv & Hin)].
  - unfold taken_step in Hst. case_bool_decide as Hc; [|by left].
    simpl in Hst. apply elem_of_app in Hst as [Hst | Hst]; [by left|].
    apply list_elem_of_singleton in Hst. subst v. right. exists c.
    split; [left|]. split; [done|].
    apply taken_loop_extends. unfold taken_step.
    rewrite bool_decide_eq_true_2 by done. simpl. apply Add_elem.
  - right. exists c'. split; [by right | done].
Qed.

Lemma taken_loop_nonempty (cv terms allowed : list string) (st : list Var * CpModel)
    (c : string) :
  c ∈ allowed -> c ∈ cv -> (foldl (taken_step cv terms) st allowed).1 ≠ [].
Proof.
  assert (forall l st, st.1 ≠ [] -> (foldl (taken_step cv terms) st l).1 ≠ []) as Hkeep.
  { induction l as [|x l IH]; intros st' Hne; simpl; [done|]. apply IH.
    unfold taken_step. case_bool_decide; [|done]. simpl. by destruct (st'.1). }
  revert st. induction allowed as [|x allowed IH]; intros st Hc Hcv; simpl.
  - by apply elem_of_nil in Hc.
  - apply elem_of_cons in Hc as [<- | Hc]; [|by apply IH].
    apply Hkeep. unfold taken_step. rewrite bool_decide_eq_true_2 by done.
    simpl. by destruct (st.1).
Qed.

(** What a satisfied specific-course requirement step forces. *)
Lemma requirement_step_specific (cv terms : list string)
    (avail : list (string * Course)) (m0 m : CpModel) (req : Requirement)
    (a : Var -> bool) (c0 : string) :
  rule_type req = SPECIFIC_COURSE ->
  c0 ∈ default [] (courses_allowed req) -> c0 ∈ cv ->
  constraints (requirement_step cv terms avail m0 req) ⊆ constraints m ->
  satisfies a m = true ->
  exists c t, c ∈ default [] (courses_allowed req) /\ c ∈ cv /\ t ∈ terms
              /\ a (CourseVar c t) = true.
Proof.
  intros Hrule Hc0 Hcv Hsub Hsat. unfold requirement_step in Hsub.
  rewrite Hrule in Hsub.
  assert (truthy_list (courses_allowed req) = true) as Htr.
  { destruct (courses_allowed req) as [[|x l]|]; simpl in Hc0; try done;
      by apply elem_of_nil in Hc0. }
  rewrite Htr in Hsub.
  pose proof (taken_loop_nonempty cv terms _ ([], m0) c0 Hc0 Hcv) as Hne.
  pose proof (fun v => taken_loop_guards cv terms (default [] (courses_allowed req))
                         ([], m0) v) as Hg.
  destruct (foldl (taken_step cv terms) ([], m0) (default [] (courses_allowed req)))
    as [vars m1]. simpl in Hne, Hg.
  destruct vars as [|v0 vars]; [done|].
  assert (holds a {| c_lhs := (fun v => (1, v)) <$> v0 :: vars; c_rel := Ge;
                     c_rhs := 1; c_only_enforce_if := None |} = true) as Hsum.
  { apply (satisfies_elem a m); [done|]. apply Hsub, Add_elem. }
  unfold holds in Hsum. simpl in Hsum. apply Z.leb_le in Hsum.
  destruct (eval_taken_vars_pos a (v0 :: vars)) as (v & Hv & Hav); [exact Hsum|].
  destruct (Hg v Hv) as [Hnil | (c & Hc & Hccv & Hin)];
    [by apply elem_of_nil in Hnil|].
  assert (holds a {| c_lhs := sum_over_terms c terms; c_rel := Ge; c_rhs := 1;
                     c_only_enforce_if := Some v |} = true) as Hc1.
  { apply (satisfies_elem a m); [done|]. by apply Hsub, Add_extends. }
  unfold holds in Hc1. simpl in Hc1. rewrite Hav in Hc1. simpl in Hc1.
  apply Z.leb_le in Hc1.
  destruct (eval_sum_over_terms_pos a c terms Hc1) as (t & Ht & Hat).
  by exists c, t.
Qed.

Lemma build_model_requirement_step (settings : Settings) (p : StudentProfile)
    (reqs : list Requirement) (avail : list (string * Course))
    (off : gmap string (list string)) (prefs : gmap string Q) (terms : list string)
    (req : Requirement) :
  req ∈ reqs ->
  exists m0, constraints (requirement_step avail.*1 terms avail m0 req)
             ⊆ constraints (build_model settings p reqs avail off prefs terms).
Proof.
  intros Hreq.
  destruct (foldl_step_constraints (requirement_step avail.*1 terms avail) reqs
              new_model req) as (m0 & Hm0); [apply requirement_step_extends | done |].
  exists m0. etrans; [exact Hm0|].
  unfold build_model. rewrite add_objective_constraints.
  etrans; [|apply foldl_extends; intros; apply unit_step_extends].
  etrans; [|apply add_offering_extends]. apply add_prerequisite_extends.
Qed.

End RequirementCoverage.

(** X9. Specific-course requirements of a generated schedule.  When
    [solve] returns a schedule (sound engine, planned years of four digits,
    course map keyed by course id) and a requirement of the call has rule
    type specific_course: if at least one of its allowed courses is in the
    course map, the validator's [_check_requirement] finds the requirement
    satisfied by the schedule; if none is, it finds it unsatisfied, although
    the generation succeeded. *)
Theorem generated_specific_course_requirements
    (Solve : CpModel -> option (Var -> bool))
    (settings : Settings) (p : StudentProfile) (reqs : list Requirement)
    (avail : list (string * Course)) (off : gmap string (list string))
    (prefs : option (gmap string Q))
    (log : list LogMessage) (sched : Schedule) (score : Q) :
  engine_sound Solve -> four_digit_horizon settings p -> keys_are_ids avail ->
  solve Solve settings p reqs avail off prefs = (log, Some (Some sched, score)) ->
  forall req, req ∈ reqs -> rule_type req = SPECIFIC_COURSE ->
    ((exists c, c ∈ default [] (courses_allowed req) /\ c ∈ avail.*1) ->
     _check_requirement req (all_courses sched) avail = true)
    /\ ((forall c, c ∈ default [] (courses_allowed req) -> c ∉ avail.*1) ->
        _check_requirement req (all_courses sched) avail = false).
Proof.
  intros Hsound Hfour Hids Hsolve req Hreq Hrule.
  destruct (solve_success_slots _ _ _ _ _ _ _ _ _ _ Hfour Hsolve)
    as (i0 & a & Eo & Hs & -> & _).
  apply Hsound in Hs.
  set (n := Z.to_nat (SOLVER_MAX_TERMS settings)) in *.
  set (sched := {| student_id := sp_id p;
                   terms := omap (slot_scheduled_term a avail (sp_year p) i0)
                                 (planned_slots i0 n) |}).
  split.
  - intros (c0 & Hc0 & Hcv).
    destruct (build_model_requirement_step settings p reqs avail off
                (preferences_or prefs p) (walk_terms (sp_year p) i0 n) req Hreq)
      as (m0 & Hm0).
    destruct (requirement_step_specific _ _ _ _ _ _ a c0 Hrule Hc0 Hcv Hm0 Hs)
      as (c & t & Hc & Hccv & Ht & Ha).
    unfold walk_terms in Ht. apply list_elem_of_fmap in Ht as (k & -> & Hk).
    apply list_elem_of_fmap in Hccv as ([c' crs] & Hc' & Hin). simpl in Hc'. subst c'.
    destruct (slot_scheduled_term_taken a avail (sp_year p) i0 k c crs Hin Ha)
      as (st & sc & Hsome & Hsc & Hcourse).
    assert (c ∈ all_courses sched) as Hall.
    { apply all_courses_elem. exists st, sc. split; [|split; [done|]].
      - simpl. apply list_elem_of_omap. by exists k.
      - rewrite Hcourse. by apply Hids. }
    unfold _check_requirement. rewrite Hrule.
    destruct (courses_allowed req) as [[|x l]|] eqn:Eal; simpl in Hc;
      try by apply elem_of_nil in Hc.
    cbn [truthy_list default]. apply existsb_exists. exists c. split.
    + by apply list_elem_of_In.
    + by apply bool_decide_eq_true_2.
  - intros Hnone. unfold _check_requirement. rewrite Hrule.
    destruct (truthy_list (courses_allowed req)); [|done].
    apply not_true_is_false. intros Hex. apply existsb_exists in Hex as (c & Hc & Hin).
    apply list_elem_of_In in Hc. apply bool_decide_eq_true in Hin.
    apply (Hnone c Hc). apply all_courses_elem in Hin as (st & sc & Hst & Hsc & <-).
    simpl in Hst. apply list_elem_of_omap in Hst as (k & Hk & Hsome).
    destruct (slot_scheduled_term_course _ _ _ _ _ _ _ Hsome Hsc) as (c' & Hin' & _).
    rewrite (Hids _ _ Hin'). by apply (key_in_course_vars avail c' (course sc)).
Qed.

Lemma generated_specific_course_requirements_witness :
  exists log sched score,
    solve (candidate_engine all_taken) default_settings freshman_fall
      [requirement_A_or_X] catalogue_A48 ∅ None = (log, Some (Some sched, score))
    /\ ((exists c, c ∈ default [] (courses_allowed requirement_A_or_X)
                   /\ c ∈ catalogue_A48.*1) ->
        _check_requirement requirement_A_or_X (all_courses sched) catalogue_A48 = true)
    /\ ((forall c, c ∈ default [] (courses_allowed requirement_A_or_X) ->
                   c ∉ catalogue_A48.*1) ->
        _check_requirement requirement_A_or_X (all_courses sched) catalogue_A48 = false).
Proof.
  eexists _, _, _.
  assert (keys_are_ids catalogue_A48) as Hids by (by apply (bool_decide_unpack _)).
  assert (four_digit_horizon default_settings freshman_fall) as Hfour
    by (apply four_digit_horizon_default; simpl; lia).
  assert (requirement_A_or_X ∈ [requirement_A_or_X]) as Hin by left.
  match goal with
  | |- ?S = ?R /\ _ => assert (S = R) as Hs by (vm_compute; reflexivity)
  end.
  split; [exact Hs|].
  exact (generated_specific_course_requirements (candidate_engine all_taken)
           default_settings freshman_fall [requirement_A_or_X] catalogue_A48 ∅ None
           _ _ _ (candidate_engine_sound _) Hfour Hids Hs requirement_A_or_X Hin eq_refl).
Defined.

(** ** Unit warnings on generated schedules, and the outcomes of [solve] *)

Section GeneratedUnits.

Lemma generated_term_unit_bounds (settings : Settings) (p : StudentProfile)
    (reqs : list Requirement) (avail : list (string * Course))
    (off : gmap string (list string)) (prefs : gmap string Q)
    (a : Var -> bool) (i0 n k : nat) (st : ScheduledTerm) :
  satisfies a (build_model settings p reqs avail off prefs
                 (walk_terms (sp_year p) i0 n)) = true ->
  k ∈ planned_slots i0 n ->
  slot_scheduled_term a avail (sp_year p) i0 k = Some st ->
  12 <= total_units st <= max_units_of settings p.
Proof.
  intros Hs Hk Hsome.
  pose proof (slot_scheduled_term_Some _ _ _ _ _ _ Hsome) as (Hy & Hsem & Hne & Hcs & _).
  assert (total_units st = unit_load a avail (slot_term_id (sp_year p) i0 k)) as ->.
  { rewrite <- (total_units_extracted a avail (slot_term_id (sp_year p) i0 k)
                  (2024 + slot_year (sp_year p) i0 k) (slot_semester i0 k)).
    unfold total_units. simpl. by rewrite Hcs. }
  apply (build_model_unit_bounds settings p reqs avail off prefs
           (walk_terms (sp_year p) i0 n)); [| |done].
  - intros ->. apply Hne. by rewrite Hcs.
  - unfold walk_terms. apply list_elem_of_fmap. by exists k.
Qed.

End GeneratedUnits.

(** X10. Unit warnings of a generated schedule.  When [solve] returns a
    schedule (sound engine, planned years of four digits), every warning
    of its validation is either a below-load warning for a term of at
    least 12 units, or an over-limit warning for a term within the limit the model
    enforced, the student's own max_units_per_term. *)
Theorem generated_unit_warnings (Solve : CpModel -> option (Var -> bool))
    (settings : Settings) (p : StudentProfile) (reqs : list Requirement)
    (avail : list (string * Course)) (off : gmap string (list string))
    (prefs : option (gmap string Q))
    (log : list LogMessage) (sched : Schedule) (score : Q)
    (reqs' : list Requirement) (avail' : list (string * Course)) :
  engine_sound Solve -> four_digit_horizon settings p ->
  solve Solve settings p reqs avail off prefs = (log, Some (Some sched, score)) ->
  forall w, w ∈ warnings (validate_schedule settings sched reqs' avail') ->
    (exists t total,
        w = BelowUnitLoad t total (DEFAULT_MIN_UNITS_PER_TERM settings)
        /\ 12 <= total < DEFAULT_MIN_UNITS_PER_TERM settings)
    \/ (exists t total,
          w = ExceedsUnitLimit t total (DEFAULT_MAX_UNITS_PER_TERM settings)
          /\ DEFAULT_MAX_UNITS_PER_TERM settings < total <= max_units_of settings p).
Proof.
  intros Hsound Hfour Hsolve w Hw.
  destruct (solve_success_slots _ _ _ _ _ _ _ _ _ _ Hfour Hsolve)
    as (i0 & a & Eo & Hs & -> & _).
  apply Hsound in Hs.
  set (n := Z.to_nat (SOLVER_MAX_TERMS settings)) in *.
  unfold validate_schedule in Hw.
  destruct (prereq_errors _); simpl in Hw; [|by apply elem_of_nil in Hw].
  apply list_elem_of_bind in Hw as (st & Hw & Hst).
  apply list_elem_of_omap in Hst as (k & Hk & Hsome).
  pose proof (generated_term_unit_bounds _ _ _ _ _ _ _ _ _ _ _ Hs Hk Hsome) as Hb.
  unfold unit_warnings in Hw.
  destruct (DEFAULT_MAX_UNITS_PER_TERM settings <? total_units st) eqn:E1.
  - apply list_elem_of_singleton in Hw as ->. right.
    apply Z.ltb_lt in E1. eexists _, _. split; [done | lia].
  - destruct (total_units st <? DEFAULT_MIN_UNITS_PER_TERM settings) eqn:E2;
      [|by apply elem_of_nil in Hw].
    apply list_elem_of_singleton in Hw as ->. left.
    apply Z.ltb_lt in E2. eexists _, _. split; [done | lia].
Qed.

Lemma generated_unit_warnings_witness :
  exists log sched score,
    solve (candidate_engine all_taken) default_settings freshman_fall []
      catalogue_A ∅ None = (log, Some (Some sched, score))
    /\ forall w, w ∈ warnings (validate_schedule default_settings sched [] catalogue_A) ->
         (exists t total,
             w = BelowUnitLoad t total (DEFAULT_MIN_UNITS_PER_TERM default_settings)
             /\ 12 <= total < DEFAULT_MIN_UNITS_PER_TERM default_settings)
         \/ (exists t total,
               w = ExceedsUnitLimit t total (DEFAULT_MAX_UNITS_PER_TERM default_settings)
               /\ DEFAULT_MAX_UNITS_PER_TERM default_settings < total
                  <= max_units_of default_settings freshman_fall).
Proof.
  eexists _, _, _.
  assert (four_digit_horizon default_settings freshman_fall) as Hfour
    by (apply four_digit_horizon_default; simpl; lia).
  match goal with
  | |- ?S = ?R /\ _ => assert (S = R) as Hs by (vm_compute; reflexivity)
  end.
  split; [exact Hs|].
  exact (generated_unit_warnings (candidate_engine all_taken) default_settings
           freshman_fall [] catalogue_A ∅ None _ _ _ [] catalogue_A
           (candidate_engine_sound _) Hfour Hs).
Defined.

(** X11. Outcomes of [solve].  For a Summer student [solve] raises right
    after its first log line, whatever the engine.  For any other student
    (planned years of four digits) the extraction step cannot fail:
    [_extract_schedule] returns a schedule on the planned terms whatever
    values the solver holds.  And whenever [solve] returns, it returns no
    schedule and score 0 after a warning exactly when the engine reported
    no solution, and otherwise the schedule extracted from the engine's
    solution with its score, logging at INFO level only. *)
Theorem solve_outcomes (Solve : CpModel -> option (Var -> bool))
    (settings : Settings) (p : StudentProfile) (reqs : list Requirement)
    (avail : list (string * Course)) (off : gmap string (list string))
    (prefs : option (gmap string Q)) :
  (sp_semester p = SUMMER ->
   solve Solve settings p reqs avail off prefs
   = ([StartingGeneration (sp_id p); ErrorInSolver], None))
  /\ (sp_semester p ≠ SUMMER -> four_digit_horizon settings p ->
      exists planned,
        _generate_terms settings p = Some planned
        /\ forall a, exists sched,
             _extract_schedule a avail.*1 avail planned p = Some sched
             /\ student_id sched = sp_id p)
  /\ (forall log result,
        solve Solve settings p reqs avail off prefs = (log, Some result) ->
        exists planned,
          _generate_terms settings p = Some planned
          /\ match Solve (build_model settings p reqs avail off
                            (preferences_or prefs p) planned) with
             | None =>
                 result = (None, 0%Q)
                 /\ log = [StartingGeneration (sp_id p); SolvingCSP; NoSolutionFound]
             | Some a =>
                 exists sched,
                   _extract_schedule a avail.*1 avail planned p = Some sched
                   /\ result = (Some sched,
                                _calculate_score sched (preferences_or prefs p))
                   /\ log = [StartingGeneration (sp_id p); SolvingCSP; SolutionFound]
             end).
Proof.
  split; [|split].
  - intros Hsum. unfold solve. by rewrite generate_terms_summer.
  - intros Hns [Hlo Hhi].
    destruct (semester_order_is_Some _ Hns) as [i0 Eo].
    exists (walk_terms (sp_year p) i0 (Z.to_nat (SOLVER_MAX_TERMS settings))).
    split; [by apply generate_terms_eq|]. intros a.
    unfold _extract_schedule, walk_terms. rewrite extract_terms_slots_eq.
    + simpl. by eexists.
    + intros k Hk. unfold planned_slots in Hk.
      apply list_elem_of_filter in Hk as [_ Hk]. apply elem_of_seq in Hk.
      pose proof (semester_order_lt _ _ Eo) as [Hi0 _].
      apply (slot_term_id_parse _ _ (Z.to_nat (SOLVER_MAX_TERMS settings))); lia.
  - intros log result. unfold solve.
    destruct (_generate_terms settings p) as [planned|]; [|done].
    destruct (Solve _) as [a|] eqn:Es.
    + destruct (_extract_schedule a avail.*1 avail planned p) as [sched|] eqn:Ex;
        [|done].
      intros [= <- <-]. exists planned. split; [done|]. rewrite Es. by exists sched.
    + intros [= <- <-]. exists planned. split; [done|]. by rewrite Es.
Qed.

(** ** The validation result *)

Section ValidationResult.

Lemma requirement_results_snoc (scheduled : list string)
    (avail : list (string * Course)) (reqs : list Requirement) (req : Requirement) :
  requirement_results scheduled avail (reqs ++ [req])
  = <[req_id req := _check_requirement req scheduled avail]>
      (requirement_results scheduled avail reqs).
Proof. unfold requirement_results. by rewrite foldl_app. Qed.

(** The entry of an id is the result of the last requirement carrying it. *)
Lemma requirement_results_lookup (scheduled : list string)
    (avail : list (string * Course)) (reqs : list Requirement) (i : string) :
  requirement_results scheduled avail reqs !! i
  = (fun req => _check_requirement req scheduled avail)
      <$> last (filter (fun req => req_id req = i) reqs).
Proof.
  induction reqs as [|req reqs IH] using rev_ind; [done|].
  rewrite requirement_results_snoc, filter_app, filter_cons, filter_nil.
  destruct (decide (req_id req = i)) as [<- | Hne].
  - by rewrite lookup_insert_eq, last_snoc.
  - by rewrite lookup_insert_ne, app_nil_r.
Qed.

Lemma unsatisfied_elem_iff (scheduled : list string) (avail : list (string * Course))
    (reqs : list Requirement) (req : Requirement) :
  req ∈ unsatisfied scheduled avail reqs
  <-> req ∈ reqs /\ _check_requirement req scheduled avail = false.
Proof. unfold unsatisfied. rewrite list_elem_of_filter. tauto. Qed.

Lemma filter_id_NoDup (reqs : list Requirement) (req : Requirement) :
  NoDup (req_id <$> reqs) -> req ∈ reqs ->
  filter (fun r => req_id r = req_id req) reqs = [req].
Proof.
  induction reqs as [|r reqs IH]; intros Hnd Hin; [by apply elem_of_nil in Hin|].
  rewrite fmap_cons in Hnd. apply NoDup_cons in Hnd as [Hnot Hnd].
  rewrite filter_cons. apply elem_of_cons in Hin as [-> | Hin].
  - rewrite decide_True by done. f_equal.
    clear IH Hnd. induction reqs as [|r' reqs IH]; [done|].
    rewrite filter_cons. rewrite fmap_cons in Hnot.
    apply not_elem_of_cons in Hnot as [Hne Hnot].
    rewrite decide_False by congruence. by apply IH.
  - rewrite decide_False; [by apply IH|].
    intros E. apply Hnot. rewrite E. apply list_elem_of_fmap. by exists req.
Qed.

Lemma bind_nil_elem {A B} (f : A -> list B) (l : list A) :
  l ≫= f = [] <-> forall x, x ∈ l -> f x = [].
Proof.
  induction l as [|x l IH]; [split; [by intros _ ? ?%elem_of_nil | done]|].
  rewrite bind_cons. split.
  - intros H. apply app_eq_nil in H as [H1 H2].
    intros y [-> | Hy]%elem_of_cons; [done|]. by apply IH.
  - intros H. rewrite (H x) by left. simpl. apply IH. intros. apply H. by right.
Qed.

Lemma validate_schedule_settings (settings settings' : Settings) (sched : Schedule)
    (reqs : list Requirement) (avail : list (string * Course)) :
  errors (validate_schedule settings' sched reqs avail)
  = errors (validate_schedule settings sched reqs avail)
  /\ is_valid (validate_schedule settings' sched reqs avail)
     = is_valid (validate_schedule settings sched reqs avail)
  /\ missing_requirements (validate_schedule settings' sched reqs avail)
     = missing_requirements (validate_schedule settings sched reqs avail)
  /\ requirements_satisfied (validate_schedule settings' sched reqs avail)
     = requirements_satisfied (validate_schedule settings sched reqs avail)
  /\ conflicts (validate_schedule settings' sched reqs avail)
     = conflicts (validate_schedule settings sched reqs avail).
Proof. unfold validate_schedule. by destruct (prereq_errors sched). Qed.

End ValidationResult.

(** X12. The verdict of [validate_schedule].  On every input [is_valid]
    is the negation of [has_errors]; a valid result has no missing
    requirement and no conflict, comes from a validation that ran to
    completion, and records every requirement as satisfied; and errors,
    verdict, missing requirements, recorded results and conflicts do not
    depend on the configured unit limits, which only produce warnings:
    [has_warnings] holds only if some term is above the maximum or below
    the minimum. *)
Theorem validation_verdict (settings : Settings) (sched : Schedule)
    (reqs : list Requirement) (avail : list (string * Course)) :
  is_valid (validate_schedule settings sched reqs avail)
  = negb (has_errors (validate_schedule settings sched reqs avail))
  /\ (is_valid (validate_schedule settings sched reqs avail) = true ->
      validation_completes sched
      /\ missing_requirements (validate_schedule settings sched reqs avail) = []
      /\ conflicts (validate_schedule settings sched reqs avail) = []
      /\ forall req, req ∈ reqs ->
           _check_requirement req (all_courses sched) avail = true
           /\ requirements_satisfied (validate_schedule settings sched reqs avail)
                !! req_id req = Some true)
  /\ (forall settings',
        errors (validate_schedule settings' sched reqs avail)
        = errors (validate_schedule settings sched reqs avail)
        /\ is_valid (validate_schedule settings' sched reqs avail)
           = is_valid (validate_schedule settings sched reqs avail)
        /\ missing_requirements (validate_schedule settings' sched reqs avail)
           = missing_requirements (validate_schedule settings sched reqs avail)
        /\ requirements_satisfied (validate_schedule settings' sched reqs avail)
           = requirements_satisfied (validate_schedule settings sched reqs avail)
        /\ conflicts (validate_schedule settings' sched reqs avail)
           = conflicts (validate_schedule settings sched reqs avail))
  /\ (has_warnings (validate_schedule settings sched reqs avail) = true ->
      exists st, st ∈ terms sched
                 /\ (DEFAULT_MAX_UNITS_PER_TERM settings < total_units st
                     \/ total_units st < DEFAULT_MIN_UNITS_PER_TERM settings)).
Proof.
  split; [|split; [|split]]; cycle 3.
  { unfold has_warnings, validate_schedule.
    destruct (prereq_errors sched); [|done]. simpl.
    destruct (terms sched ≫= unit_warnings settings) as [|w ws] eqn:E; [done|].
    intros _. assert (w ∈ terms sched ≫= unit_warnings settings) as Hw
      by (rewrite E; left).
    apply list_elem_of_bind in Hw as (st & Hw & Hst). exists st. split; [done|].
    unfold unit_warnings in Hw.
    destruct (DEFAULT_MAX_UNITS_PER_TERM settings <? total_units st) eqn:E1;
      [left; by apply Z.ltb_lt|].
    destruct (total_units st <? DEFAULT_MIN_UNITS_PER_TERM settings) eqn:E2;
      [right; by apply Z.ltb_lt|].
    by apply elem_of_nil in Hw. }
  - unfold validate_schedule, has_errors.
    destruct (prereq_errors sched) as [errs|]; [|done]. simpl.
    by destruct (_ ++ _).
  - intros Hvalid.
    assert (is_Some (prereq_errors sched)) as [errs Herrs].
    { unfold validate_schedule in Hvalid. by destruct (prereq_errors sched); [eauto|]. }
    split; [apply validation_completes_iff; by eauto|].
    unfold validate_schedule in *. rewrite Herrs in *. simpl in *.
    apply bool_decide_eq_true in Hvalid.
    apply app_eq_nil in Hvalid as [Hunsat Hrest].
    apply app_eq_nil in Hrest as [_ Hconf].
    apply fmap_nil_inv in Hunsat.
    assert (forall req, req ∈ reqs ->
              _check_requirement req (all_courses sched) avail = true) as Hall.
    { intros req Hreq.
      destruct (_check_requirement req (all_courses sched) avail) eqn:E; [done|].
      assert (req ∈ unsatisfied (all_courses sched) avail reqs) as Hin
        by (by apply unsatisfied_elem_iff).
      rewrite Hunsat in Hin. by apply elem_of_nil in Hin. }
    split; [by rewrite Hunsat|]. split.
    + apply bind_nil_elem. intros st Hst.
      pose proof (proj1 (bind_nil_elem _ _) Hconf st Hst) as Hc.
      unfold conflict_errors in Hc. unfold conflict_entries.
      by destruct (has_conflicts st).
    + intros req Hreq. split; [by apply Hall|].
      rewrite requirement_results_lookup.
      destruct (last _) as [r|] eqn:El.
      * simpl. f_equal. apply Hall. apply last_Some_elem_of in El.
        by apply list_elem_of_filter in El as [_ ?].
      * apply last_None in El.
        assert (req ∈ filter (fun r => req_id r = req_id req) reqs) as Hin
          by (by apply list_elem_of_filter).
        rewrite El in Hin. by apply elem_of_nil in Hin.
  - intros settings'. apply validate_schedule_settings.
Qed.

(** X13. Bookkeeping of the requirement loop.  When validation runs to
    completion: the recorded result of an id is the check of the last
    requirement carrying that id; an id is missing exactly when some
    requirement carrying it fails its check; the missing ids keep the order
    of the requirements; every missing requirement has its error; and when
    the requirement ids are pairwise distinct, an id is missing exactly
    when its recorded result is false. *)
Theorem validation_requirement_bookkeeping (settings : Settings) (sched : Schedule)
    (reqs : list Requirement) (avail : list (string * Course)) :
  validation_completes sched ->
  (forall i,
      requirements_satisfied (validate_schedule settings sched reqs avail) !! i
      = (fun req => _check_requirement req (all_courses sched) avail)
          <$> last (filter (fun req => req_id req = i) reqs))
  /\ (forall i,
        i ∈ missing_requirements (validate_schedule settings sched reqs avail)
        <-> exists req, req ∈ reqs /\ req_id req = i
                        /\ _check_requirement req (all_courses sched) avail = false)
  /\ sublist (missing_requirements (validate_schedule settings sched reqs avail))
             (req_id <$> reqs)
  /\ (forall req, req ∈ reqs ->
        _check_requirement req (all_courses sched) avail = false ->
        RequirementNotSatisfied (description req)
          ∈ errors (validate_schedule settings sched reqs avail))
  /\ (NoDup (req_id <$> reqs) ->
      forall i,
        i ∈ missing_requirements (validate_schedule settings sched reqs avail)
        <-> requirements_satisfied (validate_schedule settings sched reqs avail) !! i
            = Some false).
Proof.
  intros Hc. apply validation_completes_iff in Hc as [errs Herrs].
  unfold validate_schedule. rewrite Herrs. simpl.
  assert (forall i,
            i ∈ req_id <$> unsatisfied (all_courses sched) avail reqs
            <-> exists req, req ∈ reqs /\ req_id req = i
                  /\ _check_requirement req (all_courses sched) avail = false) as Hmiss.
  { intros i. rewrite list_elem_of_fmap. split.
    - intros (req & -> & Hin). apply unsatisfied_elem_iff in Hin as [? ?]. by exists req.
    - intros (req & Hin & <- & Hf). exists req. split; [done|].
      by apply unsatisfied_elem_iff. }
  split; [intros i; apply requirement_results_lookup|].
  split; [exact Hmiss|]. split; [|split].
  - apply fmap_sublist. unfold unsatisfied. apply sublist_filter.
  - intros req Hreq Hf. apply elem_of_app. left.
    apply list_elem_of_fmap. exists req. split; [done|]. by apply unsatisfied_elem_iff.
  - intros Hnd i. rewrite Hmiss, requirement_results_lookup. split.
    + intros (req & Hin & <- & Hf). rewrite (filter_id_NoDup reqs req Hnd Hin).
      simpl. by rewrite Hf.
    + intros Hl. destruct (last _) as [r|] eqn:El; [|done].
      simpl in Hl. injection Hl as Hl. apply last_Some_elem_of in El.
      apply list_elem_of_filter in El as [Hid Hin]. by exists r.
Qed.

Lemma validation_requirement_bookkeeping_witness :
  validation_completes one_term_schedule
  /\ (requirement_A_or_X.(req_id)
        ∈ missing_requirements (validate_schedule default_settings one_term_schedule
                                  [requirement_A_or_X; elective_requirement] catalogue_A)
      <-> exists req, req ∈ [requirement_A_or_X; elective_requirement]
            /\ req_id req = req_id requirement_A_or_X
            /\ _check_requirement req (all_courses one_term_schedule) catalogue_A = false).
Proof.
  assert (validation_completes one_term_schedule) as Hc.
  { left. unfold no_summer. simpl. by repeat constructor. }
  split; [exact Hc|].
  exact (proj1 (proj2 (validation_requirement_bookkeeping default_settings
                         one_term_schedule [requirement_A_or_X; elective_requirement]
                         catalogue_A Hc)) (req_id requirement_A_or_X)).
Defined.

(** ** Requirement checks *)

Section RequirementChecks.

Lemma earned_units_app (cat : string) (l l' : list string)
    (avail : list (string * Course)) :
  earned_units cat (l ++ l') avail = earned_units cat l avail + earned_units cat l' avail.
Proof.
  unfold earned_units. rewrite bind_app, foldr_app.
  generalize (foldr Z.add 0
                (l' ≫= (fun cid => match dict_get avail cid with
                                   | Some c => if bool_decide (cat ∈ meets_requirements c)
                                               then [units c] else []
                                   | None => []
                                   end))).
  intros z. induction (l ≫= _) as [|x xs IH]; simpl; lia.
Qed.

Lemma earned_units_cons (cat : string) (cid : string) (l : list string)
    (avail : list (string * Course)) :
  earned_units cat (cid :: l) avail
  = earned_units cat [cid] avail + earned_units cat l avail.
Proof. apply (earned_units_app cat [cid] l). Qed.

Lemma earned_units_perm (cat : string) (l l' : list string)
    (avail : list (string * Course)) :
  l ≡ₚ l' -> earned_units cat l avail = earned_units cat l' avail.
Proof.
  induction 1 as [|x l l' _ IH|x y l|l l' l'' _ IH1 _ IH2]; [done| | |congruence].
  - by rewrite (earned_units_cons _ x l), (earned_units_cons _ x l'), IH.
  - rewrite (earned_units_cons _ y (x :: l)), (earned_units_cons _ x l),
      (earned_units_cons _ x (y :: l)), (earned_units_cons _ y l). lia.
Qed.

Lemma check_requirement_units (req : Requirement) (scheduled : list string)
    (avail : list (string * Course)) :
  rule_type req = UNITS ->
  _check_requirement req scheduled avail
  = truthy_str (category req)
    && (default 0 (units_required req)
        <=? earned_units (default EmptyString (category req)) scheduled avail).
Proof.
  intros Hr. unfold _check_requirement. rewrite Hr.
  by destruct (truthy_str (category req)).
Qed.

End RequirementChecks.

(** X14. The units check.  For a requirement of rule type units:
    [_check_requirement] holds exactly when the category is a non-empty
    string and the units earned in it reach [units_required] (0 when
    absent); the earned units add up over concatenation and do not depend
    on the order of the scheduled ids; with no category the check fails on
    every schedule and the builder adds no constraint; with a category but
    no (or zero) [units_required] the builder adds no constraint and the
    empty schedule passes the check. *)
Theorem units_requirement_check (req : Requirement) :
  rule_type req = UNITS ->
  (forall scheduled avail,
      _check_requirement req scheduled avail
      = truthy_str (category req)
        && (default 0 (units_required req)
            <=? earned_units (default EmptyString (category req)) scheduled avail))
  /\ (forall cat l l' avail,
        earned_units cat (l ++ l') avail
        = earned_units cat l avail + earned_units cat l' avail)
  /\ (forall cat l l' avail, l ≡ₚ l' -> earned_units cat l avail = earned_units cat l' avail)
  /\ (truthy_str (category req) = false ->
      forall scheduled avail cv terms m,
        _check_requirement req scheduled avail = false
        /\ requirement_step cv terms avail m req = m)
  /\ (truthy_str (category req) = true -> truthy_int (units_required req) = false ->
      forall avail cv terms m,
        _check_requirement req [] avail = true
        /\ requirement_step cv terms avail m req = m).
Proof.
  intros Hr. split; [intros; by apply check_requirement_units|].
  split; [intros; apply earned_units_app|].
  split; [intros; by apply earned_units_perm|]. split.
  - intros Hc scheduled avail cv terms m.
    rewrite check_requirement_units by done. rewrite Hc. split; [done|].
    unfold requirement_step. by rewrite Hr, Hc.
  - intros Hc Hu avail cv terms m.
    rewrite check_requirement_units by done. rewrite Hc. split.
    + simpl. apply Z.leb_le. unfold earned_units. simpl.
      destruct (units_required req) as [z|]; simpl in *; [|done].
      apply negb_false_iff, Z.eqb_eq in Hu. lia.
    + unfold requirement_step. rewrite Hr, Hc, Hu. done.
Qed.

Lemma units_requirement_check_witness :
  rule_type rest_units_requirement = UNITS
  /\ forall scheduled avail,
       _check_requirement rest_units_requirement scheduled avail
       = truthy_str (category rest_units_requirement)
         && (default 0 (units_required rest_units_requirement)
             <=? earned_units (default EmptyString (category rest_units_requirement))
                   scheduled avail).
Proof.
  split; [reflexivity|].
  exact (proj1 (units_requirement_check rest_units_requirement eq_refl)).
Defined.

(** X15. The specific-course check.  For a requirement of rule type
    specific_course, [_check_requirement] holds exactly when one of the
    allowed ids is among the scheduled ids, so it is kept when the schedule
    grows; with no allowed course (absent or empty list) it fails on every
    schedule while the builder adds no constraint. *)
Theorem specific_course_requirement_check (req : Requirement) :
  rule_type req = SPECIFIC_COURSE ->
  (forall scheduled avail,
      _check_requirement req scheduled avail = true
      <-> exists c, c ∈ default [] (courses_allowed req) /\ c ∈ scheduled)
  /\ (forall scheduled scheduled' avail avail',
        scheduled ⊆ scheduled' ->
        _check_requirement req scheduled avail = true ->
        _check_requirement req scheduled' avail' = true)
  /\ (default [] (courses_allowed req) = [] ->
      forall scheduled avail cv terms m,
        _check_requirement req scheduled avail = false
        /\ requirement_step cv terms avail m req = m).
Proof.
  intros Hr.
  assert (forall scheduled avail,
            _check_requirement req scheduled avail = true
            <-> exists c, c ∈ default [] (courses_allowed req) /\ c ∈ scheduled) as Hiff.
  { intros scheduled avail. unfold _check_requirement. rewrite Hr.
    destruct (courses_allowed req) as [[|x l]|]; cbn [truthy_list default].
    - split; [done|]. by intros (c & Hc%elem_of_nil & _).
    - rewrite existsb_exists. split.
      + intros (c & Hc & Hin). exists c. split; [by apply list_elem_of_In|].
        by apply bool_decide_eq_true in Hin.
      + intros (c & Hc & Hin). exists c. split; [by apply list_elem_of_In|].
        by apply bool_decide_eq_true_2.
    - split; [done|]. by intros (c & Hc%elem_of_nil & _). }
  split; [exact Hiff|]. split.
  - intros scheduled scheduled' avail avail' Hsub H.
    apply Hiff in H as (c & Hc & Hin). apply Hiff. exists c. split; [done|].
    by apply Hsub.
  - intros Hnil scheduled avail cv terms m. split.
    + apply not_true_is_false. intros H. apply Hiff in H as (c & Hc & _).
      rewrite Hnil in Hc. by apply elem_of_nil in Hc.
    + unfold requirement_step. rewrite Hr.
      destruct (courses_allowed req) as [[|x l]|]; simpl in *; done.
Qed.

Lemma specific_course_requirement_check_witness :
  rule_type requirement_A_or_X = SPECIFIC_COURSE
  /\ forall scheduled avail,
       _check_requirement requirement_A_or_X scheduled avail = true
       <-> exists c, c ∈ default [] (courses_allowed requirement_A_or_X) /\ c ∈ scheduled.
Proof.
  split; [reflexivity|].
  exact (proj1 (specific_course_requirement_check requirement_A_or_X eq_refl)).
Defined.

(** ** Units requirements of generated schedules *)

Section UnitsCoverage.

Lemma sumZ_app {A} (f : A -> Z) (l l' : list A) :
  sumZ f (l ++ l') = sumZ f l + sumZ f l'.
Proof. unfold sumZ. induction l as [|x l IH]; simpl; lia. Qed.

Lemma sumZ_ext {A} (f g : A -> Z) (l : list A) :
  (forall x, x ∈ l -> f x = g x) -> sumZ f l = sumZ g l.
Proof.
  induction l as [|x l IH]; intros H; [done|]. unfold sumZ in *. simpl.
  rewrite (H x) by left. rewrite IH; [done|]. intros. apply H. by right.
Qed.

Lemma sumZ_fmap {A B} (f : B -> Z) (g : A -> B) (l : list A) :
  sumZ f (g <$> l) = sumZ (fun x => f (g x)) l.
Proof.
  induction l as [|x l IH]; [done|]. rewrite fmap_cons.
  change (f (g x) + sumZ f (g <$> l) = f (g x) + sumZ (fun x => f (g x)) l).
  by rewrite IH.
Qed.

Lemma sumZ_zero {A} (l : list A) : sumZ (fun _ => 0) l = 0.
Proof. unfold sumZ. induction l as [|x l IH]; simpl; lia. Qed.

Lemma sumZ_plus {A} (f g : A -> Z) (l : list A) :
  sumZ (fun x => f x + g x) l = sumZ f l + sumZ g l.
Proof. unfold sumZ. induction l as [|x l IH]; simpl; lia. Qed.

Lemma sumZ_swap {A B} (h : A -> B -> Z) (l : list A) (l' : list B) :
  sumZ (fun x => sumZ (fun y => h x y) l') l
  = sumZ (fun y => sumZ (fun x => h x y) l) l'.
Proof.
  induction l as [|x l IH].
  - cbn [sumZ foldr]. by rewrite sumZ_zero.
  - change (sumZ (fun x0 => sumZ (fun y => h x0 y) l') (x :: l))
      with (sumZ (fun y => h x y) l' + sumZ (fun x0 => sumZ (fun y => h x0 y) l') l).
    rewrite IH, <- sumZ_plus. done.
Qed.

Lemma eval_app (a : Var -> bool) (e1 e2 : LinExpr) :
  eval a (e1 ++ e2) = eval a e1 + eval a e2.
Proof. unfold eval. induction e1 as [|x e1 IH]; simpl; lia. Qed.

Lemma eval_course_terms (a : Var -> bool) (u : Z) (c : string) (ts : list string) :
  eval a ((fun t => (u, CourseVar c t)) <$> ts)
  = sumZ (fun t => u * value a (CourseVar c t)) ts.
Proof.
  induction ts as [|t ts IH]; [done|]. rewrite fmap_cons.
  change (u * value a (CourseVar c t) + eval a ((fun t => (u, CourseVar c t)) <$> ts)
          = u * value a (CourseVar c t)
            + sumZ (fun t => u * value a (CourseVar c t)) ts).
  by rewrite IH.
Qed.

Lemma eval_category_units (a : Var -> bool) (cat : string) (cv ts : list string)
    (l : list (string * Course)) :
  (forall kc, kc ∈ l -> kc.1 ∈ cv) ->
  eval a (category_units cat cv ts l)
  = sumZ (fun kc => sumZ (fun t => if bool_decide (cat ∈ meets_requirements kc.2)
                                   then units kc.2 * value a (CourseVar kc.1 t)
                                   else 0) ts) l.
Proof.
  unfold category_units. induction l as [|kc l IH]; intros Hl; [done|].
  rewrite bind_cons, eval_app, IH by (intros; apply Hl; by right).
  change (sumZ ?f (kc :: l)) with (f kc + sumZ f l). f_equal.
  case_bool_decide.
  - rewrite bool_decide_eq_true_2 by (apply Hl; left). apply eval_course_terms.
  - by rewrite sumZ_zero.
Qed.

Lemma dict_get_elem (avail : list (string * Course)) (k : string) (c : Course) :
  NoDup avail.*1 -> (k, c) ∈ avail -> dict_get avail k = Some c.
Proof.
  induction avail as [|[k' c'] avail IH]; intros Hnd Hin; [by apply elem_of_nil in Hin|].
  rewrite fmap_cons in Hnd. apply NoDup_cons in Hnd as [Hnot Hnd]. simpl.
  apply elem_of_cons in Hin as [[= -> ->] | Hin].
  - by rewrite bool_decide_eq_true_2.
  - rewrite bool_decide_eq_false_2; [by apply IH|].
    intros ->. apply Hnot. simpl. apply list_elem_of_fmap. by exists (k, c).
Qed.

Lemma earned_units_bind {A} (cat : string) (F : A -> list string) (ks : list A)
    (avail : list (string * Course)) :
  earned_units cat (ks ≫= F) avail = sumZ (fun k => earned_units cat (F k) avail) ks.
Proof.
  induction ks as [|k ks IH]; [done|].
  rewrite bind_cons, earned_units_app, IH. done.
Qed.

Lemma earned_units_extracted (a : Var -> bool) (cat : string) (cv : list string)
    (avail l : list (string * Course)) (tid : string) (y : Z) (s : Term) :
  (forall kc, kc ∈ l -> kc.1 ∈ cv /\ dict_get avail (id kc.2) = Some kc.2) ->
  earned_units cat ((fun sc => id (course sc)) <$> courses_in_term a cv l tid y s) avail
  = sumZ (fun kc => if bool_decide (cat ∈ meets_requirements kc.2)
                    then units kc.2 * value a (CourseVar kc.1 tid) else 0) l.
Proof.
  unfold courses_in_term. induction l as [|kc l IH]; intros Hl; [done|].
  rewrite bind_cons, fmap_app, earned_units_app, IH by (intros; apply Hl; by right).
  change (sumZ ?f (kc :: l)) with (f kc + sumZ f l). f_equal.
  destruct (Hl kc) as [Hcv Hget]; [left|].
  rewrite bool_decide_eq_true_2 by done. unfold value. simpl.
  destruct (a (CourseVar kc.1 tid)).
  - unfold earned_units. simpl. rewrite Hget.
    case_bool_decide; simpl; lia.
  - unfold earned_units. simpl. case_bool_decide; lia.
Qed.

Lemma all_courses_slots (a : Var -> bool) (avail : list (string * Course))
    (y0 : Z) (i0 : nat) (sid : string) (ks : list nat) :
  all_courses {| student_id := sid;
                 terms := omap (slot_scheduled_term a avail y0 i0) ks |}
  = ks ≫= (fun k => (fun sc => id (course sc))
                      <$> courses_in_term a avail.*1 avail (slot_term_id y0 i0 k)
                            (2024 + slot_year y0 i0 k) (slot_semester i0 k)).
Proof.
  unfold all_courses. simpl. induction ks as [|k ks IH]; [done|].
  rewrite bind_cons, <- IH.
  change (omap (slot_scheduled_term a avail y0 i0) (k :: ks))
    with (match slot_scheduled_term a avail y0 i0 k with
          | Some st => st :: omap (slot_scheduled_term a avail y0 i0) ks
          | None => omap (slot_scheduled_term a avail y0 i0) ks
          end).
  unfold slot_scheduled_term at 1.
  by destruct (courses_in_term a avail.*1 avail (slot_term_id y0 i0 k) _ _).
Qed.

(** The units the validator counts for a category in an extracted
    schedule are the value of the builder's [category_units] sum. *)
Lemma earned_units_generated (a : Var -> bool) (avail : list (string * Course))
    (y0 : Z) (i0 : nat) (sid : string) (ks : list nat) (cat : string) :
  keys_are_ids avail -> NoDup avail.*1 ->
  earned_units cat (all_courses {| student_id := sid;
                                   terms := omap (slot_scheduled_term a avail y0 i0) ks |})
               avail
  = eval a (category_units cat avail.*1 (slot_term_id y0 i0 <$> ks) avail).
Proof.
  intros Hids Hnd.
  rewrite all_courses_slots, earned_units_bind, eval_category_units.
  2: { intros [k c] Hin. by apply (key_in_course_vars avail k c). }
  rewrite (sumZ_ext _ (fun k => sumZ (fun kc =>
             if bool_decide (cat ∈ meets_requirements kc.2)
             then units kc.2 * value a (CourseVar kc.1 (slot_term_id y0 i0 k))
             else 0) avail) ks).
  2: { intros k _. apply earned_units_extracted. intros [c crs] Hin. simpl. split.
       - by apply (key_in_course_vars avail c crs).
       - rewrite (Hids c crs Hin). by apply dict_get_elem. }
  rewrite sumZ_swap. apply sumZ_ext. intros kc _. by rewrite sumZ_fmap.
Qed.

Lemma planned_slots_nonempty (i0 n : nat) : (2 <= n)%nat -> planned_slots i0 n ≠ [].
Proof.
  intros Hn Hnil.
  assert (forall k, (k < n)%nat -> slot_semester i0 k = IAP) as Hall.
  { intros k Hk. destruct (decide (slot_semester i0 k = IAP)) as [|Hne]; [done|].
    assert (k ∈ planned_slots i0 n) as Hin.
    { unfold planned_slots. apply list_elem_of_filter. split; [done|].
      apply elem_of_seq. lia. }
    rewrite Hnil in Hin. by apply elem_of_nil in Hin. }
  pose proof (Hall 0%nat ltac:(lia)) as H0. pose proof (Hall 1%nat ltac:(lia)) as H1.
  pose proof (slot_semester_next i0 0) as Hnext. rewrite H0, H1 in Hnext.
  discriminate Hnext.
Qed.

Lemma category_units_nonempty (cat : string) (ts : list string)
    (avail : list (string * Course)) (k : string) (c : Course) :
  (k, c) ∈ avail -> cat ∈ meets_requirements c -> ts ≠ [] ->
  category_units cat avail.*1 ts avail ≠ [].
Proof.
  intros Hin Hcat Hts Hnil. unfold category_units in Hnil.
  pose proof (proj1 (bind_nil_elem _ _) Hnil (k, c) Hin) as H. simpl in H.
  rewrite bool_decide_eq_true_2 in H by done.
  rewrite bool_decide_eq_true_2 in H by (by apply (key_in_course_vars avail k c)).
  apply fmap_nil_inv in H. done.
Qed.

Lemma category_units_nil (cat : string) (cv ts : list string)
    (avail : list (string * Course)) :
  (forall k c, (k, c) ∈ avail -> cat ∉ meets_requirements c) ->
  category_units cat cv ts avail = [].
Proof.
  intros H. unfold category_units. apply bind_nil_elem. intros [k c] Hin.
  simpl. by rewrite bool_decide_eq_false_2 by (by apply (H k c)).
Qed.

(** What a satisfied units requirement step forces. *)
Lemma requirement_step_units (cv ts : list string) (avail : list (string * Course))
    (m0 m : CpModel) (req : Requirement) (a : Var -> bool) :
  rule_type req = UNITS ->
  truthy_str (category req) = true -> truthy_int (units_required req) = true ->
  category_units (default EmptyString (category req)) cv ts avail ≠ [] ->
  constraints (requirement_step cv ts avail m0 req) ⊆ constraints m ->
  satisfies a m = true ->
  default 0 (units_required req)
  <= eval a (category_units (default EmptyString (category req)) cv ts avail).
Proof.
  intros Hr Hc Hu Hne Hsub Hsat. unfold requirement_step in Hsub.
  rewrite Hr, Hc, Hu in Hsub. simpl in Hsub.
  destruct (category_units (default EmptyString (category req)) cv ts avail)
    as [|x e] eqn:E; [done|].
  assert (holds a {| c_lhs := x :: e; c_rel := Ge;
                     c_rhs := default 0 (units_required req);
                     c_only_enforce_if := None |} = true) as H.
  { apply (satisfies_elem a m); [done|]. apply Hsub, Add_elem. }
  unfold holds in H. simpl in H. by apply Z.leb_le in H.
Qed.

End UnitsCoverage.

(** X16. Units requirements of a generated schedule.  When [solve]
    returns a schedule (sound engine, planned years of four digits, course
    map keyed by course id with distinct keys, a horizon of at least two
    slots), the units the validator counts for a category are the value of
    the sum the builder constrains; so a units requirement of the call with
    a category and a non-zero [units_required] passes the validator's check
    when some course of the map carries the category, and when none does
    the validator counts 0 units although the generation succeeded. *)
Theorem generated_units_requirements (Solve : CpModel -> option (Var -> bool))
    (settings : Settings) (p : StudentProfile) (reqs : list Requirement)
    (avail : list (string * Course)) (off : gmap string (list string))
    (prefs : option (gmap string Q))
    (log : list LogMessage) (sched : Schedule) (score : Q) :
  engine_sound Solve -> four_digit_horizon settings p ->
  keys_are_ids avail -> NoDup avail.*1 -> 2 <= SOLVER_MAX_TERMS settings ->
  solve Solve settings p reqs avail off prefs = (log, Some (Some sched, score)) ->
  exists planned a,
    _generate_terms settings p = Some planned
    /\ satisfies a (build_model settings p reqs avail off (preferences_or prefs p) planned)
       = true
    /\ (forall cat, earned_units cat (all_courses sched) avail
                    = eval a (category_units cat avail.*1 planned avail))
    /\ forall req, req ∈ reqs -> rule_type req = UNITS ->
         truthy_str (category req) = true -> truthy_int (units_required req) = true ->
         ((exists k c, (k, c) ∈ avail
                       /\ default EmptyString (category req) ∈ meets_requirements c) ->
          _check_requirement req (all_courses sched) avail = true)
         /\ ((forall k c, (k, c) ∈ avail ->
                default EmptyString (category req) ∉ meets_requirements c) ->
             earned_units (default EmptyString (category req)) (all_courses sched) avail
             = 0).
Proof.
  intros Hsound Hfour Hids Hnd Hn Hsolve.
  destruct (solve_success_slots _ _ _ _ _ _ _ _ _ _ Hfour Hsolve)
    as (i0 & a & Eo & Hs & -> & _).
  apply Hsound in Hs.
  set (n := Z.to_nat (SOLVER_MAX_TERMS settings)) in *.
  exists (walk_terms (sp_year p) i0 n), a.
  split; [by apply generate_terms_eq|]. split; [done|].
  assert (forall cat,
            earned_units cat
              (all_courses {| student_id := sp_id p;
                              terms := omap (slot_scheduled_term a avail (sp_year p) i0)
                                            (planned_slots i0 n) |}) avail
            = eval a (category_units cat avail.*1 (walk_terms (sp_year p) i0 n) avail))
    as Hearned by (intros; by apply earned_units_generated).
  split; [exact Hearned|].
  intros req Hreq Hr Hc Hu. split.
  - intros (k & c & Hin & Hcat).
    rewrite check_requirement_units, Hc, Hearned by done. simpl. apply Z.leb_le.
    destruct (build_model_requirement_step settings p reqs avail off
                (preferences_or prefs p) (walk_terms (sp_year p) i0 n) req Hreq)
      as (m0 & Hm0).
    eapply requirement_step_units; try done.
    eapply category_units_nonempty; [exact Hin | exact Hcat |].
    unfold walk_terms. intros Hnil. apply fmap_nil_inv in Hnil.
    apply (planned_slots_nonempty i0 n); [lia | done].
  - intros Hnone. rewrite Hearned, category_units_nil by done. done.
Qed.

Lemma generated_units_requirements_witness :
  exists log sched score,
    solve (candidate_engine all_taken) default_settings freshman_fall
      [rest_units_requirement] catalogue_R ∅ None = (log, Some (Some sched, score))
    /\ exists planned a,
        _generate_terms default_settings freshman_fall = Some planned
        /\ satisfies a (build_model default_settings freshman_fall
                          [rest_units_requirement] catalogue_R ∅
                          (preferences_or None freshman_fall) planned) = true
        /\ (forall cat, earned_units cat (all_courses sched) catalogue_R
                        = eval a (category_units cat catalogue_R.*1 planned catalogue_R))
        /\ forall req, req ∈ [rest_units_requirement] -> rule_type req = UNITS ->
             truthy_str (category req) = true -> truthy_int (units_required req) = true ->
             ((exists k c, (k, c) ∈ catalogue_R
                           /\ default EmptyString (category req) ∈ meets_requirements c) ->
              _check_requirement req (all_courses sched) catalogue_R = true)
             /\ ((forall k c, (k, c) ∈ catalogue_R ->
                    default EmptyString (category req) ∉ meets_requirements c) ->
                 earned_units (default EmptyString (category req)) (all_courses sched)
                   catalogue_R = 0).
Proof.
  eexists _, _, _.
  assert (keys_are_ids catalogue_R) as Hids by (by apply (bool_decide_unpack _)).
  assert (NoDup catalogue_R.*1) as Hnd by (by apply (bool_decide_unpack _)).
  assert (four_digit_horizon default_settings freshman_fall) as Hfour
    by (apply four_digit_horizon_default; simpl; lia).
  assert (2 <= SOLVER_MAX_TERMS default_settings) as Hn by (simpl; lia).
  match goal with
  | |- ?S = ?R /\ _ => assert (S = R) as Hs by (vm_compute; reflexivity)
  end.
  split; [exact Hs|].
  exact (generated_units_requirements (candidate_engine all_taken)
           default_settings freshman_fall [rest_units_requirement] catalogue_R ∅ None
           _ _ _ (candidate_engine_sound _) Hfour Hids Hnd Hn Hs).
Defined.

(** ** Time strings *)

Section TimeStrings.

Lemma split_length (s : string) :
  length (Py.split ":"%char s) = S (count_colons s).
Proof.
  induction s as [|c s IH]; [done|]. simpl.
  destruct (Ascii.eqb c ":"%char); simpl; [by rewrite IH|].
  destruct (Py.split ":"%char s) as [|h t]; [done|]. simpl in *. done.
Qed.

Lemma split_no_colon (s : string) :
  count_colons s = 0%nat -> Py.split ":"%char s = [s].
Proof.
  induction s as [|c s IH]; [done|]. simpl.
  destruct (Ascii.eqb c ":"%char); [done|]. intros H. by rewrite IH.
Qed.

Lemma split_one_colon (s s' : string) :
  count_colons s = 0%nat ->
  Py.split ":"%char (s +:+ ":" +:+ s') = s :: Py.split ":"%char s'.
Proof.
  induction s as [|c s IH]; [done|]. cbn [count_colons].
  destruct (Ascii.eqb c ":"%char) eqn:E; [done|]. intros H.
  change (String c s +:+ ":" +:+ s') with (String c (s +:+ ":" +:+ s')).
  cbn [Py.split]. rewrite E, IH by done. done.
Qed.

End TimeStrings.

(** X17. Time strings (of code points below 256).  [_parse_time] gives 0
    for every string that does not hold exactly one colon (no colon, or
    hours:minutes:seconds); for two colon-free parts joined by a colon it
    gives 60 * hours + minutes when [int()] reads both parts and 0
    otherwise; and every clock time of a day, written with or without
    leading zeros, is read as its number of minutes since midnight. *)
Theorem parse_time_formats :
  (forall s, count_colons s ≠ 1%nat -> _parse_time s = 0)
  /\ (forall s s', count_colons s = 0%nat -> count_colons s' = 0%nat ->
        _parse_time (s +:+ ":" +:+ s')
        = match Py.int s, Py.int s' with
          | Some hour, Some minute => hour * 60 + minute
          | _, _ => 0
          end)
  /\ (forall h m, 0 <= h < 24 -> 0 <= m < 60 ->
        _parse_time (clock h m) = 60 * h + m
        /\ _parse_time (Py.str h +:+ ":" +:+ Py.str m) = 60 * h + m).
Proof.
  split; [|split].
  - intros s Hs. unfold _parse_time. pose proof (split_length s) as Hl.
    destruct (Py.split ":"%char s) as [|x [|y [|z l]]]; try done.
    simpl in Hl. by injection Hl as Hl.
  - intros s s' Hs Hs'. unfold _parse_time.
    by rewrite split_one_colon, (split_no_colon s') by done.
  - intros h m Hh Hm. split; apply clock_strings_parse; try done.
    + unfold clock_strings. left.
    + unfold clock_strings. do 3 right. left.
Qed.

(** ** Day codes *)

Section DayCodes.

Lemma upper_app (s1 s2 : string) : upper (s1 +:+ s2) = upper s1 +:+ upper s2.
Proof.
  induction s1 as [|c s1 IH]; [done|].
  change (String c s1 +:+ s2) with (String c (s1 +:+ s2)).
  cbn [upper]. by rewrite IH.
Qed.

Lemma parse_days_loop_app (s1 s2 : string) :
  parse_days_loop (s1 +:+ s2) = parse_days_loop s1 ++ parse_days_loop s2.
Proof.
  induction s1 as [|c s1 IH]; [done|].
  change (String c s1 +:+ s2) with (String c (s1 +:+ s2)).
  cbn [parse_days_loop]. rewrite IH. by destruct (day_map c).
Qed.

Lemma upper_char_idemp (c : ascii) : upper_char (upper_char c) = upper_char c.
Proof.
  destruct c as [[] [] [] [] [] [] [] []]; vm_compute; reflexivity.
Qed.

Lemma upper_idemp (s : string) : upper (upper s) = upper s.
Proof.
  induction s as [|c s IH]; [done|]. cbn [upper]. by rewrite upper_char_idemp, IH.
Qed.

Lemma day_map_Some (c : ascii) (d : DayOfWeek) : day_map c = Some d <-> c = day_code d.
Proof.
  unfold day_map. split.
  - destruct (Ascii.eqb c "M"%char) eqn:E1;
      [apply Ascii.eqb_eq in E1; by intros [= <-]|].
    destruct (Ascii.eqb c "T"%char) eqn:E2;
      [apply Ascii.eqb_eq in E2; by intros [= <-]|].
    destruct (Ascii.eqb c "W"%char) eqn:E3;
      [apply Ascii.eqb_eq in E3; by intros [= <-]|].
    destruct (Ascii.eqb c "R"%char) eqn:E4;
      [apply Ascii.eqb_eq in E4; by intros [= <-]|].
    destruct (Ascii.eqb c "F"%char) eqn:E5;
      [apply Ascii.eqb_eq in E5; by intros [= <-]|].
    done.
  - intros ->. by destruct d.
Qed.

Lemma parse_days_loop_elem (s : string) (d : DayOfWeek) :
  d ∈ parse_days_loop s <-> day_code d ∈ chars s.
Proof.
  induction s as [|c s IH]; [split; by intros ?%elem_of_nil|].
  cbn [parse_days_loop chars].
  rewrite elem_of_cons, <- IH. destruct (day_map c) as [d'|] eqn:E.
  - rewrite elem_of_cons. apply day_map_Some in E. split.
    + intros [-> | H]; [by left | by right].
    + intros [Hc | H]; [|by right]. left. rewrite E in Hc. by destruct d, d'.
  - split; [by right|]. intros [Hc | H]; [|done].
    symmetry in Hc. apply day_map_Some in Hc. congruence.
Qed.

Lemma chars_upper (s : string) : chars (upper s) = upper_char <$> chars s.
Proof. induction s as [|c s IH]; [done|]. cbn [upper chars]. by rewrite IH. Qed.

Lemma parse_days_loop_length (s : string) :
  (length (parse_days_loop s) <= String.length s)%nat.
Proof.
  induction s as [|c s IH]; [done|]. cbn [parse_days_loop].
  destruct (day_map c); simpl; lia.
Qed.

Lemma upper_length (s : string) : String.length (upper s) = String.length s.
Proof. induction s as [|c s IH]; [done|]. simpl. by rewrite IH. Qed.

Lemma parse_days_elem (s : string) (d : DayOfWeek) :
  d ∈ _parse_days s <-> exists c, c ∈ chars s /\ upper_char c = day_code d.
Proof.
  unfold _parse_days.
  rewrite parse_days_loop_elem, chars_upper, list_elem_of_fmap. split.
  - intros (c & E & Hc). by exists c.
  - intros (c & Hc & E). by exists c.
Qed.

End DayCodes.

(** X18. Day codes.  [_parse_days] reads a string letter by letter and
    without regard to case: the result of a concatenation is the
    concatenation of the results; a day is in the result exactly when its
    code letter (M, T, W, R, F), in upper or lower case, occurs in the
    string; no more days come out than the string has characters, and a
    repeated letter gives a repeated day; every other character is
    dropped, so Th reads as Tuesday only. *)
Theorem parse_days_letters :
  (forall s1 s2, _parse_days (s1 +:+ s2) = _parse_days s1 ++ _parse_days s2)
  /\ (forall s d, d ∈ _parse_days s <-> exists c, c ∈ chars s /\ upper_char c = day_code d)
  /\ (forall s, _parse_days (upper s) = _parse_days s)
  /\ (forall s, (length (_parse_days s) <= String.length s)%nat)
  /\ (forall s, _parse_days s = [] <-> forall c d, c ∈ chars s -> upper_char c ≠ day_code d)
  /\ _parse_days "MWF" = [MONDAY; WEDNESDAY; FRIDAY]
  /\ _parse_days "tr" = [TUESDAY; THURSDAY]
  /\ _parse_days "TTh" = [TUESDAY; TUESDAY].
Proof.
  pose proof parse_days_elem as Helem.
  split; [|split; [exact Helem|split; [|split; [|split]]]].
  - intros s1 s2. unfold _parse_days. by rewrite upper_app, parse_days_loop_app.
  - intros s. unfold _parse_days. by rewrite upper_idemp.
  - intros s. unfold _parse_days. rewrite <- (upper_length s).
    apply parse_days_loop_length.
  - intros s. split.
    + intros Hnil c d Hc E.
      assert (d ∈ _parse_days s) as Hd by (apply Helem; by exists c).
      rewrite Hnil in Hd. by apply elem_of_nil in Hd.
    + intros H. destruct (_parse_days s) as [|d l] eqn:E; [done|]. exfalso.
      assert (d ∈ _parse_days s) as Hd by (rewrite E; left).
      apply Helem in Hd as (c & Hc & Hu). by apply (H c d).
  - done.
Qed.

(** X19. Meetings on different days.  Two meeting times whose day lists
    are read by [_parse_days] from two day strings do not conflict,
    whatever their times, when [_parse_days] finds no day in both strings;
    when it finds a common day they conflict exactly when start1 < end2
    and start2 < end1 on the times [_parse_time] reads.  On strings of
    code points below 256, the domain of the embedding of [_parse_days],
    a common day is a day letter (M, T, W, R, F, in either case) that
    occurs in both strings. *)
Theorem parsed_days_conflicts (s1 s2 : string) (start1 end1 start2 end2 : string)
    (loc1 loc2 : option string) :
  ((forall d, d ∈ _parse_days s1 -> d ∉ _parse_days s2) ->
   conflicts_with
     {| days := _parse_days s1; start_time := start1; end_time := end1;
        location := loc1 |}
     {| days := _parse_days s2; start_time := start2; end_time := end2;
        location := loc2 |} = false)
  /\ ((exists d, d ∈ _parse_days s1 /\ d ∈ _parse_days s2) ->
      conflicts_with
        {| days := _parse_days s1; start_time := start1; end_time := end1;
           location := loc1 |}
        {| days := _parse_days s2; start_time := start2; end_time := end2;
           location := loc2 |}
      = (_parse_time start1 <? _parse_time end2)
        && (_parse_time start2 <? _parse_time end1))
  /\ ((exists d, d ∈ _parse_days s1 /\ d ∈ _parse_days s2)
      <-> exists c1 c2 d, c1 ∈ chars s1 /\ c2 ∈ chars s2
                          /\ upper_char c1 = day_code d /\ upper_char c2 = day_code d).
Proof.
  split; [|split].
  - intros Hdis. by apply conflicts_with_disjoint.
  - intros (d & Hd1 & Hd2). unfold conflicts_with. simpl.
    assert (existsb (fun day => bool_decide (day ∈ _parse_days s2)) (_parse_days s1)
            = true) as ->; [|done].
    apply shares_day_spec. by exists d.
  - split.
    + intros (d & Hd1 & Hd2).
      apply parse_days_elem in Hd1 as (c1 & Hc1 & E1).
      apply parse_days_elem in Hd2 as (c2 & Hc2 & E2).
      by exists c1, c2, d.
    + intros (c1 & c2 & d & Hc1 & Hc2 & E1 & E2).
      exists d. split; apply parse_days_elem; eauto.
Qed.

(** ** Totals of a generated schedule; preferences and the objective *)

Section Totals.

Lemma total_units_sum_bounds (lo hi : Z) (ts : list ScheduledTerm) :
  Forall (fun st => lo <= total_units st <= hi) ts ->
  lo * Z.of_nat (length ts) <= foldr Z.add 0 (total_units <$> ts)
  <= hi * Z.of_nat (length ts).
Proof.
  induction 1 as [|st ts Hst _ IH]; [simpl; lia|].
  rewrite fmap_cons. cbn [foldr length]. lia.
Qed.

Lemma foldl_objective {A} (f : CpModel -> A -> CpModel) (l : list A) (m : CpModel) :
  (forall m x, objective (f m x) = objective m) ->
  objective (foldl f m l) = objective m.
Proof.
  intros Hf. revert m. induction l as [|x l IH]; intros m; [done|].
  simpl. by rewrite IH, Hf.
Qed.

Lemma taken_loop_objective (cv terms allowed : list string) (st : list Var * CpModel) :
  objective (foldl (taken_step cv terms) st allowed).2 = objective st.2.
Proof.
  revert st. induction allowed as [|c l IH]; intros st; [done|].
  simpl. rewrite IH. unfold taken_step. by case_bool_decide.
Qed.

Lemma requirement_step_objective (cv terms : list string)
    (avail : list (string * Course)) (m : CpModel) (req : Requirement) :
  objective (requirement_step cv terms avail m req) = objective m.
Proof.
  unfold requirement_step. destruct (rule_type req); try done.
  - destruct (truthy_list _); [|done].
    pose proof (taken_loop_objective cv terms (default [] (courses_allowed req)) ([], m))
      as H.
    destruct (foldl _ _ _) as [vars m1]. simpl in H. by destruct vars.
  - destruct (_ && _); [|done]. by destruct (category_units _ _ _ _).
Qed.

Lemma prereq_precedence_objective (c q : string) (earlier rest : list string)
    (m : CpModel) :
  objective (prereq_precedence c q earlier rest m) = objective m.
Proof.
  revert earlier m. induction rest as [|t rest IH]; intros earlier m; [done|].
  simpl. rewrite IH. by destruct (sum_over_terms q earlier).
Qed.

Lemma constraints_objective (settings : Settings) (p : StudentProfile)
    (reqs : list Requirement) (avail : list (string * Course))
    (off : gmap string (list string)) (terms : list string) :
  objective
    (_add_unit_constraints settings avail.*1 avail terms p
       (_add_offering_constraints avail.*1 off terms
          (_add_prerequisite_constraints avail.*1 avail terms (completed_courses p)
             (_add_requirement_constraints avail.*1 reqs avail terms new_model))))
  = None.
Proof.
  unfold _add_unit_constraints. rewrite foldl_objective.
  2: { intros m t. by destruct (term_units _ _ _). }
  unfold _add_offering_constraints. rewrite foldl_objective.
  2: { intros m c. apply foldl_objective. intros m' t.
       destruct (off !! t); [|done]. by case_bool_decide. }
  unfold _add_prerequisite_constraints. rewrite foldl_objective.
  2: { intros m kc. case_bool_decide; [done|]. apply foldl_objective.
       intros m' q. unfold prereq_step. case_bool_decide; [done|].
       case_bool_decide; [|apply prereq_precedence_objective].
       by apply foldl_objective. }
  unfold _add_requirement_constraints. rewrite foldl_objective; [done|].
  intros. apply requirement_step_objective.
Qed.

End Totals.

(** X20. Total units of a generated schedule.  When [solve] returns a
    schedule (sound engine, planned years of four digits), it has at most
    as many terms as the horizon has slots, and [Schedule.total_units]
    lies between 12 units per term and the student's unit limit per
    term. *)
Theorem generated_total_units (Solve : CpModel -> option (Var -> bool))
    (settings : Settings) (p : StudentProfile) (reqs : list Requirement)
    (avail : list (string * Course)) (off : gmap string (list string))
    (prefs : option (gmap string Q))
    (log : list LogMessage) (sched : Schedule) (score : Q) :
  engine_sound Solve -> four_digit_horizon settings p ->
  solve Solve settings p reqs avail off prefs = (log, Some (Some sched, score)) ->
  (length (terms sched) <= Z.to_nat (SOLVER_MAX_TERMS settings))%nat
  /\ 12 * Z.of_nat (length (terms sched)) <= schedule_total_units sched
     <= max_units_of settings p * Z.of_nat (length (terms sched)).
Proof.
  intros Hsound Hfour Hsolve.
  destruct (solve_success_slots _ _ _ _ _ _ _ _ _ _ Hfour Hsolve)
    as (i0 & a & Eo & Hs & -> & _).
  apply Hsound in Hs.
  set (n := Z.to_nat (SOLVER_MAX_TERMS settings)) in *. split.
  - simpl.
    pose proof (sublist_length _ _ (slot_terms_sublist a avail (sp_year p) i0
                                      (planned_slots i0 n))) as Hl.
    rewrite !length_fmap in Hl. pose proof (planned_slots_length i0 n). lia.
  - unfold schedule_total_units. simpl. apply total_units_sum_bounds.
    apply Forall_forall. intros st Hst.
    apply list_elem_of_omap in Hst as (k & Hk & Hsome).
    by apply (generated_term_unit_bounds settings p reqs avail off
                (preferences_or prefs p) a i0 n k).
Qed.

Lemma generated_total_units_witness :
  exists log sched score,
    solve (candidate_engine all_taken) default_settings freshman_fall []
      catalogue_A ∅ None = (log, Some (Some sched, score))
    /\ (length (terms sched) <= Z.to_nat (SOLVER_MAX_TERMS default_settings))%nat
    /\ 12 * Z.of_nat (length (terms sched)) <= schedule_total_units sched
       <= max_units_of default_settings freshman_fall * Z.of_nat (length (terms sched)).
Proof.
  eexists _, _, _.
  assert (four_digit_horizon default_settings freshman_fall) as Hfour
    by (apply four_digit_horizon_default; simpl; lia).
  match goal with
  | |- ?S = ?R /\ _ => assert (S = R) as Hs by (vm_compute; reflexivity)
  end.
  split; [exact Hs|].
  exact (generated_total_units (candidate_engine all_taken) default_settings
           freshman_fall [] catalogue_A ∅ None _ _ _
           (candidate_engine_sound _) Hfour Hs).
Defined.

(** X21. Preferences and the objective.  The optimisation weights never
    change a constraint of the built model, so the same assignments
    satisfy it under any weights; when no course of the map has a
    (non-zero) rating the model has no objective at all; and an empty
    preference dictionary is treated like an absent one, [solve] falling
    back to the student's own weights. *)
Theorem preferences_shape_objective_only (settings : Settings) (p : StudentProfile)
    (reqs : list Requirement) (avail : list (string * Course))
    (off : gmap string (list string)) (terms : list string) :
  (forall prefs prefs',
      constraints (build_model settings p reqs avail off prefs terms)
      = constraints (build_model settings p reqs avail off prefs' terms))
  /\ (forall prefs prefs' a,
        satisfies a (build_model settings p reqs avail off prefs terms)
        = satisfies a (build_model settings p reqs avail off prefs' terms))
  /\ (forall prefs,
        (forall k c, (k, c) ∈ avail -> truthy_float (student_rating c) = false) ->
        objective (build_model settings p reqs avail off prefs terms) = None)
  /\ (forall Solve,
        solve Solve settings p reqs avail off (Some ∅)
        = solve Solve settings p reqs avail off None).
Proof.
  assert (forall prefs prefs',
            constraints (build_model settings p reqs avail off prefs terms)
            = constraints (build_model settings p reqs avail off prefs' terms)) as Hc.
  { intros prefs prefs'. unfold build_model. by rewrite !add_objective_constraints. }
  split; [exact Hc|]. split; [|split].
  - intros prefs prefs' a. unfold satisfies. by rewrite (Hc prefs prefs').
  - intros prefs Hnone. unfold build_model, _add_objective.
    replace (avail ≫= _) with (@nil (Z * Var)); [apply constraints_objective|].
    symmetry. apply bind_nil_elem. intros [k c] Hin. simpl.
    by rewrite (Hnone k c Hin).
  - intros Solve. unfold solve, preferences_or.
    by rewrite bool_decide_eq_true_2.
Qed.

(** ** Subject data *)

Section SubjectData.

Lemma meeting_step_days (meeting : Json) (mt : MeetingTime) :
  meeting_step meeting = Some (Some mt) ->
  exists fields s,
    meeting = JObject fields
    /\ default (JString EmptyString) (dict_get fields "days") = JString s
    /\ days mt = _parse_days s /\ days mt ≠ []
    /\ default (JString EmptyString) (dict_get fields "start_time")
       = JString (start_time mt)
    /\ default (JString EmptyString) (dict_get fields "end_time")
       = JString (end_time mt).
Proof.
  unfold meeting_step. destruct meeting as [| | | |?|fields]; try done.
  destruct (default _ (dict_get fields "days")) as [| | |s| |] eqn:Ed; try done.
  destruct (_parse_days s) as [|d ds] eqn:Ep; [done|].
  destruct (default _ (dict_get fields "start_time")) as [| | |s1| |] eqn:E1; try done.
  destruct (default _ (dict_get fields "end_time")) as [| | |s2| |] eqn:E2; try done.
  simpl. destruct (optional_str_field _) as [loc|]; [|done]. simpl.
  intros [= <-]. exists fields, s. simpl. rewrite Ep. by repeat split.
Qed.

Lemma meeting_step_well_formed (meeting : Json) :
  well_formed_meeting meeting -> is_Some (meeting_step meeting).
Proof.
  intros (fields & -> & [s Hd] & [s1 H1] & [s2 H2] & [loc Hl]).
  unfold meeting_step. rewrite Hd, H1, H2, Hl. simpl.
  destruct (_parse_days s); by eauto.
Qed.

Lemma meetings_loop_elem (meetings : list Json) (mt : MeetingTime) :
  mt ∈ meetings_loop meetings ->
  exists meeting, meeting ∈ meetings /\ meeting_step meeting = Some (Some mt).
Proof.
  induction meetings as [|m ms IH]; [by intros ?%elem_of_nil|]. simpl.
  destruct (meeting_step m) as [[mt'|]|] eqn:E.
  - intros [-> | H]%elem_of_cons.
    + exists m. split; [left | done].
    + destruct (IH H) as (m' & ? & ?). exists m'. split; [by right | done].
  - intros H. destruct (IH H) as (m' & ? & ?). exists m'. split; [by right | done].
  - by intros ?%elem_of_nil.
Qed.

Lemma meetings_loop_length (meetings : list Json) :
  (length (meetings_loop meetings) <= length meetings)%nat.
Proof.
  induction meetings as [|m ms IH]; [done|]. simpl.
  destruct (meeting_step m) as [[mt'|]|]; simpl; lia.
Qed.

Lemma meetings_loop_well_formed (meetings : list Json) :
  Forall well_formed_meeting meetings ->
  meetings_loop meetings = omap (fun m => mjoin (meeting_step m)) meetings.
Proof.
  induction 1 as [|m ms Hm _ IH]; [done|].
  change (omap (fun m => mjoin (meeting_step m)) (m :: ms))
    with (match mjoin (meeting_step m) with
          | Some mt => mt :: omap (fun m => mjoin (meeting_step m)) ms
          | None => omap (fun m => mjoin (meeting_step m)) ms
          end).
  simpl. destruct (meeting_step_well_formed m Hm) as [[mt|] ->]; simpl; by rewrite IH.
Qed.

Lemma meetings_loop_prefix (pre post : list Json) (bad : Json) :
  meeting_step bad = None ->
  meetings_loop (pre ++ bad :: post) = meetings_loop pre.
Proof.
  intros Hbad. induction pre as [|m pre IH]; simpl; [by rewrite Hbad|].
  by rewrite IH.
Qed.

End SubjectData.

(** X22. Meeting times of a subject.  [parse_meeting_times] returns the
    empty list unless the value under meetings is a list; every meeting it
    returns comes from an object of that list and has at least one day,
    read from the object's days string, and there are no more of them than
    items; on a list of well-formed meetings it returns, in order, the
    meetings that have a day; and an item that raises (not an object, or
    with a field of the wrong type) ends the parse, the meetings after it
    being dropped silently. *)
Theorem parse_meeting_times_behaviour (subject_data : list (string * Json)) :
  ((forall items, dict_get subject_data "meetings" ≠ Some (JArray items)) ->
   parse_meeting_times subject_data = [])
  /\ (forall items, dict_get subject_data "meetings" = Some (JArray items) ->
        parse_meeting_times subject_data = meetings_loop items
        /\ (length (parse_meeting_times subject_data) <= length items)%nat
        /\ (forall mt, mt ∈ parse_meeting_times subject_data ->
              exists fields s,
                JObject fields ∈ items
                /\ default (JString EmptyString) (dict_get fields "days") = JString s
                /\ days mt = _parse_days s /\ days mt ≠ [])
        /\ (Forall well_formed_meeting items ->
            parse_meeting_times subject_data
            = omap (fun m => mjoin (meeting_step m)) items)
        /\ (forall pre bad post,
              items = pre ++ bad :: post -> meeting_step bad = None ->
              parse_meeting_times subject_data = meetings_loop pre))
  /\ (forall fields s,
        default (JString EmptyString) (dict_get fields "days") = JString s ->
        _parse_days s = [] -> meeting_step (JObject fields) = Some None).
Proof.
  split; [|split].
  - intros Hno. unfold parse_meeting_times, meetings_of.
    destruct (dict_get subject_data "meetings") as [v|] eqn:E; [|done].
    destruct v as [|b|q|s|items|fields]; simpl.
    + done.
    + by destruct b.
    + by destruct (Qeq_bool q 0).
    + destruct s as [|c s]; [done|]. simpl. done.
    + by destruct (Hno items).
    + destruct fields as [|[k v] fields]; [done|]. simpl. done.
  - intros items E.
    assert (parse_meeting_times subject_data = meetings_loop items) as Hp.
    { unfold parse_meeting_times, meetings_of. rewrite E.
      destruct items as [|m ms]; [done|]. simpl. done. }
    rewrite Hp. split; [done|]. split; [apply meetings_loop_length|]. split; [|split].
    + intros mt Hmt. apply meetings_loop_elem in Hmt as (m & Hm & Hstep).
      apply meeting_step_days in Hstep as (fields & s & -> & Hd & Hdays & Hne & _).
      by exists fields, s.
    + apply meetings_loop_well_formed.
    + intros pre bad post -> Hbad. by apply meetings_loop_prefix.
  - intros fields s Hd Hp. unfold meeting_step. by rewrite Hd, Hp.
Qed.

(** ** Accessors of a schedule, and unit limits below the minimum *)

Section Accessors.

Lemma all_courses_bind (s : Schedule) :
  all_courses s = (fun sc => id (course sc)) <$> (terms s ≫= courses).
Proof.
  unfold all_courses. induction (terms s) as [|st ts IH]; [done|].
  rewrite bind_cons, fmap_app, fmap_cons. simpl. by rewrite IH.
Qed.

Lemma schedule_total_units_bind (s : Schedule) :
  schedule_total_units s = sumZ (fun sc => units (course sc)) (terms s ≫= courses).
Proof.
  unfold schedule_total_units. induction (terms s) as [|st ts IH]; [done|].
  rewrite bind_cons, sumZ_app, fmap_cons. cbn [foldr]. rewrite IH. f_equal.
  unfold total_units, sumZ. induction (courses st) as [|sc cs IHc]; [done|].
  rewrite fmap_cons. cbn [foldr]. by rewrite IHc.
Qed.

End Accessors.

(** X23. Accessors of a schedule.  [Schedule.all_courses] lists the id of
    every scheduled course, term after term, a course scheduled in two
    terms appearing twice; [Schedule.total_units] is the sum of the units
    of the same scheduled courses; so both have one entry per scheduled
    course and both are additive over the list of terms. *)
Theorem schedule_accessors (s : Schedule) :
  all_courses s = (fun sc => id (course sc)) <$> (terms s ≫= courses)
  /\ schedule_total_units s = sumZ (fun sc => units (course sc)) (terms s ≫= courses)
  /\ length (all_courses s) = length (terms s ≫= courses)
  /\ (forall q, q ∈ all_courses s
                <-> exists st sc, st ∈ terms s /\ sc ∈ courses st /\ id (course sc) = q)
  /\ (forall sid ts1 ts2,
        all_courses {| student_id := sid; terms := ts1 ++ ts2 |}
        = all_courses {| student_id := sid; terms := ts1 |}
          ++ all_courses {| student_id := sid; terms := ts2 |}
        /\ schedule_total_units {| student_id := sid; terms := ts1 ++ ts2 |}
           = schedule_total_units {| student_id := sid; terms := ts1 |}
             + schedule_total_units {| student_id := sid; terms := ts2 |}).
Proof.
  split; [apply all_courses_bind|]. split; [apply schedule_total_units_bind|].
  split; [by rewrite all_courses_bind, length_fmap|].
  split; [apply all_courses_elem|].
  intros sid ts1 ts2. rewrite !all_courses_bind, !schedule_total_units_bind. simpl.
  by rewrite bind_app, fmap_app, sumZ_app.
Qed.

(** X24. A unit limit below the minimum.  The builder bounds every
    planned term from below by 12 units and from above by the student's
    limit; so when the limit is under 12, the course map is not empty and
    the horizon has at least two slots, no assignment satisfies the built
    model, and [solve], with a sound engine, never returns a schedule:
    whenever it returns, it returns no schedule and score 0 after the
    no-solution warning. *)
Theorem unit_limit_below_minimum (Solve : CpModel -> option (Var -> bool))
    (settings : Settings) (p : StudentProfile) (reqs : list Requirement)
    (avail : list (string * Course)) (off : gmap string (list string))
    (prefs : option (gmap string Q)) :
  engine_sound Solve -> avail ≠ [] ->
  2 <= SOLVER_MAX_TERMS settings -> max_units_of settings p < 12 ->
  (forall planned a,
      _generate_terms settings p = Some planned ->
      satisfies a (build_model settings p reqs avail off (preferences_or prefs p)
                     planned) = false)
  /\ (forall log result,
        solve Solve settings p reqs avail off prefs = (log, Some result) ->
        result = (None, 0%Q)
        /\ log = [StartingGeneration (sp_id p); SolvingCSP; NoSolutionFound]).
Proof.
  intros Hsound Hne Hn Hmax.
  assert (forall planned a,
            _generate_terms settings p = Some planned ->
            satisfies a (build_model settings p reqs avail off (preferences_or prefs p)
                           planned) = false) as Hno.
  { intros planned a Hgen. apply not_true_is_false. intros Hsat.
    destruct (semester_order (sp_semester p)) as [i0|] eqn:Eo;
      [|by unfold _generate_terms in Hgen; rewrite Eo in Hgen].
    rewrite (generate_terms_eq settings p i0 Eo) in Hgen. injection Hgen as <-.
    set (n := Z.to_nat (SOLVER_MAX_TERMS settings)) in *.
    destruct (planned_slots i0 n) as [|k ks] eqn:Ek.
    { apply (planned_slots_nonempty i0 n); [lia | done]. }
    pose proof (build_model_unit_bounds settings p reqs avail off
                  (preferences_or prefs p) (walk_terms (sp_year p) i0 n) a
                  (slot_term_id (sp_year p) i0 k) Hne) as Hb.
    destruct Hb; [| done |lia].
    unfold walk_terms. rewrite Ek. left. }
  split; [exact Hno|].
  intros log result Hsolve.
  destruct (_generate_terms settings p) as [planned|] eqn:Hgen;
    [|by unfold solve in Hsolve; rewrite Hgen in Hsolve].
  rewrite (solve_no_solution Solve Hsound settings p reqs avail off prefs planned Hgen
             (fun a => Hno planned a eq_refl)) in Hsolve.
  by injection Hsolve as <- <-.
Qed.

Lemma unit_limit_below_minimum_witness :
  (forall a,
      satisfies a (build_model default_settings low_limit_student [] catalogue_A ∅
                     (preferences_or None low_limit_student) default_terms) = false)
  /\ solve (candidate_engine all_taken) default_settings low_limit_student
       [] catalogue_A ∅ None
     = ([StartingGeneration "s3"; SolvingCSP; NoSolutionFound], Some (None, 0%Q)).
Proof.
  destruct (unit_limit_below_minimum (candidate_engine all_taken) default_settings
              low_limit_student [] catalogue_A ∅ None) as [Hno Hret].
  - apply candidate_engine_sound.
  - done.
  - simpl. lia.
  - vm_compute. reflexivity.
  - split.
    + intros a. by apply Hno.
    + vm_compute. reflexivity.
Defined.
